(** * SpeedCorrector: the speedometer corrector firmware, embedded in Rocq

    Shallow embedding of [firmware/speed_correction.ino] (ATmega328P, avr-gcc).
    Integers are [Z] with the wrap-around of their C type written out
    ([int] and [unsigned int] are 16 bits wide on this target); [float] and
    [double] are both IEEE-754 binary32 and are kept as their 32-bit
    pattern, with the arithmetic given by the Standard Library's [SpecFloat]
    at precision 24 and maximal exponent 128.  Globals and the Timer1
    registers live in one record; every interrupt handler and every pass of
    [loop()] is one transition on that record. *)

From Stdlib Require Import ZArith List Bool String Ascii Lia.
From Stdlib Require Import Floats.SpecFloat.
Import ListNotations.

Local Open Scope Z_scope.

(** ** Fixed-width integers *)

Module Word.

Definition u8 (z : Z) : Z := z mod 2 ^ 8.
Definition u16 (z : Z) : Z := z mod 2 ^ 16.
Definition u32 (z : Z) : Z := z mod 2 ^ 32.

(** Two's-complement reading of the low 16 (32) bits. *)
Definition i16 (z : Z) : Z := (z + 2 ^ 15) mod 2 ^ 16 - 2 ^ 15.
Definition i32 (z : Z) : Z := (z + 2 ^ 31) mod 2 ^ 32 - 2 ^ 31.

Lemma u16_range z : 0 <= u16 z < 2 ^ 16.
Proof. unfold u16. apply Z.mod_pos_bound. lia. Qed.

Lemma u32_range z : 0 <= u32 z < 2 ^ 32.
Proof. unfold u32. apply Z.mod_pos_bound. lia. Qed.

Lemma u8_range z : 0 <= u8 z < 2 ^ 8.
Proof. unfold u8. apply Z.mod_pos_bound. lia. Qed.

Lemma u16_small z : 0 <= z < 2 ^ 16 -> u16 z = z.
Proof. intros H. unfold u16. apply Z.mod_small. exact H. Qed.

Lemma u32_small z : 0 <= z < 2 ^ 32 -> u32 z = z.
Proof. intros H. unfold u32. apply Z.mod_small. exact H. Qed.

Lemma i32_small z : - 2 ^ 31 <= z < 2 ^ 31 -> i32 z = z.
Proof. intros H. unfold i32. rewrite Z.mod_small; lia. Qed.

Lemma i16_small z : - 2 ^ 15 <= z < 2 ^ 15 -> i16 z = z.
Proof. intros H. unfold i16. rewrite Z.mod_small; lia. Qed.

Lemma u32_i32 z : u32 (i32 z) = u32 z.
Proof.
  unfold u32, i32.
  rewrite Zminus_mod, Zmod_mod, <- Zminus_mod.
  f_equal. lia.
Qed.

Lemma u32_add_l a b : u32 (u32 a + b) = u32 (a + b).
Proof. unfold u32. now rewrite Zplus_mod_idemp_l. Qed.

Lemma u32_add_r a b : u32 (a + u32 b) = u32 (a + b).
Proof. unfold u32. now rewrite Zplus_mod_idemp_r. Qed.

End Word.

(** ** Single-precision floating point

    A [float32] is the 32-bit pattern of the object; [decode] and [encode]
    relate it to [spec_float].  Operations round to nearest, ties to even. *)

Module F32.

Definition float32 := Z.

Definition prec : Z := 24.
Definition emax : Z := 128.

Definition sign_bit (b : Z) : bool := Z.testbit b 31.
Definition biased_exp (b : Z) : Z := Z.land (Z.shiftr b 23) 255.
Definition fraction (b : Z) : Z := Z.land b (2 ^ 23 - 1).

Definition decode (b : float32) : spec_float :=
  let s := sign_bit b in
  let e := biased_exp b in
  let m := fraction b in
  if e =? 0 then
    match m with
    | Zpos p => S754_finite s p (-149)
    | _ => S754_zero s
    end
  else if e =? 255 then
    if m =? 0 then S754_infinity s else S754_nan
  else
    S754_finite s (Z.to_pos (m + 2 ^ 23)) (e - 150).

Definition sign_word (s : bool) : Z := if s then 2 ^ 31 else 0.

(** The quiet NaN the AVR library produces. *)
Definition nan_word : Z := 2143289344.

Definition encode (x : spec_float) : float32 :=
  match x with
  | S754_zero s => sign_word s
  | S754_infinity s => sign_word s + 255 * 2 ^ 23
  | S754_nan => nan_word
  | S754_finite s m e =>
      if Zpos m <? 2 ^ 23 then sign_word s + Zpos m
      else sign_word s + (e + 150) * 2 ^ 23 + (Zpos m - 2 ^ 23)
  end.

Definition add (a b : float32) : float32 :=
  encode (SFadd prec emax (decode a) (decode b)).
Definition sub (a b : float32) : float32 :=
  encode (SFsub prec emax (decode a) (decode b)).
Definition mul (a b : float32) : float32 :=
  encode (SFmul prec emax (decode a) (decode b)).
Definition div (a b : float32) : float32 :=
  encode (SFdiv prec emax (decode a) (decode b)).
Definition fabs (a : float32) : float32 := encode (SFabs (decode a)).

Definition ltb (a b : float32) : bool := SFltb (decode a) (decode b).
Definition leb (a b : float32) : bool := SFleb (decode a) (decode b).
Definition eqb (a b : float32) : bool := SFeqb (decode a) (decode b).
Definition gtb (a b : float32) : bool := ltb b a.

(** Integer to float conversion (rounded when the integer needs more than
    24 bits). *)
Definition of_Z (n : Z) : float32 :=
  encode (binary_normalize prec emax n 0 false).

(** Float to [uint32_t]: truncation toward zero.  C leaves the conversion
    of a NaN, an infinity, a negative value or a value of 2^32 and more
    undefined; here they give 0, respectively the low 32 bits. *)
Definition to_u32 (a : float32) : Z :=
  match decode a with
  | S754_finite false m e =>
      Word.u32 (if 0 <=? e then Z.shiftl (Zpos m) e else Z.shiftr (Zpos m) (- e))
  | _ => 0
  end.

Definition is_finite (a : float32) : bool :=
  match decode a with
  | S754_zero _ | S754_finite _ _ _ => true
  | _ => false
  end.

Definition is_nan (a : float32) : bool :=
  match decode a with
  | S754_nan => true
  | _ => false
  end.

Definition zero : float32 := 0.

End F32.

Import F32.

(** ** Constants of the sketch

    avr-gcc folds these expressions at compile time in the target's
    [double], which is binary32. *)

(** [#define TICK_VALUE ((1/16000000.0) * 64.0)] *)
Definition TICK_VALUE : float32 :=
  Eval vm_compute in mul (div (of_Z 1) (of_Z 16000000)) (of_Z 64).

Definition PULSE_PER_KM : Z := 2683.

(** [#define FREQ_50 (((PULSE_PER_KM * 50.0) / 3600.0))], and likewise for
    100 and 150 km/h. *)
Definition FREQ_50 : float32 :=
  Eval vm_compute in div (mul (of_Z PULSE_PER_KM) (of_Z 50)) (of_Z 3600).
Definition FREQ_100 : float32 :=
  Eval vm_compute in div (mul (of_Z PULSE_PER_KM) (of_Z 100)) (of_Z 3600).
Definition FREQ_150 : float32 :=
  Eval vm_compute in div (mul (of_Z PULSE_PER_KM) (of_Z 150)) (of_Z 3600).

(** [const float MAX_VAR_PER_CYCLE = 2.5f;] *)
Definition MAX_VAR_PER_CYCLE : float32 := Eval vm_compute in div (of_Z 5) (of_Z 2).

(** Bit numbers from the device header [avr/io.h] (ATmega328P data sheet). *)
Definition ICES1 : Z := 6.
Definition ICNC1 : Z := 7.
Definition CS10 : Z := 0.
Definition CS11 : Z := 1.
Definition TOV0 : Z := 0.
Definition TOV1 : Z := 0.
Definition ICF1 : Z := 5.
Definition _BV (bit : Z) : Z := Z.shiftl 1 bit.

(** ** Data model *)

(** [struct CorrectionFreq { float inputFreq; float outputFreq; };] *)
Record CorrectionFreq := mkCorrectionFreq {
  inputFreq : float32;
  outputFreq : float32
}.

(** [enum State { OPEN_CER_RAISE, OPEN_CER_LOWER, NORMAL };] *)
Inductive State := OPEN_CER_RAISE | OPEN_CER_LOWER | NORMAL.

Definition State_eqb (a b : State) : bool :=
  match a, b with
  | OPEN_CER_RAISE, OPEN_CER_RAISE => true
  | OPEN_CER_LOWER, OPEN_CER_LOWER => true
  | NORMAL, NORMAL => true
  | _, _ => false
  end.

(** The EEPROM, one byte per address. *)
Definition eeprom := Z -> Z.

(** [uint8_t EEPROM.read(int)] *)
Definition EEPROM_read (ee : Z) (e : eeprom) : Z := Word.u8 (e ee).

(** [EEPROM.write(int, uint8_t)] *)
Definition EEPROM_write (ee : Z) (value : Z) (e : eeprom) : eeprom :=
  fun a => if a =? ee then Word.u8 value else e a.

(** What [Serial.print] and [Serial.println] were given, in order. *)
Inductive out_item :=
| Text (s : string)
| Num (n : Z)
| Real (f : float32)
| Newline.

(** The speed correction table at its initial value. *)
Definition gFreqTable_init : list CorrectionFreq :=
  [ mkCorrectionFreq zero zero;
    mkCorrectionFreq FREQ_50 FREQ_50;
    mkCorrectionFreq FREQ_100 FREQ_100;
    mkCorrectionFreq FREQ_150 FREQ_150 ].

Record Mcu := mkMcu {
  TCCR1B : Z;  (* Timer1 control register B (bit ICES1 selects the capture edge) *)
  TIFR1 : Z;  (* Timer1 interrupt flags (bit TOV1: overflow pending) *)
  ICR1 : Z;  (* input capture register *)
  OCR1A : Z;  (* output compare register A *)
  pin13 : bool;  (* regenerated pulse train *)
  pin12 : bool;  (* diagnostic output, toggled on every overflow *)
  EEPROM : eeprom;  (* non-volatile storage *)
  Serial : list out_item;  (* everything printed on the serial link *)
  gLastCounter : Z;  (* uint16_t *)
  gInputPeriod : Z;  (* uint32_t *)
  gOutputPeriod : Z;  (* uint32_t *)
  gOverflowCounter : Z;  (* uint16_t *)
  gStopped : bool;
  gCaptureLive : bool;
  gDisplayCapture : bool;
  gLastOutput : bool;
  gLastInputFreq : float32;
  gInputString : string;
  gStringComplete : bool;
  gFreqTable : list CorrectionFreq;
  ovf : bool;
  gLoopPerSec : Z;  (* int32_t *)
  gState : State;
  gLastUpdate : Z  (* unsigned int, 16 bits *)
}.

Definition set_TCCR1B (v : Z) (s : Mcu) : Mcu :=
  let '(mkMcu x0 x1 x2 x3 x4 x5 x6 x7 x8 x9 x10 x11 x12 x13 x14 x15 x16 x17
               x18 x19 x20 x21 x22 x23) := s in
  mkMcu v x1 x2 x3 x4 x5 x6 x7 x8 x9 x10 x11 x12 x13 x14 x15 x16 x17 x18 x19
        x20 x21 x22 x23.

Definition set_TIFR1 (v : Z) (s : Mcu) : Mcu :=
  let '(mkMcu x0 x1 x2 x3 x4 x5 x6 x7 x8 x9 x10 x11 x12 x13 x14 x15 x16 x17
               x18 x19 x20 x21 x22 x23) := s in
  mkMcu x0 v x2 x3 x4 x5 x6 x7 x8 x9 x10 x11 x12 x13 x14 x15 x16 x17 x18 x19
        x20 x21 x22 x23.

Definition set_ICR1 (v : Z) (s : Mcu) : Mcu :=
  let '(mkMcu x0 x1 x2 x3 x4 x5 x6 x7 x8 x9 x10 x11 x12 x13 x14 x15 x16 x17
               x18 x19 x20 x21 x22 x23) := s in
  mkMcu x0 x1 v x3 x4 x5 x6 x7 x8 x9 x10 x11 x12 x13 x14 x15 x16 x17 x18 x19
        x20 x21 x22 x23.

Definition set_OCR1A (v : Z) (s : Mcu) : Mcu :=
  let '(mkMcu x0 x1 x2 x3 x4 x5 x6 x7 x8 x9 x10 x11 x12 x13 x14 x15 x16 x17
               x18 x19 x20 x21 x22 x23) := s in
  mkMcu x0 x1 x2 v x4 x5 x6 x7 x8 x9 x10 x11 x12 x13 x14 x15 x16 x17 x18 x19
        x20 x21 x22 x23.

Definition set_pin13 (v : bool) (s : Mcu) : Mcu :=
  let '(mkMcu x0 x1 x2 x3 x4 x5 x6 x7 x8 x9 x10 x11 x12 x13 x14 x15 x16 x17
               x18 x19 x20 x21 x22 x23) := s in
  mkMcu x0 x1 x2 x3 v x5 x6 x7 x8 x9 x10 x11 x12 x13 x14 x15 x16 x17 x18 x19
        x20 x21 x22 x23.

Definition set_pin12 (v : bool) (s : Mcu) : Mcu :=
  let '(mkMcu x0 x1 x2 x3 x4 x5 x6 x7 x8 x9 x10 x11 x12 x13 x14 x15 x16 x17
               x18 x19 x20 x21 x22 x23) := s in
  mkMcu x0 x1 x2 x3 x4 v x6 x7 x8 x9 x10 x11 x12 x13 x14 x15 x16 x17 x18 x19
        x20 x21 x22 x23.

Definition set_EEPROM (v : eeprom) (s : Mcu) : Mcu :=
  let '(mkMcu x0 x1 x2 x3 x4 x5 x6 x7 x8 x9 x10 x11 x12 x13 x14 x15 x16 x17
               x18 x19 x20 x21 x22 x23) := s in
  mkMcu x0 x1 x2 x3 x4 x5 v x7 x8 x9 x10 x11 x12 x13 x14 x15 x16 x17 x18 x19
        x20 x21 x22 x23.

Definition set_Serial (v : list out_item) (s : Mcu) : Mcu :=
  let '(mkMcu x0 x1 x2 x3 x4 x5 x6 x7 x8 x9 x10 x11 x12 x13 x14 x15 x16 x17
               x18 x19 x20 x21 x22 x23) := s in
  mkMcu x0 x1 x2 x3 x4 x5 x6 v x8 x9 x10 x11 x12 x13 x14 x15 x16 x17 x18 x19
        x20 x21 x22 x23.

Definition set_gLastCounter (v : Z) (s : Mcu) : Mcu :=
  let '(mkMcu x0 x1 x2 x3 x4 x5 x6 x7 x8 x9 x10 x11 x12 x13 x14 x15 x16 x17
               x18 x19 x20 x21 x22 x23) := s in
  mkMcu x0 x1 x2 x3 x4 x5 x6 x7 v x9 x10 x11 x12 x13 x14 x15 x16 x17 x18 x19
        x20 x21 x22 x23.

Definition set_gInputPeriod (v : Z) (s : Mcu) : Mcu :=
  let '(mkMcu x0 x1 x2 x3 x4 x5 x6 x7 x8 x9 x10 x11 x12 x13 x14 x15 x16 x17
               x18 x19 x20 x21 x22 x23) := s in
  mkMcu x0 x1 x2 x3 x4 x5 x6 x7 x8 v x10 x11 x12 x13 x14 x15 x16 x17 x18 x19
        x20 x21 x22 x23.

Definition set_gOutputPeriod (v : Z) (s : Mcu) : Mcu :=
  let '(mkMcu x0 x1 x2 x3 x4 x5 x6 x7 x8 x9 x10 x11 x12 x13 x14 x15 x16 x17
               x18 x19 x20 x21 x22 x23) := s in
  mkMcu x0 x1 x2 x3 x4 x5 x6 x7 x8 x9 v x11 x12 x13 x14 x15 x16 x17 x18 x19
        x20 x21 x22 x23.

Definition set_gOverflowCounter (v : Z) (s : Mcu) : Mcu :=
  let '(mkMcu x0 x1 x2 x3 x4 x5 x6 x7 x8 x9 x10 x11 x12 x13 x14 x15 x16 x17
               x18 x19 x20 x21 x22 x23) := s in
  mkMcu x0 x1 x2 x3 x4 x5 x6 x7 x8 x9 x10 v x12 x13 x14 x15 x16 x17 x18 x19
        x20 x21 x22 x23.

Definition set_gStopped (v : bool) (s : Mcu) : Mcu :=
  let '(mkMcu x0 x1 x2 x3 x4 x5 x6 x7 x8 x9 x10 x11 x12 x13 x14 x15 x16 x17
               x18 x19 x20 x21 x22 x23) := s in
  mkMcu x0 x1 x2 x3 x4 x5 x6 x7 x8 x9 x10 x11 v x13 x14 x15 x16 x17 x18 x19
        x20 x21 x22 x23.

Definition set_gCaptureLive (v : bool) (s : Mcu) : Mcu :=
  let '(mkMcu x0 x1 x2 x3 x4 x5 x6 x7 x8 x9 x10 x11 x12 x13 x14 x15 x16 x17
               x18 x19 x20 x21 x22 x23) := s in
  mkMcu x0 x1 x2 x3 x4 x5 x6 x7 x8 x9 x10 x11 x12 v x14 x15 x16 x17 x18 x19
        x20 x21 x22 x23.

Definition set_gDisplayCapture (v : bool) (s : Mcu) : Mcu :=
  let '(mkMcu x0 x1 x2 x3 x4 x5 x6 x7 x8 x9 x10 x11 x12 x13 x14 x15 x16 x17
               x18 x19 x20 x21 x22 x23) := s in
  mkMcu x0 x1 x2 x3 x4 x5 x6 x7 x8 x9 x10 x11 x12 x13 v x15 x16 x17 x18 x19
        x20 x21 x22 x23.

Definition set_gLastOutput (v : bool) (s : Mcu) : Mcu :=
  let '(mkMcu x0 x1 x2 x3 x4 x5 x6 x7 x8 x9 x10 x11 x12 x13 x14 x15 x16 x17
               x18 x19 x20 x21 x22 x23) := s in
  mkMcu x0 x1 x2 x3 x4 x5 x6 x7 x8 x9 x10 x11 x12 x13 x14 v x16 x17 x18 x19
        x20 x21 x22 x23.

Definition set_gLastInputFreq (v : float32) (s : Mcu) : Mcu :=
  let '(mkMcu x0 x1 x2 x3 x4 x5 x6 x7 x8 x9 x10 x11 x12 x13 x14 x15 x16 x17
               x18 x19 x20 x21 x22 x23) := s in
  mkMcu x0 x1 x2 x3 x4 x5 x6 x7 x8 x9 x10 x11 x12 x13 x14 x15 v x17 x18 x19
        x20 x21 x22 x23.

Definition set_gInputString (v : string) (s : Mcu) : Mcu :=
  let '(mkMcu x0 x1 x2 x3 x4 x5 x6 x7 x8 x9 x10 x11 x12 x13 x14 x15 x16 x17
               x18 x19 x20 x21 x22 x23) := s in
  mkMcu x0 x1 x2 x3 x4 x5 x6 x7 x8 x9 x10 x11 x12 x13 x14 x15 x16 v x18 x19
        x20 x21 x22 x23.

Definition set_gStringComplete (v : bool) (s : Mcu) : Mcu :=
  let '(mkMcu x0 x1 x2 x3 x4 x5 x6 x7 x8 x9 x10 x11 x12 x13 x14 x15 x16 x17
               x18 x19 x20 x21 x22 x23) := s in
  mkMcu x0 x1 x2 x3 x4 x5 x6 x7 x8 x9 x10 x11 x12 x13 x14 x15 x16 x17 v x19
        x20 x21 x22 x23.

Definition set_gFreqTable (v : list CorrectionFreq) (s : Mcu) : Mcu :=
  let '(mkMcu x0 x1 x2 x3 x4 x5 x6 x7 x8 x9 x10 x11 x12 x13 x14 x15 x16 x17
               x18 x19 x20 x21 x22 x23) := s in
  mkMcu x0 x1 x2 x3 x4 x5 x6 x7 x8 x9 x10 x11 x12 x13 x14 x15 x16 x17 x18 v
        x20 x21 x22 x23.

Definition set_ovf (v : bool) (s : Mcu) : Mcu :=
  let '(mkMcu x0 x1 x2 x3 x4 x5 x6 x7 x8 x9 x10 x11 x12 x13 x14 x15 x16 x17
               x18 x19 x20 x21 x22 x23) := s in
  mkMcu x0 x1 x2 x3 x4 x5 x6 x7 x8 x9 x10 x11 x12 x13 x14 x15 x16 x17 x18 x19
        v x21 x22 x23.

Definition set_gLoopPerSec (v : Z) (s : Mcu) : Mcu :=
  let '(mkMcu x0 x1 x2 x3 x4 x5 x6 x7 x8 x9 x10 x11 x12 x13 x14 x15 x16 x17
               x18 x19 x20 x21 x22 x23) := s in
  mkMcu x0 x1 x2 x3 x4 x5 x6 x7 x8 x9 x10 x11 x12 x13 x14 x15 x16 x17 x18 x19
        x20 v x22 x23.

Definition set_gState (v : State) (s : Mcu) : Mcu :=
  let '(mkMcu x0 x1 x2 x3 x4 x5 x6 x7 x8 x9 x10 x11 x12 x13 x14 x15 x16 x17
               x18 x19 x20 x21 x22 x23) := s in
  mkMcu x0 x1 x2 x3 x4 x5 x6 x7 x8 x9 x10 x11 x12 x13 x14 x15 x16 x17 x18 x19
        x20 x21 v x23.

Definition set_gLastUpdate (v : Z) (s : Mcu) : Mcu :=
  let '(mkMcu x0 x1 x2 x3 x4 x5 x6 x7 x8 x9 x10 x11 x12 x13 x14 x15 x16 x17
               x18 x19 x20 x21 x22 x23) := s in
  mkMcu x0 x1 x2 x3 x4 x5 x6 x7 x8 x9 x10 x11 x12 x13 x14 x15 x16 x17 x18 x19
        x20 x21 x22 v.

(** The globals as their initialisers leave them, before [setup()]. *)
Definition reset_state (e : eeprom) : Mcu :=
  {| TCCR1B := 0; TIFR1 := 0; ICR1 := 0; OCR1A := 0;
     pin13 := false; pin12 := false;
     EEPROM := e; Serial := [];
     gLastCounter := 0; gInputPeriod := 0; gOutputPeriod := 0;
     gOverflowCounter := 0;
     gStopped := true; gCaptureLive := false; gDisplayCapture := false;
     gLastOutput := false;
     gLastInputFreq := zero;
     gInputString := EmptyString; gStringComplete := false;
     gFreqTable := gFreqTable_init;
     ovf := false; gLoopPerSec := 0;
     gState := NORMAL;
     gLastUpdate := 0 |}.

Definition print (x : out_item) (s : Mcu) : Mcu :=
  set_Serial (Serial s ++ [x]) s.

Definition println (x : out_item) (s : Mcu) : Mcu :=
  set_Serial (Serial s ++ [x; Newline]) s.

(** ** Calibration persistence *)

(** The four bytes of a [float] object, least significant first. *)
Definition float_bytes (f : float32) : list Z :=
  [ Word.u8 f; Word.u8 (Z.shiftr f 8); Word.u8 (Z.shiftr f 16);
    Word.u8 (Z.shiftr f 24) ].

(** The byte image of [gFreqTable], as [(const byte* )gFreqTable] walks it. *)
Definition table_bytes (t : list CorrectionFreq) : list Z :=
  flat_map (fun c => float_bytes (inputFreq c) ++ float_bytes (outputFreq c)) t.

(** [sizeof(gFreqTable)]: four entries of two 4-byte floats. *)
Definition sizeof_gFreqTable : nat := 32.

Definition bytes_float (b0 b1 b2 b3 : Z) : float32 :=
  b0 + Z.shiftl b1 8 + Z.shiftl b2 16 + Z.shiftl b3 24.

(** The table whose byte image is the given bytes. *)
Fixpoint bytes_table (n : nat) (bs : list Z) : list CorrectionFreq :=
  match n with
  | O => []
  | S n' =>
      match bs with
      | i0 :: i1 :: i2 :: i3 :: o0 :: o1 :: o2 :: o3 :: rest =>
          mkCorrectionFreq (bytes_float i0 i1 i2 i3) (bytes_float o0 o1 o2 o3)
            :: bytes_table n' rest
      | _ => []
      end
  end.

(** The loop of [saveConf]: [EEPROM.write(ee++, *p++)] for each byte. *)
Fixpoint write_bytes (ee : Z) (bs : list Z) (e : eeprom) : eeprom :=
  match bs with
  | [] => e
  | b :: rest => write_bytes (ee + 1) rest (EEPROM_write ee b e)
  end.

(** The loop of [loadConf]: [*p++ = EEPROM.read(ee++)], [n] times. *)
Fixpoint read_bytes (ee : Z) (n : nat) (e : eeprom) : list Z :=
  match n with
  | O => []
  | S n' => EEPROM_read ee e :: read_bytes (ee + 1) n' e
  end.

Definition char_S : Z := 83.
Definition char_N : Z := 78.
Definition char_X : Z := 88.

Definition saveConf (s : Mcu) : Mcu :=
  let ee := 0 in
  let e := EEPROM_write ee char_S (EEPROM s) in
  let e := EEPROM_write (ee + 1) char_N e in
  let e := EEPROM_write (ee + 2) char_X e in
  let e := write_bytes (ee + 3) (firstn sizeof_gFreqTable (table_bytes (gFreqTable s))) e in
  set_EEPROM e s.

Definition loadConf (s : Mcu) : Mcu :=
  let ee := 0 in
  let c_s := EEPROM_read ee (EEPROM s) in
  let c_n := EEPROM_read (ee + 1) (EEPROM s) in
  let c_x := EEPROM_read (ee + 2) (EEPROM s) in
  if negb (c_s =? char_S) || negb (c_n =? char_N) || negb (c_x =? char_X) then
    println (Text "No configuration found") s
  else
    let bs := read_bytes (ee + 3) sizeof_gFreqTable (EEPROM s) in
    println (Text "Configuration loaded") (set_gFreqTable (bytes_table 4 bs) s).

(** ** Interrupt handlers *)

(** [ISR (TIMER1_CAPT_vect)]: input capture for the speed input.  The
    product [int32_t(gOverflowCounter) * 0x10000] is taken in 32 bits with
    wrap-around; it fits a signed 32-bit integer while [gOverflowCounter]
    is below 32768, and C defines nothing for it beyond. *)
Definition isr_capture (s : Mcu) : Mcu :=
  let tc1 := Word.u16 (ICR1 s) in
  (* invert input capture edge *)
  let s := set_TCCR1B (Z.lxor (TCCR1B s) (_BV ICES1)) s in
  let s :=
    if gCaptureLive s then
      (* compute duration between event *)
      let s := set_gInputPeriod (Word.u32 (Word.i32 (Word.i32 tc1 - Word.i32 (gLastCounter s)))) s in
      (* add overflow count *)
      let s := set_gInputPeriod
                 (Word.u32 (gInputPeriod s + Word.i32 (Word.i32 (gOverflowCounter s) * 65536))) s in
      let s := set_gOverflowCounter 0 s in
      if negb (Z.land (TIFR1 s) (_BV TOV1) =? 0) && (tc1 <? 65535) then
        let s := set_gInputPeriod (Word.u32 (gInputPeriod s + 65536)) s in
        set_gOverflowCounter (Word.u16 (-1)) s
      else s
    else
      (* capture is not live, reset the overflow counter *)
      let s := set_gOverflowCounter 0 s in
      let s :=
        if negb (Z.land (TIFR1 s) (_BV TOV0) =? 0) && (tc1 <? 65535) then
          set_gOverflowCounter (Word.u16 (-1)) s
        else s in
      (* immediately swap the output *)
      let s := set_gLastOutput (negb (gLastOutput s)) s in
      set_pin13 (gLastOutput s) s in
  let s := set_gLastCounter tc1 s in
  let s := set_gCaptureLive true s in
  let s := set_ICR1 0 s in
  set_gDisplayCapture true s.

(** [ISR (TIMER1_OVF_vect)]: Timer 1 overflow. *)
Definition isr_overflow (s : Mcu) : Mcu :=
  let s := set_gOverflowCounter (Word.u16 (gOverflowCounter s + 1)) s in
  let s := set_pin12 (ovf s) s in
  set_ovf (negb (ovf s)) s.

(** [ISR (TIMER1_COMPA_vect)]: output compare match. *)
Definition isr_compare (s : Mcu) : Mcu :=
  if negb (gStopped s) then
    let s := set_gLastOutput (negb (gLastOutput s)) s in
    let s := set_pin13 (gLastOutput s) s in
    (* program next event *)
    set_OCR1A (Word.u16 (Word.u32 (OCR1A s + gOutputPeriod s))) s
  else s.

(** ** Timer 1 and the interrupt controller

    What the hardware does around the handlers: an edge on the input pin
    latches the counter into [ICR1]; a wrap of the counter raises [TOV1],
    which stays raised until the overflow handler is entered. *)

Inductive event :=
| HwEdge (counter : Z)   (* edge on ICP1: ICR1 := TCNT1 *)
| HwWrap                 (* TCNT1 goes from 0xffff to 0 *)
| IrqCapture             (* the capture handler runs *)
| IrqOverflow            (* the overflow handler runs *)
| IrqCompare.            (* the compare-match handler runs *)

Definition tov_pending (s : Mcu) : bool :=
  negb (Z.land (TIFR1 s) (_BV TOV1) =? 0).

Definition fire (ev : event) (s : Mcu) : Mcu :=
  match ev with
  | HwEdge counter => set_ICR1 (Word.u16 counter) s
  | HwWrap => set_TIFR1 (Z.lor (TIFR1 s) (_BV TOV1)) s
  | IrqCapture => isr_capture s
  | IrqOverflow =>
      (* the flag is cleared by hardware when the vector is taken *)
      isr_overflow (set_TIFR1 (Z.land (TIFR1 s) (Z.lnot (_BV TOV1))) s)
  | IrqCompare => isr_compare s
  end.

(** The overflow vector is only taken while its flag is raised. *)
Definition enabled (ev : event) (s : Mcu) : bool :=
  match ev with
  | IrqOverflow => tov_pending s
  | _ => true
  end.

Fixpoint run (evs : list event) (s : Mcu) : option Mcu :=
  match evs with
  | [] => Some s
  | ev :: rest => if enabled ev s then run rest (fire ev s) else None
  end.

(** ** The command line parser *)

Definition is_digit (c : ascii) : bool :=
  (48 <=? Z.of_nat (nat_of_ascii c)) && (Z.of_nat (nat_of_ascii c) <=? 57).

Definition digit_value (c : ascii) : Z := Z.of_nat (nat_of_ascii c) - 48.

(** [while (it != last and *it == ' ') ++it;] *)
Fixpoint skip_spaces (it : string) : string :=
  match it with
  | String " " rest => skip_spaces rest
  | _ => it
  end.

(** The middle loop of [myParseInt]: every character read is consumed,
    also the one that ends the number. *)
Fixpoint parse_digits (ret : Z) (it : string) : Z * string :=
  match it with
  | EmptyString => (ret, EmptyString)
  | String c rest =>
      if is_digit c then parse_digits (Word.i32 (ret * 10 + digit_value c)) rest
      else (ret, rest)
  end.

(** [int32_t myParseInt(const char*& it, const char* last)]: the value and
    the position [it] is left at; [last] is the end of the string. *)
Definition myParseInt (it : string) : Z * string :=
  let '(ret, it) := parse_digits 0 (skip_spaces it) in
  (ret, skip_spaces it).

Definition at_last (it : string) : bool :=
  match it with
  | EmptyString => true
  | _ => false
  end.

(** ** The correction table *)

Definition table_get (t : list CorrectionFreq) (index : Z) : CorrectionFreq :=
  nth (Z.to_nat index) t (mkCorrectionFreq zero zero).

Fixpoint list_set {A} (n : nat) (v : A) (l : list A) : list A :=
  match l, n with
  | [], _ => []
  | _ :: rest, O => v :: rest
  | x :: rest, S n' => x :: list_set n' v rest
  end.

(** [gFreqTable[index] = v].  A store below or beyond the array is undefined
    behaviour in C and has no result here. *)
Definition table_set (t : list CorrectionFreq) (index : Z) (v : CorrectionFreq)
  : option (list CorrectionFreq) :=
  if (0 <=? index) && (index <? Z.of_nat (List.length t)) then
    Some (list_set (Z.to_nat index) v t)
  else None.

(** Lines 633 to 692 of [loop()]: a complete line was received. *)
Definition process_command (s : Mcu) : option Mcu :=
  let s := println (Text "Line received") s in
  let r :=
    if String.eqb (gInputString s) "SAVE" then
      Some (saveConf (println (Text "Saving conf") s))
    else
      let '(v, it) := myParseInt (gInputString s) in
      let index := Word.i16 v in
      let ok := negb (at_last it) in
      let s := if negb ok then println (Text "Failed to parse index") s else s in
      let '(v, it) := myParseInt it in
      let inVal := div (of_Z v) (of_Z 1000) in
      let ok := ok && negb (at_last it) in
      let s := if negb ok then println (Text "Failed to parse input") s else s in
      let '(v, it) := myParseInt it in
      let outVal := div (of_Z v) (of_Z 1000) in
      let ok := ok && at_last it in
      let s := if negb ok then println (Text "Failed to parse output") s else s in
      let ok := ok && (index <? 4) in
      if ok then
        (* apply the new value for the correction table *)
        match table_set (gFreqTable s) index (mkCorrectionFreq inVal outVal) with
        | Some t =>
            let s := set_gFreqTable t s in
            let s := print (Text "Updated value : ") s in
            let s := print (Num index) s in
            let s := print (Text " : ") s in
            let s := print (Real inVal) s in
            let s := print (Text " - ") s in
            Some (println (Real outVal) s)
        | None => None
        end
      else Some s in
  match r with
  | Some s => Some (set_gStringComplete false (set_gInputString EmptyString s))
  | None => None
  end.

(** [serialEvent()], with the bytes waiting in the receive buffer. *)
Fixpoint serialEvent (rx : list ascii) (s : Mcu) : Mcu :=
  match rx with
  | [] => s
  | inChar :: rest =>
      let s :=
        if Ascii.eqb inChar "010" then
          let s := set_gStringComplete true s in
          let s := print (Text "Line complete  : ") s in
          println (Text (gInputString s)) s
        else
          set_gInputString (gInputString s ++ String inChar EmptyString)%string s in
      serialEvent rest s
  end.

(** ** The main loop *)

(** Self-test ramp, rising phase: [3 + 300.0 * (now / 1000.0)]. *)
Definition raise_freq (now : Z) : float32 :=
  add (of_Z 3) (mul (of_Z 300) (div (of_Z now) (of_Z 1000))).

(** Falling phase: [3 + 300.0 * ((1000-(now - 1000)) / 1000.0)], the
    subtractions being done in [unsigned long]. *)
Definition lower_freq (now : Z) : float32 :=
  add (of_Z 3)
      (mul (of_Z 300)
           (div (of_Z (Word.u32 (1000 - Word.u32 (now - 1000)))) (of_Z 1000))).

(** [uint32_t period = 1.0 / freq / TICK_VALUE;] *)
Definition period_of_freq (freq : float32) : Z :=
  to_u32 (div (div (of_Z 1) freq) TICK_VALUE).

(** [overFlow >= 2 or period >= 0x10000] *)
Definition stop_condition (overFlow period : Z) : bool :=
  (2 <=? overFlow) || (65536 <=? period).

(** [inFreq = 1.0 / (period * 2 * TICK_VALUE)] for a period other than 0,
    else [0.0]. *)
Definition input_frequency (period : Z) : float32 :=
  if negb (period =? 0) then
    div (of_Z 1) (mul (of_Z (Word.u32 (period * 2))) TICK_VALUE)
  else zero.

(** Lines 527 to 536: the outlier filter; the result is what line 539
    stores in [gLastInputFreq]. *)
Definition filter_frequency (last inFreq : float32) : float32 :=
  let deltaFreq := sub inFreq last in
  if gtb (fabs deltaFreq) MAX_VAR_PER_CYCLE then
    if gtb deltaFreq zero then add last MAX_VAR_PER_CYCLE
    else sub last MAX_VAR_PER_CYCLE
  else inFreq.

(** Lines 544 to 556: select the correction range. *)
Definition select_index (t : list CorrectionFreq) (inFreq : float32) : Z :=
  if ltb inFreq (inputFreq (table_get t 1)) then 1
  else if ltb inFreq (inputFreq (table_get t 2)) then 2
  else 3.

(** Lines 563 to 566: the output frequency on segment [index]. *)
Definition interpolate (t : list CorrectionFreq) (index : Z) (inFreq : float32)
  : float32 :=
  let di := sub (inputFreq (table_get t index)) (inputFreq (table_get t (index - 1))) in
  let doo := sub (outputFreq (table_get t index)) (outputFreq (table_get t (index - 1))) in
  let outFreq := mul (div (sub inFreq (inputFreq (table_get t (index - 1)))) di) doo in
  add outFreq (outputFreq (table_get t (index - 1))).

(** The correction curve: range selection followed by interpolation. *)
Definition correction_curve (t : list CorrectionFreq) (inFreq : float32) : float32 :=
  interpolate t (select_index t inFreq) inFreq.

(** Lines 483 to 507: the stop block, entered with the snapshot. *)
Definition stop_block (now lastCapture tcnt1 overFlow : Z) (s : Mcu) : Mcu :=
  (* input is stalled, stop output *)
  let s := set_gOutputPeriod 0 s in
  let s := set_gInputPeriod 0 s in
  let s := set_gStopped true s in
  let s := set_gCaptureLive false s in
  let period := 0 in
  let s := print (Num now) s in
  let s := print (Text " STOP detected with period of ") s in
  let s := print (Num period) s in
  let s := print (Text ", last capture = ") s in
  let s := print (Num lastCapture) s in
  let s := print (Text ", tcnt1 = ") s in
  let s := print (Num tcnt1) s in
  let s := print (Text ", Overflow = ") s in
  println (Num overFlow) s.

(** Lines 464 to 631: the update done every tenth of a second.  [tcnt1] is
    what [TCNT1] reads in the snapshot, [tcnt1'] what it reads when the
    output is restarted. *)
Definition control_update (now tcnt1 tcnt1' : Z) (s : Mcu) : Mcu :=
  let s := set_gLastUpdate (Word.u16 now) s in
  (* read input *)
  let period := gInputPeriod s in
  let lastCapture := gLastCounter s in
  let overFlow := gOverflowCounter s in
  (* check for stop condition *)
  let stop := stop_condition overFlow period in
  let s := if stop then stop_block now lastCapture tcnt1 overFlow s else s in
  let period := if stop then 0 else period in
  (* compute input freq based on input period *)
  let inFreq := input_frequency period in
  (* filter input freq to reject outlier *)
  let inFreq := filter_frequency (gLastInputFreq s) inFreq in
  (* store last input freq for next loop *)
  let s := set_gLastInputFreq inFreq s in
  (* compute output period *)
  let outputPeriod :=
    if negb (period =? 0) then
      period_of_freq (correction_curve (gFreqTable s) inFreq)
    else 0 in
  (* update output period param *)
  let s := set_gOutputPeriod (Z.shiftr outputPeriod 1) s in
  (* need to program first timer ? *)
  if gStopped s && negb (outputPeriod =? 0) then
    let s := set_OCR1A (Word.u16 (Word.u32 (Word.u16 tcnt1' + Z.shiftr outputPeriod 1))) s in
    set_gStopped false s
  else s.

(** [void loop()], one pass.  [now] is what [millis()] returns. *)
Definition loop (now tcnt1 tcnt1' : Z) (s : Mcu) : option Mcu :=
  match gState s with
  | OPEN_CER_RAISE =>
      let freq := raise_freq now in
      let period := period_of_freq freq in
      let s := set_gOutputPeriod period s in
      let s :=
        if gStopped s then
          set_OCR1A (Word.u16 (Word.u32 (Word.u16 tcnt1 + Z.shiftr (gOutputPeriod s) 1))) s
        else s in
      let s := set_gStopped false s in
      let s := set_gCaptureLive true s in
      let s :=
        if 1000 <? now then
          let s := set_gState OPEN_CER_LOWER s in
          println (Text " End RAISE") (print (Num now) s)
        else s in
      Some s
  | OPEN_CER_LOWER =>
      let freq := lower_freq now in
      let period := period_of_freq freq in
      let s := set_gOutputPeriod period s in
      let s :=
        if 2000 <? now then
          let s := set_gState NORMAL s in
          let s := set_gStopped true s in
          let s := set_gCaptureLive false s in
          println (Text " End LOWER") (print (Num now) s)
        else s in
      Some s
  | NORMAL =>
      let s := set_gLoopPerSec (Word.i32 (gLoopPerSec s + 1)) s in
      (* every 1/10th of seconds *)
      let s :=
        if 100 <? Word.u32 (now - gLastUpdate s) then control_update now tcnt1 tcnt1' s
        else s in
      (* process input command *)
      if gStringComplete s then process_command s else Some s
  end.

(** [#define TIMEOUT_TICK ...], only printed. *)
Definition TIMEOUT_TICK : float32 :=
  Eval vm_compute in
    div (div (div (of_Z 1)
                  (div (mul (of_Z (PULSE_PER_KM * 3)) (div (of_Z 85) (of_Z 100))) (of_Z 3600)))
             TICK_VALUE)
        (of_Z 1).

(** A write to [TIFR1] clears the flags written as one. *)
Definition write_TIFR1 (v : Z) (s : Mcu) : Mcu :=
  set_TIFR1 (Z.land (TIFR1 s) (Z.lnot v)) s.

(** [void setup()], as far as it touches the modelled state. *)
Definition setup (s : Mcu) : Mcu :=
  let s := set_TCCR1B (Z.lor (Z.lor (_BV ICNC1) (_BV ICES1)) (Z.lor (_BV CS10) (_BV CS11))) s in
  (* initialize to catch Falling Edge *)
  let s := set_TCCR1B (Z.land (TCCR1B s) (Z.lnot (_BV ICES1))) s in
  let s := write_TIFR1 (Z.lor (TIFR1 s) (_BV ICF1)) s in
  (* clear pending interrupts *)
  let s := write_TIFR1 (Z.lor (_BV ICF1) (_BV TOV1)) s in
  (* load saved configuration *)
  let s := loadConf s in
  let s := print (Text "Init info : TICK = ") s in
  let s := print (Real (mul (mul TICK_VALUE (of_Z 1000)) (of_Z 1000))) s in
  let s := print (Text "µs, Timeout Tick = ") s in
  let s := print (Real TIMEOUT_TICK) s in
  let s := print (Text ", F50 = ") s in
  let s := print (Real FREQ_50) s in
  let s := print (Text "Hz F100 = ") s in
  let s := print (Real FREQ_100) s in
  let s := print (Text "Hz F150 = ") s in
  let s := print (Real FREQ_150) s in
  let s := print (Text "Hz, TIMEOUT=") s in
  let s := println (Real TIMEOUT_TICK) s in
  println (Text "Setup done") s.

(** The machine when [loop()] is entered for the first time. *)
Definition boot (e : eeprom) : Mcu := setup (reset_state e).

(** * Properties *)

(** ** Calibration persistence *)

Lemma EEPROM_read_write_same ee v e :
  EEPROM_read ee (EEPROM_write ee v e) = Word.u8 v.
Proof.
  unfold EEPROM_read, EEPROM_write. rewrite Z.eqb_refl.
  unfold Word.u8. apply Z.mod_mod. lia.
Qed.

Lemma EEPROM_read_write_other ee a v e :
  a <> ee -> EEPROM_read a (EEPROM_write ee v e) = EEPROM_read a e.
Proof.
  intros H. unfold EEPROM_read, EEPROM_write.
  destruct (Z.eqb_spec a ee); [contradiction | reflexivity].
Qed.

Lemma write_bytes_below bs : forall ee a e,
  a < ee -> write_bytes ee bs e a = e a.
Proof.
  induction bs as [|b rest IH]; intros ee a e Ha; simpl.
  - reflexivity.
  - rewrite IH by lia. unfold EEPROM_write.
    destruct (Z.eqb_spec a ee); [lia | reflexivity].
Qed.

Lemma write_bytes_beyond bs : forall ee a e,
  ee + Z.of_nat (List.length bs) <= a -> write_bytes ee bs e a = e a.
Proof.
  induction bs as [|b rest IH]; intros ee a e Ha; simpl in *.
  - reflexivity.
  - rewrite IH by lia. unfold EEPROM_write.
    destruct (Z.eqb_spec a ee); [lia | reflexivity].
Qed.

Lemma write_bytes_at bs : forall ee e i,
  (i < List.length bs)%nat ->
  write_bytes ee bs e (ee + Z.of_nat i) = Word.u8 (nth i bs 0).
Proof.
  induction bs as [|b rest IH]; intros ee e i Hi; simpl in *.
  - lia.
  - destruct i as [|i].
    + rewrite Z.add_0_r, write_bytes_below by lia.
      unfold EEPROM_write. now rewrite Z.eqb_refl.
    + replace (ee + Z.of_nat (S i)) with (ee + 1 + Z.of_nat i) by lia.
      apply IH. lia.
Qed.

Lemma read_bytes_write_bytes bs : forall ee e,
  read_bytes ee (List.length bs) (write_bytes ee bs e) = map Word.u8 bs.
Proof.
  induction bs as [|b rest IH]; intros ee e; simpl.
  - reflexivity.
  - f_equal.
    + unfold EEPROM_read. rewrite write_bytes_below by lia.
      unfold EEPROM_write. rewrite Z.eqb_refl.
      unfold Word.u8. rewrite !Z.mod_mod; lia.
    + apply IH.
Qed.

Lemma read_bytes_ext n : forall ee e e',
  (forall a, ee <= a < ee + Z.of_nat n -> e a = e' a) ->
  read_bytes ee n e = read_bytes ee n e'.
Proof.
  induction n as [|n IH]; intros ee e e' H; simpl.
  - reflexivity.
  - f_equal.
    + unfold EEPROM_read. rewrite H; [reflexivity | lia].
    + apply IH. intros a Ha. apply H. lia.
Qed.

(** A table as the sketch declares it: four entries of 32-bit floats. *)
Definition wf_float (f : float32) : Prop := 0 <= f < 2 ^ 32.

Definition wf_entry (c : CorrectionFreq) : Prop :=
  wf_float (inputFreq c) /\ wf_float (outputFreq c).

Definition wf_table (t : list CorrectionFreq) : Prop :=
  List.length t = 4%nat /\ Forall wf_entry t.

Lemma bytes_float_float_bytes f :
  wf_float f ->
  bytes_float (Word.u8 f) (Word.u8 (Z.shiftr f 8)) (Word.u8 (Z.shiftr f 16))
              (Word.u8 (Z.shiftr f 24)) = f.
Proof.
  unfold wf_float, bytes_float, Word.u8. intros H.
  rewrite !Z.shiftr_div_pow2, !Z.shiftl_mul_pow2 by lia.
  change (2 ^ 8) with 256. change (2 ^ 16) with 65536.
  change (2 ^ 24) with 16777216. change (2 ^ 32) with 4294967296 in H.
  Z.div_mod_to_equations. lia.
Qed.

Lemma u8_idem z : Word.u8 (Word.u8 z) = Word.u8 z.
Proof. unfold Word.u8. apply Z.mod_mod. lia. Qed.

Lemma map_u8_table_bytes t : map Word.u8 (table_bytes t) = table_bytes t.
Proof.
  induction t as [|c t IH]; simpl.
  - reflexivity.
  - rewrite !u8_idem. now rewrite IH.
Qed.

Lemma length_table_bytes t : List.length (table_bytes t) = (8 * List.length t)%nat.
Proof.
  induction t as [|c t IH]; simpl.
  - reflexivity.
  - rewrite IH. lia.
Qed.

Lemma bytes_table_table_bytes t :
  Forall wf_entry t -> bytes_table (List.length t) (table_bytes t) = t.
Proof.
  induction 1 as [|c t [Hi Ho] Ht IH]; simpl.
  - reflexivity.
  - rewrite IH, !bytes_float_float_bytes by assumption.
    now destruct c.
Qed.

Lemma gFreqTable_println x s : gFreqTable (println x s) = gFreqTable s.
Proof. now destruct s. Qed.

Lemma Serial_println x s : Serial (println x s) = Serial s ++ [x; Newline].
Proof. now destruct s. Qed.

Lemma EEPROM_saveConf s :
  EEPROM (saveConf s) =
  write_bytes 3 (firstn sizeof_gFreqTable (table_bytes (gFreqTable s)))
    (EEPROM_write 2 char_X (EEPROM_write 1 char_N (EEPROM_write 0 char_S (EEPROM s)))).
Proof. now destruct s. Qed.

Lemma firstn_table_bytes t :
  List.length t = 4%nat -> firstn sizeof_gFreqTable (table_bytes t) = table_bytes t.
Proof.
  intros H. apply firstn_all2. rewrite length_table_bytes, H.
  unfold sizeof_gFreqTable. lia.
Qed.

(** C8. When the first three bytes of the EEPROM are not 'S', 'N', 'X',
    [loadConf] leaves [gFreqTable] as it was and prints
    "No configuration found". *)
Theorem loadConf_bad_magic s :
  EEPROM_read 0 (EEPROM s) <> char_S \/
  EEPROM_read 1 (EEPROM s) <> char_N \/
  EEPROM_read 2 (EEPROM s) <> char_X ->
  gFreqTable (loadConf s) = gFreqTable s /\
  Serial (loadConf s) = Serial s ++ [Text "No configuration found"; Newline].
Proof.
  intros H. unfold loadConf. simpl.
  destruct (Z.eqb_spec (EEPROM_read 0 (EEPROM s)) char_S) as [Hs|Hs];
    destruct (Z.eqb_spec (EEPROM_read 1 (EEPROM s)) char_N) as [Hn|Hn];
    destruct (Z.eqb_spec (EEPROM_read 2 (EEPROM s)) char_X) as [Hx|Hx];
    simpl; try (now rewrite gFreqTable_println, Serial_println).
  tauto.
Qed.

(** A blank EEPROM (every cell 0xFF) holds no configuration. *)
Lemma loadConf_bad_magic_witness :
  gFreqTable (loadConf (reset_state (fun _ => 255))) = gFreqTable_init /\
  Serial (loadConf (reset_state (fun _ => 255))) =
    [Text "No configuration found"; Newline].
Proof.
  apply (loadConf_bad_magic (reset_state (fun _ => 255))).
  left. vm_compute. discriminate.
Defined.

(** C7. [saveConf] writes 'S', 'N', 'X' at addresses 0 to 2 and the byte
    image of the four table entries at addresses 3 to 34, and touches no
    other cell; [loadConf] on an EEPROM so written accepts the magic and
    makes [gFreqTable] equal to the saved table, bit for bit. *)
Theorem save_load_roundtrip s :
  wf_table (gFreqTable s) ->
  let e := EEPROM (saveConf s) in
  (e 0 = char_S /\ e 1 = char_N /\ e 2 = char_X) /\
  (forall i, (i < 32)%nat -> e (3 + Z.of_nat i) = nth i (table_bytes (gFreqTable s)) 0) /\
  (forall a, a < 0 \/ 35 <= a -> e a = EEPROM s a) /\
  (forall s2, EEPROM s2 = e ->
     gFreqTable (loadConf s2) = gFreqTable s /\
     Serial (loadConf s2) = Serial s2 ++ [Text "Configuration loaded"; Newline]).
Proof.
  intros [Hlen Hwf] e.
  assert (He : e = write_bytes 3 (table_bytes (gFreqTable s))
                 (EEPROM_write 2 char_X
                    (EEPROM_write 1 char_N (EEPROM_write 0 char_S (EEPROM s))))).
  { unfold e. now rewrite EEPROM_saveConf, firstn_table_bytes. }
  assert (Hbytes : List.length (table_bytes (gFreqTable s)) = 32%nat).
  { rewrite length_table_bytes, Hlen. reflexivity. }
  assert (Hmagic : e 0 = char_S /\ e 1 = char_N /\ e 2 = char_X).
  { rewrite He. rewrite !write_bytes_below by lia. now vm_compute. }
  split; [exact Hmagic|]. split; [|split].
  - intros i Hi. rewrite He, write_bytes_at by lia.
    rewrite <- (map_nth Word.u8 (table_bytes (gFreqTable s)) 0 i).
    rewrite map_u8_table_bytes. reflexivity.
  - intros a Ha. rewrite He. destruct Ha as [Ha|Ha].
    + rewrite write_bytes_below by lia. unfold EEPROM_write.
      destruct (Z.eqb_spec a 2); [lia|]. destruct (Z.eqb_spec a 1); [lia|].
      destruct (Z.eqb_spec a 0); [lia|]. reflexivity.
    + rewrite write_bytes_beyond by lia. unfold EEPROM_write.
      destruct (Z.eqb_spec a 2); [lia|]. destruct (Z.eqb_spec a 1); [lia|].
      destruct (Z.eqb_spec a 0); [lia|]. reflexivity.
  - intros s2 H2. destruct Hmagic as (H0 & H1 & H2').
    assert (Hload : loadConf s2 =
              println (Text "Configuration loaded")
                (set_gFreqTable (bytes_table 4 (read_bytes 3 sizeof_gFreqTable e)) s2)).
    { unfold loadConf. cbv zeta. rewrite H2. unfold EEPROM_read at 1 2 3.
      change (0 + 1) with 1. change (0 + 2) with 2. change (0 + 3) with 3.
      rewrite H0, H1, H2'. reflexivity. }
    rewrite Hload, gFreqTable_println, Serial_println.
    split; [|now destruct s2].
    replace (gFreqTable (set_gFreqTable (bytes_table 4 (read_bytes 3 sizeof_gFreqTable e)) s2))
      with (bytes_table 4 (read_bytes 3 sizeof_gFreqTable e)) by now destruct s2.
    rewrite He. unfold sizeof_gFreqTable. rewrite <- Hbytes at 1.
    rewrite read_bytes_write_bytes, map_u8_table_bytes, <- Hlen.
    now apply bytes_table_table_bytes.
Qed.

(** A calibrated table, as three commands would leave it. *)
Definition sample_table : list CorrectionFreq :=
  [ mkCorrectionFreq zero zero;
    mkCorrectionFreq (of_Z 35) (of_Z 37);
    mkCorrectionFreq (of_Z 72) (of_Z 75);
    mkCorrectionFreq (of_Z 106) (of_Z 110) ].

Lemma sample_table_wf : wf_table sample_table.
Proof.
  split; [reflexivity|].
  repeat constructor; vm_compute; intuition discriminate.
Qed.

(** Saving [sample_table] over a blank EEPROM, then loading it after a
    reset that put the initial table back in memory. *)
Lemma save_load_roundtrip_witness :
  let saved := saveConf (set_gFreqTable sample_table (reset_state (fun _ => 255))) in
  gFreqTable (loadConf (reset_state (EEPROM saved))) = sample_table.
Proof.
  intros saved.
  apply (save_load_roundtrip
           (set_gFreqTable sample_table (reset_state (fun _ => 255)))
           sample_table_wf).
  reflexivity.
Defined.

(** ** Output scheduler *)

Lemma u16_u32 z : Word.u16 (Word.u32 z) = Word.u16 z.
Proof.
  unfold Word.u16, Word.u32.
  apply Z.mod_mod_divide. exists (2 ^ 16). reflexivity.
Qed.

(** The pin of the regenerated signal always shows [gLastOutput]: both are
    only written together. *)
Lemma pin13_follows_gLastOutput ev s :
  pin13 s = gLastOutput s -> pin13 (fire ev s) = gLastOutput (fire ev s).
Proof.
  destruct s; destruct ev; simpl; intros H; try exact H.
  - unfold isr_capture; simpl.
    destruct gCaptureLive0; simpl.
    + destruct (_ && _); simpl; exact H.
    + destruct (_ && _); reflexivity.
  - unfold isr_compare; simpl. destruct gStopped0; simpl; [exact H | reflexivity].
Qed.

(** C9. In the compare-match handler, when not stopped, [gLastOutput] is
    inverted and written to the output pin (which toggles, the pin showing
    [gLastOutput]) and [OCR1A] becomes [OCR1A + gOutputPeriod] in the 16 bits
    of the register: the next match is placed from the compare register, no
    reading of the counter enters the handler.  When stopped, the handler
    changes nothing. *)
Theorem isr_compare_schedule s :
  (gStopped s = false ->
     gLastOutput (isr_compare s) = negb (gLastOutput s) /\
     pin13 (isr_compare s) = negb (gLastOutput s) /\
     (pin13 s = gLastOutput s -> pin13 (isr_compare s) = negb (pin13 s)) /\
     OCR1A (isr_compare s) = Word.u16 (OCR1A s + gOutputPeriod s)) /\
  (gStopped s = true ->
     isr_compare s = s /\
     pin13 (isr_compare s) = pin13 s /\
     OCR1A (isr_compare s) = OCR1A s).
Proof.
  unfold isr_compare. split; intros H; rewrite H; simpl.
  - destruct s; simpl in *. rewrite u16_u32.
    repeat split. intros ->. reflexivity.
  - repeat split.
Qed.

(** A running output with half period 1000 and the last match at 65000: the
    next match wraps to 464. *)
Definition running_state : Mcu :=
  set_OCR1A 65000 (set_gOutputPeriod 1000 (set_gStopped false (reset_state (fun _ => 255)))).

Lemma isr_compare_schedule_witness :
  pin13 (isr_compare running_state) = true /\
  OCR1A (isr_compare running_state) = 464 /\
  isr_compare (reset_state (fun _ => 255)) = reset_state (fun _ => 255).
Proof.
  destruct (isr_compare_schedule running_state) as [Hrun _].
  destruct (isr_compare_schedule (reset_state (fun _ => 255))) as [_ Hstop].
  destruct (Hrun eq_refl) as (_ & _ & Hpin & Hocr).
  destruct (Hstop eq_refl) as (Hsame & _).
  split; [|split].
  - exact (Hpin eq_refl).
  - exact Hocr.
  - exact Hsame.
Defined.

(** ** Capture engine *)

#[local] Arguments Z.mul _ _ : simpl never.
#[local] Arguments Z.add _ _ : simpl never.
#[local] Arguments Z.sub _ _ : simpl never.
#[local] Arguments Z.modulo _ _ : simpl never.
#[local] Arguments Z.pow _ _ : simpl never.

Lemma land_lor_bit x : Z.land (Z.lor x 1) 1 = 1.
Proof.
  rewrite Z.land_lor_distr_l. change (Z.land 1 1) with 1.
  apply Z.bits_inj'. intros n Hn.
  rewrite Z.lor_spec, Z.land_spec.
  destruct (Z.eq_dec n 0) as [->|Hn0].
  - simpl. apply orb_true_r.
  - rewrite (Z.bits_above_log2 1 n) by (simpl; lia).
    now rewrite andb_false_r.
Qed.

Lemma land_lnot_bit x : Z.land (Z.land x (Z.lnot 1)) 1 = 0.
Proof.
  rewrite <- Z.land_assoc. change (Z.land (Z.lnot 1) 1) with 0.
  apply Z.land_0_r.
Qed.

Lemma tov_pending_HwWrap s : tov_pending (fire HwWrap s) = true.
Proof.
  destruct s; unfold tov_pending; simpl.
  change (_BV TOV1) with 1. now rewrite land_lor_bit.
Qed.

Lemma tov_pending_IrqOverflow s : tov_pending (fire IrqOverflow s) = false.
Proof.
  destruct s; unfold tov_pending; simpl.
  change (_BV TOV1) with 1. now rewrite land_lnot_bit.
Qed.

Lemma tov_pending_HwEdge c s : tov_pending (fire (HwEdge c) s) = tov_pending s.
Proof. now destruct s. Qed.

Lemma tov_pending_isr_capture s : tov_pending (isr_capture s) = tov_pending s.
Proof.
  destruct s; unfold tov_pending, isr_capture; simpl.
  destruct gCaptureLive0; simpl; destruct (_ && _); reflexivity.
Qed.

(** What the capture handler stores in [gInputPeriod] when the capture is
    live: the distance of the two counter values plus 2^16 for every
    overflow counted, and for the pending one when the counter was read
    below 0xffff; all of it in 32 bits. *)
Lemma isr_capture_period s :
  gCaptureLive s = true ->
  gInputPeriod (isr_capture s) =
  Word.u32 (Word.u16 (ICR1 s) - gLastCounter s
            + 65536 * (gOverflowCounter s
                       + (if tov_pending s && (Word.u16 (ICR1 s) <? 65535) then 1 else 0))).
Proof.
  intros Hlive. destruct s; unfold tov_pending, isr_capture; simpl in *.
  rewrite Hlive; simpl.
  change (_BV TOV0) with 1. change (_BV TOV1) with 1.
  destruct (negb (Z.land TIFR2 1 =? 0) && (Word.u16 ICR2 <? 65535)); simpl;
    unfold Word.u32, Word.i32, Word.u16;
    change (2 ^ 32) with 4294967296; change (2 ^ 31) with 2147483648;
    change (2 ^ 16) with 65536;
    Z.div_mod_to_equations; lia.
Qed.

Lemma HwEdge_fields c s :
  ICR1 (fire (HwEdge c) s) = Word.u16 c /\
  gCaptureLive (fire (HwEdge c) s) = gCaptureLive s /\
  gLastCounter (fire (HwEdge c) s) = gLastCounter s /\
  gOverflowCounter (fire (HwEdge c) s) = gOverflowCounter s.
Proof. now destruct s. Qed.

Lemma HwWrap_fields s :
  ICR1 (fire HwWrap s) = ICR1 s /\
  gCaptureLive (fire HwWrap s) = gCaptureLive s /\
  gLastCounter (fire HwWrap s) = gLastCounter s /\
  gOverflowCounter (fire HwWrap s) = gOverflowCounter s.
Proof. now destruct s. Qed.

Lemma IrqOverflow_fields s :
  ICR1 (fire IrqOverflow s) = ICR1 s /\
  gCaptureLive (fire IrqOverflow s) = gCaptureLive s /\
  gLastCounter (fire IrqOverflow s) = gLastCounter s /\
  gOverflowCounter (fire IrqOverflow s) = Word.u16 (gOverflowCounter s + 1).
Proof. now destruct s. Qed.

Lemma gOverflowCounter_isr_capture s :
  gOverflowCounter (isr_capture s) =
  if tov_pending s && (Word.u16 (ICR1 s) <? 65535) then 65535 else 0.
Proof.
  destruct s; unfold tov_pending, isr_capture; simpl.
  change (_BV TOV0) with 1. change (_BV TOV1) with 1.
  destruct gCaptureLive0; simpl; destruct (_ && _); reflexivity.
Qed.

Lemma gCaptureLive_isr_capture s : gCaptureLive (isr_capture s) = true.
Proof.
  destruct s; unfold isr_capture; simpl.
  destruct gCaptureLive0; simpl; destruct (_ && _); reflexivity.
Qed.

Lemma gLastCounter_isr_capture s : gLastCounter (isr_capture s) = Word.u16 (ICR1 s).
Proof.
  destruct s; unfold isr_capture; simpl.
  destruct gCaptureLive0; simpl; destruct (_ && _); reflexivity.
Qed.

Lemma isr_capture_period_at s tc t0 ovc pend :
  gCaptureLive s = true ->
  ICR1 s = Word.u16 tc ->
  gLastCounter s = t0 ->
  gOverflowCounter s = ovc ->
  tov_pending s = pend ->
  0 <= tc < 65536 ->
  gInputPeriod (isr_capture s) =
  Word.u32 (tc - t0 + 65536 * (ovc + (if pend && (tc <? 65535) then 1 else 0))).
Proof.
  intros Hlive Hicr Hlast Hovc Hpend Htc.
  rewrite isr_capture_period by exact Hlive.
  rewrite Hicr, Hlast, Hovc, Hpend.
  assert (Hu : Word.u16 (Word.u16 tc) = tc).
  { assert (H : Word.u16 tc = tc)
      by (apply Word.u16_small; change (2 ^ 16) with 65536; lia).
    now rewrite !H. }
  now rewrite Hu.
Qed.

(** The orders of events in which the period stored is exact.  With a
    previous valid capture at counter value [t0] (capture live, no overflow
    counted or pending), the next capture at counter value [t1] stores
    [t1 - t0] when the handler runs before the timer wraps, and
    [t1 + 2^16 - t0] when the timer wrapped once before the edge, whether
    the overflow handler ran before the capture handler or the overflow is
    still pending when the capture handler runs with [t1 < 0xffff].  A
    pending overflow seen together with a capture of 0xffff is taken for a
    wrap that follows the edge, and is not counted. *)
Theorem capture_period s t0 t1 :
  gCaptureLive s = true ->
  gLastCounter s = t0 ->
  gOverflowCounter s = 0 ->
  tov_pending s = false ->
  0 <= t0 < 2 ^ 16 ->
  0 <= t1 < 2 ^ 16 ->
  (t0 <= t1 ->
     exists s', run [HwEdge t1; IrqCapture] s = Some s' /\
                gInputPeriod s' = t1 - t0) /\
  (exists s', run [HwWrap; IrqOverflow; HwEdge t1; IrqCapture] s = Some s' /\
              gInputPeriod s' = (t1 + 2 ^ 16) - t0) /\
  (t1 < 65535 ->
     exists s', run [HwWrap; HwEdge t1; IrqCapture] s = Some s' /\
                gInputPeriod s' = (t1 + 2 ^ 16) - t0) /\
  (t1 = 65535 ->
     exists s', run [HwEdge t1; HwWrap; IrqCapture] s = Some s' /\
                gInputPeriod s' = t1 - t0).
Proof.
  intros Hlive Hlast Hovf Htov Ht0 Ht1.
  change (2 ^ 16) with 65536 in *.
  assert (Hsmall : forall z, 0 <= z < 4294967296 -> Word.u32 z = z).
  { intros z Hz. apply Word.u32_small. exact Hz. }
  split; [|split; [|split]].
  - intros Hle. exists (isr_capture (fire (HwEdge t1) s)). split; [reflexivity|].
    destruct (HwEdge_fields t1 s) as (Hi & Hl & Hc & Ho).
    rewrite (isr_capture_period_at _ t1 t0 0 false);
      [ | congruence | exact Hi | congruence | congruence
        | now rewrite tov_pending_HwEdge | lia ].
    simpl. rewrite Hsmall; lia.
  - exists (isr_capture (fire (HwEdge t1) (fire IrqOverflow (fire HwWrap s)))). split.
    + change (run [HwWrap; IrqOverflow; HwEdge t1; IrqCapture] s)
        with (if tov_pending (fire HwWrap s)
              then Some (isr_capture (fire (HwEdge t1) (fire IrqOverflow (fire HwWrap s))))
              else None).
      now rewrite tov_pending_HwWrap.
    +
      destruct (HwWrap_fields s) as (Hi1 & Hl1 & Hc1 & Ho1).
      destruct (IrqOverflow_fields (fire HwWrap s)) as (Hi2 & Hl2 & Hc2 & Ho2).
      destruct (HwEdge_fields t1 (fire IrqOverflow (fire HwWrap s))) as (Hi & Hl & Hc & Ho).
      rewrite (isr_capture_period_at _ t1 t0 1 false);
        [ | congruence | exact Hi | congruence
          | rewrite Ho, Ho2, Ho1, Hovf; reflexivity
          | now rewrite tov_pending_HwEdge, tov_pending_IrqOverflow | lia ].
      simpl. rewrite Hsmall; lia.
  - intros Hlt. exists (isr_capture (fire (HwEdge t1) (fire HwWrap s))).
    split; [reflexivity|].
    destruct (HwWrap_fields s) as (Hi1 & Hl1 & Hc1 & Ho1).
    destruct (HwEdge_fields t1 (fire HwWrap s)) as (Hi & Hl & Hc & Ho).
    rewrite (isr_capture_period_at _ t1 t0 0 true);
      [ | congruence | exact Hi | congruence | congruence
        | now rewrite tov_pending_HwEdge, tov_pending_HwWrap | lia ].
    replace (t1 <? 65535) with true by (symmetry; apply Z.ltb_lt; lia).
    simpl. rewrite Hsmall; lia.
  - intros Heq. exists (isr_capture (fire HwWrap (fire (HwEdge t1) s))).
    split; [reflexivity|].
    destruct (HwEdge_fields t1 s) as (Hi & Hl & Hc & Ho).
    destruct (HwWrap_fields (fire (HwEdge t1) s)) as (Hi1 & Hl1 & Hc1 & Ho1).
    rewrite (isr_capture_period_at _ t1 t0 0 true);
      [ | congruence | congruence | congruence | congruence
        | now rewrite tov_pending_HwWrap | lia ].
    replace (t1 <? 65535) with false by (symmetry; apply Z.ltb_ge; lia).
    simpl. rewrite Hsmall; lia.
Qed.

(** A live capture at counter value 60000, nothing counted or pending. *)
Definition live_state : Mcu :=
  set_gCaptureLive true (set_gLastCounter 60000 (reset_state (fun _ => 255))).

Lemma capture_period_witness :
  (exists s', run [HwEdge 64000; IrqCapture] live_state = Some s' /\
              gInputPeriod s' = 4000) /\
  (exists s', run [HwWrap; IrqOverflow; HwEdge 300; IrqCapture] live_state = Some s' /\
              gInputPeriod s' = 5836).
Proof.
  split.
  - destruct (capture_period live_state 60000 64000
                eq_refl eq_refl eq_refl eq_refl) as (H & _); [lia | lia |].
    apply H. lia.
  - destruct (capture_period live_state 60000 300
                eq_refl eq_refl eq_refl eq_refl) as (_ & H & _); [lia | lia |].
    exact H.
Defined.

(** ** Frequency filter and stop detector *)

#[local] Arguments F32.add _ _ : simpl never.
#[local] Arguments F32.sub _ _ : simpl never.
#[local] Arguments F32.mul _ _ : simpl never.
#[local] Arguments F32.div _ _ : simpl never.
#[local] Arguments F32.of_Z _ : simpl never.
#[local] Arguments F32.to_u32 _ : simpl never.
#[local] Arguments F32.ltb _ _ : simpl never.
#[local] Arguments F32.fabs _ : simpl never.
#[local] Arguments filter_frequency _ _ : simpl never.
#[local] Arguments input_frequency _ : simpl never.
#[local] Arguments correction_curve _ _ : simpl never.
#[local] Arguments period_of_freq _ : simpl never.
#[local] Arguments Word.u16 _ : simpl never.
#[local] Arguments Word.u32 _ : simpl never.
#[local] Arguments Word.i32 _ : simpl never.

Lemma stop_condition_iff overFlow period :
  stop_condition overFlow period = true <-> 2 <= overFlow \/ 2 ^ 16 <= period.
Proof.
  unfold stop_condition. change (2 ^ 16) with 65536.
  rewrite orb_true_iff, !Z.leb_le. reflexivity.
Qed.

(** C4. The handler tells a capture made after a pending wrap from one
    made before it by the test [tc1 < 0xffff] alone.  When an edge is
    captured at [t1 < 0xffff] and the timer wraps before the handler is
    entered, no wrap lies between the two edges, yet the handler adds 2^16:
    it stores [t1 - t0 + 2^16] in place of [t1 - t0] and leaves 0xffff in
    [gOverflowCounter].  The overflow handler then brings the counter to 0,
    which cancels the one wrap that does lie before the next edge: the
    capture at [t2 < t1] that follows stores [t2 - t1] as an unsigned
    32-bit number in place of [t2 + 2^16 - t1], a period that meets the
    stop condition of [loop()]. *)
Theorem capture_pending_wrap_miscount s t0 t1 t2 :
  gCaptureLive s = true ->
  gLastCounter s = t0 ->
  gOverflowCounter s = 0 ->
  tov_pending s = false ->
  0 <= t0 -> t0 <= t1 -> t1 < 65535 ->
  0 <= t2 -> t2 < t1 ->
  exists s1, run [HwEdge t1; HwWrap; IrqCapture] s = Some s1 /\
    gInputPeriod s1 = t1 - t0 + 2 ^ 16 /\
    gInputPeriod s1 <> t1 - t0 /\
    gOverflowCounter s1 = 65535 /\
    exists s2, run [IrqOverflow; HwEdge t2; IrqCapture] s1 = Some s2 /\
      gInputPeriod s2 = t2 - t1 + 2 ^ 32 /\
      gInputPeriod s2 <> t2 + 2 ^ 16 - t1 /\
      stop_condition (gOverflowCounter s2) (gInputPeriod s2) = true.
Proof.
  intros Hlive Hlast Hovf Htov Ht0 Hle Ht1 Ht2 Hlt.
  change (2 ^ 16) with 65536. change (2 ^ 32) with 4294967296.
  set (s1 := isr_capture (fire HwWrap (fire (HwEdge t1) s))).
  destruct (HwEdge_fields t1 s) as (Hi & Hl & Hc & Ho).
  destruct (HwWrap_fields (fire (HwEdge t1) s)) as (Hi1 & Hl1 & Hc1 & Ho1).
  assert (Hp1 : gInputPeriod s1 = t1 - t0 + 65536).
  { unfold s1.
    rewrite (isr_capture_period_at _ t1 t0 0 true);
      [ | congruence | congruence | congruence | congruence
        | now rewrite tov_pending_HwWrap | lia ].
    replace (t1 <? 65535) with true by (symmetry; apply Z.ltb_lt; lia).
    cbn [andb]. rewrite Word.u32_small; change (2 ^ 32) with 4294967296; lia. }
  assert (Ho1' : gOverflowCounter s1 = 65535).
  { unfold s1. rewrite gOverflowCounter_isr_capture, tov_pending_HwWrap.
    replace (Word.u16 (ICR1 (fire HwWrap (fire (HwEdge t1) s)))) with t1.
    - replace (t1 <? 65535) with true by (symmetry; apply Z.ltb_lt; lia).
      reflexivity.
    - rewrite Hi1, Hi, !Word.u16_small;
        [reflexivity | | ]; try rewrite Word.u16_small;
        change (2 ^ 16) with 65536; lia. }
  assert (Hpend1 : tov_pending s1 = true).
  { unfold s1. now rewrite tov_pending_isr_capture, tov_pending_HwWrap. }
  exists s1. split; [reflexivity|]. split; [exact Hp1|].
  split; [lia|]. split; [exact Ho1'|].
  set (s2 := isr_capture (fire (HwEdge t2) (fire IrqOverflow s1))).
  destruct (IrqOverflow_fields s1) as (Hi2 & Hl2 & Hc2 & Ho2).
  destruct (HwEdge_fields t2 (fire IrqOverflow s1)) as (Hi3 & Hl3 & Hc3 & Ho3).
  assert (Hp2 : gInputPeriod s2 = t2 - t1 + 4294967296).
  { unfold s2.
    rewrite (isr_capture_period_at _ t2 t1 0 false);
      [ | rewrite Hl3, Hl2; unfold s1; apply gCaptureLive_isr_capture
        | exact Hi3
        | rewrite Hc3, Hc2; unfold s1; rewrite gLastCounter_isr_capture, Hi1, Hi;
          rewrite !Word.u16_small; try rewrite Word.u16_small;
          change (2 ^ 16) with 65536; lia
        | rewrite Ho3, Ho2, Ho1'; reflexivity
        | now rewrite tov_pending_HwEdge, tov_pending_IrqOverflow
        | lia ].
    cbn [andb]. unfold Word.u32. change (2 ^ 32) with 4294967296.
    Z.div_mod_to_equations. lia. }
  exists s2. split.
  - change (run [IrqOverflow; HwEdge t2; IrqCapture] s1)
      with (if tov_pending s1 then Some s2 else None).
    now rewrite Hpend1.
  - split; [exact Hp2|]. split; [lia|].
    apply stop_condition_iff. right. rewrite Hp2.
    change (2 ^ 16) with 65536. lia.
Qed.

(** The last capture at 60000; an edge at 65534, two ticks before the wrap,
    serviced after the wrap; the next edge at 100. *)
Lemma capture_pending_wrap_miscount_witness :
  exists s1, run [HwEdge 65534; HwWrap; IrqCapture] live_state = Some s1 /\
    gInputPeriod s1 = 71070 /\
    exists s2, run [IrqOverflow; HwEdge 100; IrqCapture] s1 = Some s2 /\
      gInputPeriod s2 = 4294901862 /\
      stop_condition (gOverflowCounter s2) (gInputPeriod s2) = true.
Proof.
  destruct (capture_pending_wrap_miscount live_state 60000 65534 100
              eq_refl eq_refl eq_refl eq_refl)
    as (s1 & H1 & H2 & _ & _ & s2 & H3 & H4 & _ & H5); try lia.
  exists s1. split; [exact H1|]. split; [exact H2|].
  exists s2. split; [exact H3|]. split; [exact H4 | exact H5].
Defined.

(** The line printed by the stop block. *)
Definition stop_message (now lastCapture tcnt1 overFlow : Z) : list out_item :=
  [ Num now; Text " STOP detected with period of "; Num 0;
    Text ", last capture = "; Num lastCapture;
    Text ", tcnt1 = "; Num tcnt1;
    Text ", Overflow = "; Num overFlow; Newline ].

Lemma control_update_stop now tcnt1 tcnt1' s :
  stop_condition (gOverflowCounter s) (gInputPeriod s) = true ->
  let s' := control_update now tcnt1 tcnt1' s in
  gInputPeriod s' = 0 /\
  gOutputPeriod s' = 0 /\
  gStopped s' = true /\
  gCaptureLive s' = false /\
  gOverflowCounter s' = gOverflowCounter s /\
  OCR1A s' = OCR1A s /\
  Serial s' = Serial s ++ stop_message now (gLastCounter s) tcnt1 (gOverflowCounter s).
Proof.
  intros Hstop. destruct s; unfold control_update; simpl in *.
  rewrite Hstop. simpl. repeat split.
  rewrite <- !app_assoc. reflexivity.
Qed.

Lemma control_update_no_stop now tcnt1 tcnt1' s :
  stop_condition (gOverflowCounter s) (gInputPeriod s) = false ->
  let s' := control_update now tcnt1 tcnt1' s in
  gInputPeriod s' = gInputPeriod s /\
  gCaptureLive s' = gCaptureLive s /\
  gOverflowCounter s' = gOverflowCounter s /\
  Serial s' = Serial s.
Proof.
  intros Hstop. destruct s; unfold control_update; simpl in *.
  rewrite Hstop. simpl.
  destruct (gStopped0 && _); repeat split.
Qed.

Ltac case_ifs :=
  repeat match goal with
  | |- context [if ?c then _ else _] => destruct c; simpl
  end.

Lemma control_update_preserves now tcnt1 tcnt1' s :
  gStringComplete (control_update now tcnt1 tcnt1' s) = gStringComplete s /\
  gState (control_update now tcnt1 tcnt1' s) = gState s /\
  gFreqTable (control_update now tcnt1 tcnt1' s) = gFreqTable s /\
  gInputString (control_update now tcnt1 tcnt1' s) = gInputString s.
Proof.
  destruct s; unfold control_update; simpl.
  case_ifs; repeat split.
Qed.

Lemma loop_control_tick now tcnt1 tcnt1' s :
  gState s = NORMAL ->
  gStringComplete s = false ->
  100 < Word.u32 (now - gLastUpdate s) ->
  loop now tcnt1 tcnt1' s =
  Some (control_update now tcnt1 tcnt1' (set_gLoopPerSec (Word.i32 (gLoopPerSec s + 1)) s)).
Proof.
  intros Hst Hcmd Htick. unfold loop. rewrite Hst.
  replace (gLastUpdate (set_gLoopPerSec (Word.i32 (gLoopPerSec s + 1)) s))
    with (gLastUpdate s) by now destruct s.
  apply Z.ltb_lt in Htick. rewrite Htick.
  destruct (control_update_preserves now tcnt1 tcnt1'
              (set_gLoopPerSec (Word.i32 (gLoopPerSec s + 1)) s)) as (Hc & _).
  rewrite Hc.
  replace (gStringComplete (set_gLoopPerSec (Word.i32 (gLoopPerSec s + 1)) s))
    with (gStringComplete s) by now destruct s.
  now rewrite Hcmd.
Qed.

(** C3, as the code has it.  On a control tick the stop block is entered if
    and only if the snapshot has [overFlow >= 2] or [period >= 2^16]; the
    tick then ends with [gInputPeriod] and [gOutputPeriod] at 0, [gStopped]
    set and [gCaptureLive] cleared, and has printed the STOP line.
    [gOverflowCounter] is not written by the tick: when the tick ends it
    still holds the value of the snapshot.  Without the condition the tick prints
    nothing and leaves [gInputPeriod] and [gCaptureLive] alone. *)
Theorem stop_detector now tcnt1 tcnt1' s :
  let overFlow := gOverflowCounter s in
  let period := gInputPeriod s in
  let s' := control_update now tcnt1 tcnt1' s in
  (stop_condition overFlow period = true <-> 2 <= overFlow \/ 2 ^ 16 <= period) /\
  (stop_condition overFlow period = true ->
     gInputPeriod s' = 0 /\ gOutputPeriod s' = 0 /\
     gStopped s' = true /\ gCaptureLive s' = false /\
     gOverflowCounter s' = overFlow /\
     Serial s' = Serial s ++ stop_message now (gLastCounter s) tcnt1 overFlow) /\
  (stop_condition overFlow period = false ->
     gInputPeriod s' = period /\ gCaptureLive s' = gCaptureLive s /\
     gOverflowCounter s' = overFlow /\ Serial s' = Serial s).
Proof.
  intros overFlow period s'. split; [apply stop_condition_iff|]. split.
  - intros H. destruct (control_update_stop now tcnt1 tcnt1' s H)
      as (H1 & H2 & H3 & H4 & H5 & _ & H7).
    repeat split; assumption.
  - intros H. apply (control_update_no_stop now tcnt1 tcnt1' s H).
Qed.

(** The input went silent for two timer wraps: a period of 5000 ticks was
    measured, then two overflows were counted. *)
Definition stalled_state : Mcu :=
  set_gOverflowCounter 2
    (set_gInputPeriod 5000
       (set_gCaptureLive true (set_gStopped false (reset_state (fun _ => 255))))).

Lemma stop_detector_witness :
  let s' := control_update 200 17 18 stalled_state in
  gInputPeriod s' = 0 /\ gOutputPeriod s' = 0 /\
  gStopped s' = true /\ gCaptureLive s' = false /\
  gOverflowCounter s' = 2.
Proof.
  destruct (stop_detector 200 17 18 stalled_state) as (_ & H & _).
  destruct (H eq_refl) as (H1 & H2 & H3 & H4 & H5 & _).
  cbv zeta. split; [exact H1|]. split; [exact H2|]. split; [exact H3|].
  split; [exact H4 | exact H5].
Defined.

(** The stop block leaves the overflow counter at 2: the tick that follows
    detects the stop again. *)
Lemma stop_keeps_overflow_counter :
  stop_condition (gOverflowCounter stalled_state) (gInputPeriod stalled_state) = true /\
  option_map gOverflowCounter (loop 200 17 18 stalled_state) = Some 2 /\
  gOverflowCounter (control_update 200 17 18 stalled_state) <> 0.
Proof.
  split; [reflexivity|]. split; [vm_compute; reflexivity|].
  vm_compute. discriminate.
Qed.

(** C10. [gOverflowCounter] has 16 bits: when the capture handler finds an
    overflow pending and the counter read below 0xffff it leaves 0xffff
    (65535) in it, the overflow is still pending and its handler brings the
    counter back to 0.  Until then the counter satisfies the stop condition
    of [loop()] whatever the period: a control tick that takes its snapshot
    there declares the input stopped although a capture was just taken. *)
Theorem prebias_meets_stop_condition s :
  tov_pending s = true ->
  Word.u16 (ICR1 s) < 65535 ->
  let s1 := fire IrqCapture s in
  gOverflowCounter s1 = 65535 /\
  gCaptureLive s1 = true /\
  enabled IrqOverflow s1 = true /\
  gOverflowCounter (fire IrqOverflow s1) = 0 /\
  (forall period, stop_condition (gOverflowCounter s1) period = true) /\
  (forall now tcnt1 tcnt1',
     gStopped (control_update now tcnt1 tcnt1' s1) = true /\
     gCaptureLive (control_update now tcnt1 tcnt1' s1) = false).
Proof.
  intros Htov Hicr s1.
  assert (Hc : gOverflowCounter s1 = 65535).
  { unfold s1. simpl fire. rewrite gOverflowCounter_isr_capture, Htov.
    apply Z.ltb_lt in Hicr. now rewrite Hicr. }
  split; [exact Hc|]. split; [apply gCaptureLive_isr_capture|].
  split; [|split; [|split]].
  - unfold s1. simpl. now rewrite tov_pending_isr_capture.
  - destruct (IrqOverflow_fields s1) as (_ & _ & _ & H). rewrite H, Hc. reflexivity.
  - intros period. rewrite Hc. reflexivity.
  - intros now tcnt1 tcnt1'.
    assert (Hs : stop_condition (gOverflowCounter s1) (gInputPeriod s1) = true)
      by (rewrite Hc; reflexivity).
    destruct (control_update_stop now tcnt1 tcnt1' s1 Hs) as (_ & _ & H3 & H4 & _).
    split; assumption.
Qed.

(** A capture at counter value 12 with the overflow flag raised. *)
Definition pending_state : Mcu :=
  fire (HwEdge 12) (fire HwWrap live_state).

Lemma prebias_meets_stop_condition_witness :
  gOverflowCounter (fire IrqCapture pending_state) = 65535 /\
  gOverflowCounter (fire IrqOverflow (fire IrqCapture pending_state)) = 0 /\
  gCaptureLive (control_update 200 0 0 (fire IrqCapture pending_state)) = false.
Proof.
  destruct (prebias_meets_stop_condition pending_state eq_refl) as (H1 & _ & _ & H4 & _ & H6).
  - vm_compute. reflexivity.
  - split; [exact H1|]. split; [exact H4|]. apply (H6 200 0 0).
Defined.

(** ** Self-test ramp *)

Lemma gState_fire ev s : gState (fire ev s) = gState s.
Proof.
  destruct s; destruct ev; simpl; try reflexivity.
  - unfold isr_capture; simpl. case_ifs; reflexivity.
  - unfold isr_compare; simpl. case_ifs; reflexivity.
Qed.

Lemma gState_process_command s s' :
  process_command s = Some s' -> gState s' = gState s.
Proof.
  destruct s; unfold process_command; simpl.
  destruct (String.eqb _ _); simpl.
  - intros [= <-]. reflexivity.
  - destruct (myParseInt gInputString0) as [v1 it1]; simpl.
    destruct (myParseInt it1) as [v2 it2]; simpl.
    destruct (myParseInt it2) as [v3 it3]; simpl.
    destruct (negb (at_last it1)), (negb (at_last it2)), (at_last it3),
             (Word.i16 v1 <? 4); simpl;
      try (intros [= <-]; reflexivity);
      destruct (table_set _ _ _); simpl; intros [= <-]; reflexivity.
Qed.

Lemma gState_print x s : gState (print x s) = gState s.
Proof. now destruct s. Qed.

Lemma gState_println x s : gState (println x s) = gState s.
Proof. now destruct s. Qed.

Lemma gState_loadConf s : gState (loadConf s) = gState s.
Proof.
  unfold loadConf. cbv zeta.
  destruct (_ || _); rewrite gState_println; now destruct s.
Qed.

Lemma gState_boot e : gState (boot e) = NORMAL.
Proof.
  unfold boot, setup. cbv zeta.
  rewrite !gState_println, !gState_print, gState_loadConf.
  reflexivity.
Qed.

Lemma loop_normal_terminal now tcnt1 tcnt1' s s' :
  gState s = NORMAL -> loop now tcnt1 tcnt1' s = Some s' -> gState s' = NORMAL.
Proof.
  intros Hst. unfold loop. rewrite Hst.
  set (s1 := set_gLoopPerSec _ s).
  assert (H1 : gState s1 = NORMAL) by (unfold s1; now destruct s).
  destruct (100 <? _).
  - destruct (control_update_preserves now tcnt1 tcnt1' s1) as (_ & H2 & _).
    destruct (gStringComplete _).
    + intros H. apply gState_process_command in H. congruence.
    + intros [= <-]. congruence.
  - destruct (gStringComplete _).
    + intros H. apply gState_process_command in H. congruence.
    + intros [= <-]. congruence.
Qed.

Lemma loop_normal_total now tcnt1 tcnt1' s :
  gState s = NORMAL -> gStringComplete s = false ->
  exists s', loop now tcnt1 tcnt1' s = Some s'.
Proof.
  intros Hst Hcmd. unfold loop. rewrite Hst.
  set (s1 := set_gLoopPerSec _ s).
  assert (H1 : gStringComplete s1 = false) by (unfold s1; now destruct s).
  destruct (100 <? _).
  - destruct (control_update_preserves now tcnt1 tcnt1' s1) as (H2 & _).
    rewrite H2, H1. eexists. reflexivity.
  - rewrite H1. eexists. reflexivity.
Qed.

Lemma loop_raise now tcnt1 tcnt1' s :
  gState s = OPEN_CER_RAISE ->
  exists s', loop now tcnt1 tcnt1' s = Some s' /\
    gOutputPeriod s' = period_of_freq (raise_freq now) /\
    gStopped s' = false /\
    gState s' = (if 1000 <? now then OPEN_CER_LOWER else OPEN_CER_RAISE).
Proof.
  intros Hst. unfold loop. rewrite Hst. eexists. split; [reflexivity|].
  destruct s; simpl in *. case_ifs; repeat split; assumption.
Qed.

Lemma loop_lower now tcnt1 tcnt1' s :
  gState s = OPEN_CER_LOWER ->
  exists s', loop now tcnt1 tcnt1' s = Some s' /\
    gOutputPeriod s' = period_of_freq (lower_freq now) /\
    gState s' = (if 2000 <? now then NORMAL else OPEN_CER_LOWER).
Proof.
  intros Hst. unfold loop. rewrite Hst. eexists. split; [reflexivity|].
  destruct s; simpl in *. case_ifs; repeat split; assumption.
Qed.


(** The rising phase starts with a half period of 83333 ticks of 4 us. *)
Example raise_period_at_0 : period_of_freq (raise_freq 0) = 83333.
Proof. vm_compute. reflexivity. Qed.

(** ** Command protocol *)

Definition digit_char (d : nat) : ascii := ascii_of_nat (48 + d).

(** The decimal numeral with the digits [ds], most significant first. *)
Fixpoint numeral (ds : list nat) : string :=
  match ds with
  | [] => EmptyString
  | d :: rest => String (digit_char d) (numeral rest)
  end.

Fixpoint spaces (k : nat) : string :=
  match k with
  | O => EmptyString
  | S k' => String " " (spaces k')
  end.

(** The number a numeral denotes, continuing from [acc]. *)
Fixpoint value_from (acc : Z) (ds : list nat) : Z :=
  match ds with
  | [] => acc
  | d :: rest => value_from (acc * 10 + Z.of_nat d) rest
  end.

Definition value (ds : list nat) : Z := value_from 0 ds.

Definition digits (ds : list nat) : Prop := Forall (fun d => (d < 10)%nat) ds.

#[local] Arguments digit_char _ : simpl never.

Lemma digit_char_spec d :
  (d < 10)%nat ->
  is_digit (digit_char d) = true /\
  digit_value (digit_char d) = Z.of_nat d /\
  digit_char d <> " "%char.
Proof.
  intros H. do 10 (destruct d as [|d]; [repeat split; discriminate|]). lia.
Qed.

Lemma value_from_ge acc ds : 0 <= acc -> acc <= value_from acc ds.
Proof.
  revert acc. induction ds as [|d rest IH]; intros acc Hacc; simpl.
  - lia.
  - specialize (IH (acc * 10 + Z.of_nat d)). lia.
Qed.

(** What is left once the character that ended a number is consumed. *)
Definition after_number (tail : string) : string :=
  match tail with
  | EmptyString => EmptyString
  | String _ rest => rest
  end.

Definition ends_number (tail : string) : Prop :=
  match tail with
  | EmptyString => True
  | String c _ => is_digit c = false
  end.

Lemma parse_digits_numeral ds : forall acc tail,
  digits ds -> 0 <= acc -> value_from acc ds < 2 ^ 31 -> ends_number tail ->
  parse_digits acc (numeral ds ++ tail)%string = (value_from acc ds, after_number tail).
Proof.
  induction ds as [|d rest IH]; intros acc tail Hds Hacc Hv Htail;
    cbn [numeral append parse_digits value_from] in *.
  - destruct tail as [|c r]; cbn [parse_digits after_number ends_number] in *;
      [reflexivity|]. now rewrite Htail.
  - inversion Hds as [|? ? Hd Hrest]; subst.
    destruct (digit_char_spec d Hd) as (Hdig & Hval & _).
    rewrite Hdig, Hval.
    assert (Hstep : 0 <= acc * 10 + Z.of_nat d) by lia.
    pose proof (value_from_ge (acc * 10 + Z.of_nat d) rest Hstep) as Hge.
    rewrite Word.i32_small by lia.
    apply IH; assumption.
Qed.

Lemma skip_spaces_spaces k it : skip_spaces (spaces k ++ it)%string = skip_spaces it.
Proof. induction k as [|k IH]; simpl; [reflexivity | exact IH]. Qed.

Lemma skip_spaces_other c it :
  c <> " "%char -> skip_spaces (String c it) = String c it.
Proof.
  intros Hc. destruct c as [[] [] [] [] [] [] [] []]; try reflexivity.
  now elim Hc.
Qed.

Lemma skip_spaces_numeral d ds it :
  (d < 10)%nat ->
  skip_spaces (numeral (d :: ds) ++ it)%string = (numeral (d :: ds) ++ it)%string.
Proof.
  intros Hd. destruct (digit_char_spec d Hd) as (_ & _ & Hsp).
  cbn [numeral append]. now apply skip_spaces_other.
Qed.

Lemma ends_number_spaces k it : ends_number (spaces (S k) ++ it)%string.
Proof. reflexivity. Qed.

(** [myParseInt] on a numeral followed by at least one space. *)
Lemma myParseInt_field d ds k it :
  digits (d :: ds) -> value (d :: ds) < 2 ^ 31 ->
  myParseInt (numeral (d :: ds) ++ spaces (S k) ++ it)%string
  = (value (d :: ds), skip_spaces it).
Proof.
  intros Hds Hv. unfold myParseInt.
  inversion Hds as [|? ? Hd _]; subst.
  rewrite skip_spaces_numeral by exact Hd.
  rewrite parse_digits_numeral;
    [ | exact Hds | lia | exact Hv | apply ends_number_spaces ].
  simpl after_number. now rewrite skip_spaces_spaces.
Qed.

(** [myParseInt] on a numeral that ends the line. *)
Lemma myParseInt_last d ds :
  digits (d :: ds) -> value (d :: ds) < 2 ^ 31 ->
  myParseInt (numeral (d :: ds)) = (value (d :: ds), EmptyString).
Proof.
  intros Hds Hv. unfold myParseInt.
  inversion Hds as [|? ? Hd _]; subst.
  pose proof (skip_spaces_numeral d ds EmptyString Hd) as Hsk.
  pose proof (parse_digits_numeral (d :: ds) 0 EmptyString Hds) as Hp.
  assert (Hnil : forall s, (s ++ EmptyString)%string = s).
  { induction s as [|c s IH]; simpl; [reflexivity | now rewrite IH]. }
  rewrite Hnil in Hsk, Hp. rewrite Hsk, Hp; [reflexivity | lia | exact Hv | exact I].
Qed.

(** A command line: three numerals, separated by one or more spaces. *)
Definition command_line (di da db : list nat) (k1 k2 : nat) : string :=
  (numeral di ++ spaces (S k1) ++ numeral da ++ spaces (S k2) ++ numeral db)%string.

(** The three calls of [myParseInt] and the flag [ok] of lines 655 to 674,
    as [process_command] computes them. *)
Definition command_fields (line : string) : Z * Z * Z * bool :=
  let '(v1, it1) := myParseInt line in
  let '(v2, it2) := myParseInt it1 in
  let '(v3, it3) := myParseInt it2 in
  (Word.i16 v1, v2, v3,
   negb (at_last it1) && negb (at_last it2) && at_last it3 && (Word.i16 v1 <? 4)).

Definition point (inMilliHz outMilliHz : Z) : CorrectionFreq :=
  mkCorrectionFreq (div (of_Z inMilliHz) (of_Z 1000)) (div (of_Z outMilliHz) (of_Z 1000)).

(** Whether "Updated value : " was printed. *)
Fixpoint printed (x : out_item) (l : list out_item) : bool :=
  match l with
  | [] => false
  | y :: rest =>
      match x, y with
      | Text a, Text b => String.eqb a b || printed x rest
      | _, _ => printed x rest
      end
  end.

Lemma process_command_fields s index v2 v3 ok :
  String.eqb (gInputString s) "SAVE" = false ->
  command_fields (gInputString s) = (index, v2, v3, ok) ->
  if ok then
    match table_set (gFreqTable s) index (point v2 v3) with
    | Some t =>
        exists s', process_command s = Some s' /\ gFreqTable s' = t /\
          Serial s' = Serial s ++
            [ Text "Line received"; Newline; Text "Updated value : "; Num index;
              Text " : "; Real (inputFreq (point v2 v3)); Text " - ";
              Real (outputFreq (point v2 v3)); Newline ]
    | None => process_command s = None
    end
  else
    exists s', process_command s = Some s' /\ gFreqTable s' = gFreqTable s /\
      printed (Text "Updated value : ") (Serial s') =
      printed (Text "Updated value : ") (Serial s).
Proof.
  intros Hsave. unfold command_fields, process_command.
  replace (gInputString (println (Text "Line received") s)) with (gInputString s)
    by now destruct s.
  rewrite Hsave.
  destruct (myParseInt (gInputString s)) as [v1 it1].
  destruct (myParseInt it1) as [w2 it2].
  destruct (myParseInt it2) as [w3 it3].
  intros [= <- <- <- <-].
  assert (Hpr : forall l x, printed (Text "Updated value : ") (l ++ [Text x; Newline]) =
                            printed (Text "Updated value : ") l
                            || String.eqb "Updated value : " x).
  { induction l as [|y l IH]; intros x; simpl.
    - now rewrite orb_false_r.
    - destruct y; simpl; rewrite ?IH; try reflexivity.
      now rewrite orb_assoc. }
  destruct (negb (at_last it1)) eqn:E1, (negb (at_last it2)) eqn:E2,
           (at_last it3) eqn:E3, (Word.i16 v1 <? 4) eqn:E4; cbn [andb negb];
    try (eexists; split; [reflexivity|]; destruct s; simpl;
         split; [reflexivity|]; rewrite ?Hpr; simpl; now rewrite ?orb_false_r).
  replace (gFreqTable (println (Text "Line received") s)) with (gFreqTable s)
    by now destruct s.
  destruct (table_set (gFreqTable s) (Word.i16 v1) (point w2 w3)) as [t|] eqn:Et;
    unfold point in Et; rewrite Et; [|reflexivity].
  eexists; split; [reflexivity|]. destruct s; simpl. split; [reflexivity|].
  rewrite <- !app_assoc. reflexivity.
Qed.

Lemma nth_list_set {A} (l : list A) : forall n m v d,
  (n < List.length l)%nat ->
  nth m (list_set n v l) d = if Nat.eqb m n then v else nth m l d.
Proof.
  induction l as [|x l IH]; intros n m v d Hn; simpl in *.
  - lia.
  - destruct n as [|n]; destruct m as [|m]; simpl; try reflexivity.
    apply IH. lia.
Qed.

Lemma table_get_set t index v t' j :
  table_set t index v = Some t' ->
  0 <= j ->
  table_get t' j = if j =? index then v else table_get t j.
Proof.
  unfold table_set, table_get. intros H Hj.
  destruct (0 <=? index) eqn:H0; [|discriminate].
  destruct (index <? Z.of_nat (List.length t)) eqn:H1; [|discriminate].
  cbn [andb] in H. injection H as <-. apply Z.leb_le in H0. apply Z.ltb_lt in H1.
  rewrite nth_list_set by lia.
  destruct (Z.eqb_spec j index) as [->|Hne].
  - now rewrite Nat.eqb_refl.
  - destruct (Nat.eqb_spec (Z.to_nat j) (Z.to_nat index)); [lia | reflexivity].
Qed.

Lemma numeral_not_SAVE d ds it :
  (d < 10)%nat -> String.eqb (numeral (d :: ds) ++ it)%string "SAVE" = false.
Proof.
  intros H. cbn [numeral append].
  do 10 (destruct d as [|d]; [reflexivity|]). lia.
Qed.

Lemma command_fields_line d1 ds1 d2 ds2 d3 ds3 k1 k2 :
  digits (d1 :: ds1) -> digits (d2 :: ds2) -> digits (d3 :: ds3) ->
  value (d1 :: ds1) < 4 ->
  value (d2 :: ds2) < 2 ^ 31 -> value (d3 :: ds3) < 2 ^ 31 ->
  command_fields (command_line (d1 :: ds1) (d2 :: ds2) (d3 :: ds3) k1 k2) =
  (value (d1 :: ds1), value (d2 :: ds2), value (d3 :: ds3), true).
Proof.
  intros H1 H2 H3 V1 V2 V3. unfold command_fields, command_line.
  inversion H2 as [|? ? Hd2 _]; subst. inversion H3 as [|? ? Hd3 _]; subst.
  rewrite myParseInt_field by (trivial; lia).
  rewrite skip_spaces_numeral by exact Hd2.
  rewrite myParseInt_field by trivial.
  pose proof (skip_spaces_numeral d3 ds3 EmptyString Hd3) as Hsk.
  assert (Hnil : forall s, (s ++ EmptyString)%string = s).
  { induction s as [|c s IH]; simpl; [reflexivity | now rewrite IH]. }
  rewrite Hnil in Hsk. rewrite Hsk.
  rewrite myParseInt_last by trivial.
  assert (V0 : 0 <= value (d1 :: ds1)) by (apply value_from_ge; lia).
  rewrite Word.i16_small by lia.
  replace (value (d1 :: ds1) <? 4) with true by (symmetry; apply Z.ltb_lt; lia).
  reflexivity.
Qed.

(** A line of three numerals with the index in the table's range is
    accepted. *)
Lemma process_command_accepts s d1 ds1 d2 ds2 d3 ds3 k1 k2 :
  let index := value (d1 :: ds1) in
  let p := point (value (d2 :: ds2)) (value (d3 :: ds3)) in
  gInputString s = command_line (d1 :: ds1) (d2 :: ds2) (d3 :: ds3) k1 k2 ->
  digits (d1 :: ds1) -> digits (d2 :: ds2) -> digits (d3 :: ds3) ->
  1 <= index <= 3 ->
  value (d2 :: ds2) < 2 ^ 31 -> value (d3 :: ds3) < 2 ^ 31 ->
  List.length (gFreqTable s) = 4%nat ->
  exists s', process_command s = Some s' /\
    table_get (gFreqTable s') index = p /\
    (forall j, 0 <= j -> j <> index ->
       table_get (gFreqTable s') j = table_get (gFreqTable s) j) /\
    List.length (gFreqTable s') = 4%nat.
Proof.
  intros index p Hline H1 H2 H3 Hi V2 V3 Hlen.
  assert (Hsave : String.eqb (gInputString s) "SAVE" = false).
  { rewrite Hline. unfold command_line. inversion H1; subst.
    now apply numeral_not_SAVE. }
  assert (Hf : command_fields (gInputString s) =
               (index, value (d2 :: ds2), value (d3 :: ds3), true)).
  { rewrite Hline. apply command_fields_line; trivial. unfold index in Hi. lia. }
  pose proof (process_command_fields s _ _ _ _ Hsave Hf) as Hpc.
  cbv iota in Hpc. fold p in Hpc.
  destruct (table_set (gFreqTable s) index p) as [t|] eqn:Et.
  - destruct Hpc as (s' & Hs' & Ht & _). exists s'. split; [exact Hs'|].
    rewrite Ht. split; [|split].
    + rewrite (table_get_set _ _ _ _ index Et) by lia. now rewrite Z.eqb_refl.
    + intros j Hj Hne. rewrite (table_get_set _ _ _ _ j Et) by lia.
      destruct (Z.eqb_spec j index); [contradiction | reflexivity].
    + unfold table_set in Et. destruct (_ && _); [|discriminate].
      injection Et as <-. clear - Hlen.
      assert (Hl : forall A (l : list A) n v, List.length (list_set n v l) = List.length l).
      { induction l as [|x l IH]; intros [|n] v; simpl; auto. }
      now rewrite Hl.
  - exfalso. unfold table_set in Et. rewrite Hlen in Et.
    destruct (Z.leb_spec 0 index); [|lia].
    destruct (Z.ltb_spec index (Z.of_nat 4)); [discriminate|].
    change (Z.of_nat 4) with 4 in *. unfold index in *. lia.
Qed.

(** The diagnostics of lines 659 to 672 for a line. *)
Definition command_diagnostics (line : string) : list out_item :=
  let '(_, it1) := myParseInt line in
  let '(_, it2) := myParseInt it1 in
  let '(_, it3) := myParseInt it2 in
  (if at_last it1 then [Text "Failed to parse index"; Newline] else []) ++
  (if at_last it1 || at_last it2 then [Text "Failed to parse input"; Newline] else []) ++
  (if at_last it1 || at_last it2 || negb (at_last it3)
   then [Text "Failed to parse output"; Newline] else []).

(** A line that fails one of the tests on [ok] changes nothing but the
    serial output. *)
Lemma process_command_rejects s :
  String.eqb (gInputString s) "SAVE" = false ->
  snd (command_fields (gInputString s)) = false ->
  exists s', process_command s = Some s' /\
    gFreqTable s' = gFreqTable s /\
    EEPROM s' = EEPROM s /\
    Serial s' = Serial s ++ [Text "Line received"; Newline]
                         ++ command_diagnostics (gInputString s).
Proof.
  intros Hsave. unfold command_fields, command_diagnostics, process_command.
  replace (gInputString (println (Text "Line received") s)) with (gInputString s)
    by now destruct s.
  rewrite Hsave.
  destruct (myParseInt (gInputString s)) as [v1 it1].
  destruct (myParseInt it1) as [v2 it2].
  destruct (myParseInt it2) as [v3 it3].
  cbn [snd].
  destruct (at_last it1), (at_last it2), (at_last it3), (Word.i16 v1 <? 4);
    cbn [andb orb negb]; intros Hok; try discriminate Hok;
    (eexists; split; [reflexivity|]); destruct s; simpl;
    repeat split; rewrite <- ?app_assoc; reflexivity.
Qed.

Lemma append_empty (s : string) : (s ++ EmptyString)%string = s.
Proof. induction s as [|c s IH]; simpl; [reflexivity | now rewrite IH]. Qed.

Lemma myParseInt_trailing d ds k :
  digits (d :: ds) -> value (d :: ds) < 2 ^ 31 ->
  myParseInt (numeral (d :: ds) ++ spaces k)%string = (value (d :: ds), EmptyString).
Proof.
  intros Hds Hv. destruct k as [|k].
  - simpl spaces. rewrite append_empty. now apply myParseInt_last.
  - rewrite <- (append_empty (spaces (S k))).
    now rewrite myParseInt_field.
Qed.

(** A line with the index alone. *)
Lemma one_field_rejected d ds k :
  digits (d :: ds) -> value (d :: ds) < 2 ^ 31 ->
  let line := (numeral (d :: ds) ++ spaces k)%string in
  snd (command_fields line) = false /\
  command_diagnostics line =
    [ Text "Failed to parse index"; Newline; Text "Failed to parse input"; Newline;
      Text "Failed to parse output"; Newline ].
Proof.
  intros Hds Hv line. unfold command_fields, command_diagnostics, line.
  rewrite myParseInt_trailing by trivial.
  split; reflexivity.
Qed.

(** A line with the index and one frequency. *)
Lemma two_fields_rejected d1 ds1 d2 ds2 k1 k2 :
  digits (d1 :: ds1) -> value (d1 :: ds1) < 2 ^ 31 ->
  digits (d2 :: ds2) -> value (d2 :: ds2) < 2 ^ 31 ->
  let line :=
    (numeral (d1 :: ds1) ++ spaces (S k1) ++ numeral (d2 :: ds2) ++ spaces k2)%string in
  snd (command_fields line) = false /\
  command_diagnostics line =
    [ Text "Failed to parse input"; Newline; Text "Failed to parse output"; Newline ].
Proof.
  intros H1 V1 H2 V2 line. unfold command_fields, command_diagnostics, line.
  inversion H2 as [|? ? Hd2 _]; subst.
  rewrite myParseInt_field by trivial.
  rewrite skip_spaces_numeral by exact Hd2.
  rewrite myParseInt_trailing by trivial.
  split; reflexivity.
Qed.

Lemma index_out_of_range_rejected line :
  4 <= Word.i16 (fst (myParseInt line)) -> snd (command_fields line) = false.
Proof.
  unfold command_fields. destruct (myParseInt line) as [v1 it1].
  destruct (myParseInt it1) as [v2 it2]. destruct (myParseInt it2) as [v3 it3].
  cbn [fst snd]. intros H. apply Z.ltb_ge in H. rewrite H.
  now rewrite andb_false_r.
Qed.

Lemma command_fields_numerals d1 ds1 d2 ds2 d3 ds3 k1 k2 :
  digits (d1 :: ds1) -> digits (d2 :: ds2) -> digits (d3 :: ds3) ->
  value (d1 :: ds1) < 2 ^ 31 ->
  value (d2 :: ds2) < 2 ^ 31 -> value (d3 :: ds3) < 2 ^ 31 ->
  command_fields (command_line (d1 :: ds1) (d2 :: ds2) (d3 :: ds3) k1 k2) =
  (Word.i16 (value (d1 :: ds1)), value (d2 :: ds2), value (d3 :: ds3),
   Word.i16 (value (d1 :: ds1)) <? 4).
Proof.
  intros H1 H2 H3 V1 V2 V3. unfold command_fields, command_line.
  inversion H2 as [|? ? Hd2 _]; subst. inversion H3 as [|? ? Hd3 _]; subst.
  rewrite myParseInt_field by trivial.
  rewrite skip_spaces_numeral by exact Hd2.
  rewrite myParseInt_field by trivial.
  pose proof (skip_spaces_numeral d3 ds3 EmptyString Hd3) as Hsk.
  rewrite !append_empty in Hsk. rewrite Hsk.
  rewrite myParseInt_last by trivial.
  reflexivity.
Qed.

Lemma command_line_not_SAVE d1 ds1 da db k1 k2 :
  digits (d1 :: ds1) ->
  String.eqb (command_line (d1 :: ds1) da db k1 k2) "SAVE" = false.
Proof.
  intros H. inversion H; subst. unfold command_line. now apply numeral_not_SAVE.
Qed.

Lemma command_diagnostics_numerals d1 ds1 d2 ds2 d3 ds3 k1 k2 :
  digits (d1 :: ds1) -> digits (d2 :: ds2) -> digits (d3 :: ds3) ->
  value (d1 :: ds1) < 2 ^ 31 ->
  value (d2 :: ds2) < 2 ^ 31 -> value (d3 :: ds3) < 2 ^ 31 ->
  command_diagnostics (command_line (d1 :: ds1) (d2 :: ds2) (d3 :: ds3) k1 k2) = [].
Proof.
  intros H1 H2 H3 V1 V2 V3. unfold command_diagnostics, command_line.
  inversion H2 as [|? ? Hd2 _]; subst. inversion H3 as [|? ? Hd3 _]; subst.
  rewrite myParseInt_field by trivial.
  rewrite skip_spaces_numeral by exact Hd2.
  rewrite myParseInt_field by trivial.
  pose proof (skip_spaces_numeral d3 ds3 EmptyString Hd3) as Hsk.
  rewrite !append_empty in Hsk. rewrite Hsk.
  rewrite myParseInt_last by trivial.
  reflexivity.
Qed.

(** The machine with a complete line waiting. *)
Definition command_state (line : string) : Mcu :=
  set_gStringComplete true (set_gInputString line (reset_state (fun _ => 255))).

(** C2, as the code has it.  A line of three decimal numerals separated by
    one or more spaces, with the index in [1,3], sets [gFreqTable[index]] to
    the two values divided by 1000 and changes no other entry.  A line whose
    index reads as 4 or more changes no entry; when it is made of three
    numerals it is rejected silently: "Line received" is all that is
    printed.  A line with one or two numerals only is rejected with
    the "Failed to parse" diagnostics, and a rejected line changes no entry
    of the table.  "2 72000 75000" sets entry 2 to (72.0, 75.0); "5 1 1" and
    "1 abc 2000" are rejected. *)
Theorem command_protocol :
  (forall s d1 ds1 d2 ds2 d3 ds3 k1 k2,
     let index := value (d1 :: ds1) in
     gInputString s = command_line (d1 :: ds1) (d2 :: ds2) (d3 :: ds3) k1 k2 ->
     digits (d1 :: ds1) -> digits (d2 :: ds2) -> digits (d3 :: ds3) ->
     1 <= index <= 3 ->
     value (d2 :: ds2) < 2 ^ 31 -> value (d3 :: ds3) < 2 ^ 31 ->
     List.length (gFreqTable s) = 4%nat ->
     exists s', process_command s = Some s' /\
       table_get (gFreqTable s') index = point (value (d2 :: ds2)) (value (d3 :: ds3)) /\
       (forall j, 0 <= j -> j <> index ->
          table_get (gFreqTable s') j = table_get (gFreqTable s) j) /\
       List.length (gFreqTable s') = 4%nat) /\
  (forall s,
     String.eqb (gInputString s) "SAVE" = false ->
     4 <= Word.i16 (fst (myParseInt (gInputString s))) ->
     exists s', process_command s = Some s' /\ gFreqTable s' = gFreqTable s) /\
  (forall s d1 ds1 d2 ds2 d3 ds3 k1 k2,
     gInputString s = command_line (d1 :: ds1) (d2 :: ds2) (d3 :: ds3) k1 k2 ->
     digits (d1 :: ds1) -> digits (d2 :: ds2) -> digits (d3 :: ds3) ->
     value (d1 :: ds1) < 2 ^ 31 ->
     value (d2 :: ds2) < 2 ^ 31 -> value (d3 :: ds3) < 2 ^ 31 ->
     4 <= Word.i16 (value (d1 :: ds1)) ->
     exists s', process_command s = Some s' /\ gFreqTable s' = gFreqTable s /\
       Serial s' = Serial s ++ [ Text "Line received"; Newline ]) /\
  (forall s d ds k,
     gInputString s = (numeral (d :: ds) ++ spaces k)%string ->
     digits (d :: ds) -> value (d :: ds) < 2 ^ 31 ->
     exists s', process_command s = Some s' /\ gFreqTable s' = gFreqTable s /\
       Serial s' = Serial s ++
         [ Text "Line received"; Newline;
           Text "Failed to parse index"; Newline; Text "Failed to parse input"; Newline;
           Text "Failed to parse output"; Newline ]) /\
  (forall s d1 ds1 d2 ds2 k1 k2,
     gInputString s =
       (numeral (d1 :: ds1) ++ spaces (S k1) ++ numeral (d2 :: ds2) ++ spaces k2)%string ->
     digits (d1 :: ds1) -> value (d1 :: ds1) < 2 ^ 31 ->
     digits (d2 :: ds2) -> value (d2 :: ds2) < 2 ^ 31 ->
     exists s', process_command s = Some s' /\ gFreqTable s' = gFreqTable s /\
       Serial s' = Serial s ++
         [ Text "Line received"; Newline;
           Text "Failed to parse input"; Newline;
           Text "Failed to parse output"; Newline ]) /\
  (forall s,
     String.eqb (gInputString s) "SAVE" = false ->
     snd (command_fields (gInputString s)) = false ->
     exists s', process_command s = Some s' /\ gFreqTable s' = gFreqTable s) /\
  option_map (fun s => table_get (gFreqTable s) 2)
    (process_command (command_state "2 72000 75000"))
    = Some (mkCorrectionFreq (of_Z 72) (of_Z 75)) /\
  option_map gFreqTable (process_command (command_state "5 1 1"))
    = Some gFreqTable_init /\
  option_map gFreqTable (process_command (command_state "1 abc 2000"))
    = Some gFreqTable_init /\
  option_map Serial (process_command (command_state "1 abc 2000"))
    = Some [ Text "Line received"; Newline; Text "Failed to parse output"; Newline ].
Proof.
  split; [exact process_command_accepts|].
  split.
  { intros s Hsave Hidx.
    destruct (process_command_rejects s Hsave (index_out_of_range_rejected _ Hidx))
      as (s' & H1 & H2 & _).
    exists s'. split; assumption. }
  split.
  { intros s d1 ds1 d2 ds2 d3 ds3 k1 k2 Hline H1 H2 H3 V1 V2 V3 Hidx.
    assert (Hsave : String.eqb (gInputString s) "SAVE" = false)
      by (rewrite Hline; now apply command_line_not_SAVE).
    assert (Hok : snd (command_fields (gInputString s)) = false).
    { rewrite Hline, command_fields_numerals by trivial. cbn [snd].
      apply Z.ltb_ge. lia. }
    destruct (process_command_rejects s Hsave Hok) as (s' & P1 & P2 & _ & P4).
    exists s'. split; [exact P1|]. split; [exact P2|].
    rewrite P4, Hline, command_diagnostics_numerals by trivial.
    now rewrite app_nil_r. }
  split.
  { intros s d ds k Hline Hds Hv.
    assert (Hsave : String.eqb (gInputString s) "SAVE" = false).
    { rewrite Hline. inversion Hds; subst. now apply numeral_not_SAVE. }
    destruct (one_field_rejected d ds k Hds Hv) as (Hok & Hdiag).
    rewrite <- Hline in Hok, Hdiag.
    destruct (process_command_rejects s Hsave Hok) as (s' & H1 & H2 & _ & H4).
    exists s'. rewrite H4, Hdiag. repeat split; assumption. }
  split.
  { intros s d1 ds1 d2 ds2 k1 k2 Hline Hd1 Hv1 Hd2 Hv2.
    assert (Hsave : String.eqb (gInputString s) "SAVE" = false).
    { rewrite Hline. inversion Hd1; subst. now apply numeral_not_SAVE. }
    destruct (two_fields_rejected d1 ds1 d2 ds2 k1 k2 Hd1 Hv1 Hd2 Hv2) as (Hok & Hdiag).
    rewrite <- Hline in Hok, Hdiag.
    destruct (process_command_rejects s Hsave Hok) as (s' & H1 & H2 & _ & H4).
    exists s'. rewrite H4, Hdiag. repeat split; assumption. }
  split.
  { intros s Hsave Hok.
    destruct (process_command_rejects s Hsave Hok) as (s' & H1 & H2 & _).
    exists s'. split; assumption. }
  repeat split; vm_compute; reflexivity.
Qed.

Lemma command_protocol_witness :
  exists s', process_command (command_state "2 72000 75000") = Some s' /\
    table_get (gFreqTable s') 2 = point 72000 75000 /\
    table_get (gFreqTable s') 0 = mkCorrectionFreq zero zero.
Proof.
  destruct command_protocol as (H & _).
  destruct (H (command_state "2 72000 75000")
              2%nat [] 7%nat [2; 0; 0; 0]%nat 7%nat [5; 0; 0; 0]%nat 0%nat 0%nat)
    as (s' & H1 & H2 & H3 & _).
  - reflexivity.
  - repeat constructor.
  - repeat constructor.
  - repeat constructor.
  - vm_compute. split; discriminate.
  - vm_compute. reflexivity.
  - vm_compute. reflexivity.
  - reflexivity.
  - exists s'. split; [exact H1|]. split; [exact H2|].
    apply (H3 0); [lia | discriminate].
Defined.

(** The parser does not ask for digits: a field without any reads as 0, and
    the character that ends a number is swallowed.  "1 a 2000" is accepted
    and overwrites entry 1 with (0.0, 2.0).  And "5 1 1" is dropped without
    any diagnostic. *)
Lemma lenient_parse_accepts :
  option_map (fun s => table_get (gFreqTable s) 1)
    (process_command (command_state "1 a 2000"))
    = Some (mkCorrectionFreq zero (of_Z 2)) /\
  table_get gFreqTable_init 1 <> mkCorrectionFreq zero (of_Z 2) /\
  option_map Serial (process_command (command_state "5 1 1"))
    = Some [ Text "Line received"; Newline ].
Proof.
  split; [vm_compute; reflexivity|].
  split; [vm_compute; discriminate | vm_compute; reflexivity].
Qed.

(** ** Facts on single-precision arithmetic *)

Lemma word_fields (s : bool) (E f : Z) :
  0 <= E < 256 -> 0 <= f < 2 ^ 23 ->
  let w := sign_word s + E * 2 ^ 23 + f in
  sign_bit w = s /\ biased_exp w = E /\ fraction w = f.
Proof.
  intros HE Hf w. unfold sign_bit, biased_exp, fraction.
  change (2 ^ 23 - 1) with (Z.ones 23). change 255 with (Z.ones 8).
  rewrite !Z.land_ones, Z.shiftr_div_pow2 by lia.
  unfold w, sign_word.
  change (2 ^ 23) with 8388608 in *. change (2 ^ 8) with 256.
  change (2 ^ 31) with 2147483648.
  split; [|split].
  - destruct s.
    + apply Z.testbit_true; [lia|].
      change (2 ^ 31) with 2147483648. Z.div_mod_to_equations. lia.
    + apply Z.testbit_false; [lia|].
      change (2 ^ 31) with 2147483648. Z.div_mod_to_equations. lia.
  - destruct s; Z.div_mod_to_equations; lia.
  - destruct s; Z.div_mod_to_equations; lia.
Qed.

Lemma field_ranges b :
  0 <= biased_exp b < 256 /\ 0 <= fraction b < 2 ^ 23.
Proof.
  unfold biased_exp, fraction.
  change (2 ^ 23 - 1) with (Z.ones 23). change 255 with (Z.ones 8).
  rewrite !Z.land_ones by lia. change (2 ^ 8) with 256.
  split; apply Z.mod_pos_bound; lia.
Qed.

(** Encoding what was decoded gives back the same float. *)
Lemma decode_encode_decode b : decode (encode (decode b)) = decode b.
Proof.
  destruct (field_ranges b) as (HE & Hf).
  remember (decode b) as x eqn:Hx. unfold decode in Hx.
  destruct (Z.eqb_spec (biased_exp b) 0) as [E0|E0].
  - destruct (fraction b) as [|p|p] eqn:Ef.
    + subst x. destruct (sign_bit b); reflexivity.
    + subst x. unfold encode. replace (Z.pos p <? 2 ^ 23) with true
        by (symmetry; apply Z.ltb_lt; lia).
      destruct (word_fields (sign_bit b) 0 (Z.pos p)) as (H1 & H2 & H3); [lia | lia |].
      replace (sign_word (sign_bit b) + 0 * 2 ^ 23 + Z.pos p)
        with (sign_word (sign_bit b) + Z.pos p) in * by lia.
      unfold decode. now rewrite H1, H2, H3.
    + lia.
  - destruct (Z.eqb_spec (biased_exp b) 255) as [E1|E1].
    + subst x. destruct (fraction b =? 0); [destruct (sign_bit b)|]; reflexivity.
    + subst x. unfold encode.
      assert (Hp : Z.pos (Z.to_pos (fraction b + 2 ^ 23)) = fraction b + 2 ^ 23)
        by (apply Z2Pos.id; lia).
      rewrite Hp.
      replace (fraction b + 2 ^ 23 <? 2 ^ 23) with false
        by (symmetry; apply Z.ltb_ge; lia).
      destruct (word_fields (sign_bit b) (biased_exp b) (fraction b))
        as (H1 & H2 & H3); [lia | lia |].
      replace (sign_word (sign_bit b) + (biased_exp b - 150 + 150) * 2 ^ 23
               + (fraction b + 2 ^ 23 - 2 ^ 23))
        with (sign_word (sign_bit b) + biased_exp b * 2 ^ 23 + fraction b) by lia.
      unfold decode. rewrite H1, H2, H3.
      destruct (Z.eqb_spec (biased_exp b) 0); [contradiction|].
      destruct (Z.eqb_spec (biased_exp b) 255); [contradiction|].
      reflexivity.
Qed.

Lemma SFsub_diag x :
  match x with S754_zero _ | S754_finite _ _ _ => True | _ => False end ->
  SFsub prec emax x x = S754_zero false.
Proof.
  destruct x as [s|s| |s m e]; intros H; try contradiction.
  - now destruct s.
  - unfold SFsub. rewrite Z.sub_diag. reflexivity.
Qed.

Lemma SFcompare_antisym x y c :
  SFcompare x y = Some c -> SFcompare y x = Some (CompOpp c).
Proof.
  destruct x as [sx|sx| |sx mx ex], y as [sy|sy| |sy my ey]; simpl;
    try discriminate; intros [= <-];
    try (destruct sx; reflexivity); try (destruct sy; reflexivity);
    try (destruct sx, sy; reflexivity).
  destruct sx, sy; try reflexivity;
    rewrite (Z.compare_antisym ex ey);
    destruct (ex ?= ey); simpl; try reflexivity;
    rewrite (Pos.compare_cont_antisym mx my Eq); simpl;
    try rewrite CompOpp_involutive; reflexivity.
Qed.

Lemma SFeqb_refl x :
  match x with S754_nan => False | _ => True end -> SFeqb x x = true.
Proof.
  unfold SFeqb. destruct x as [s|s| |s m e]; simpl; intros H; try contradiction.
  - reflexivity.
  - now destruct s.
  - destruct s; rewrite Z.compare_refl, Pos.compare_cont_refl; reflexivity.
Qed.

Lemma ltb_irrefl a : ltb a a = false.
Proof.
  unfold ltb, SFltb. destruct (SFcompare (decode a) (decode a)) as [c|] eqn:E;
    [|reflexivity].
  pose proof (SFcompare_antisym _ _ _ E) as E'. rewrite E in E'.
  destruct c; try reflexivity; discriminate.
Qed.

Lemma ltb_asym a b : ltb a b = true -> ltb b a = false.
Proof.
  unfold ltb, SFltb. destruct (SFcompare (decode a) (decode b)) as [c|] eqn:E;
    [|discriminate].
  destruct c; try discriminate. intros _.
  now rewrite (SFcompare_antisym _ _ _ E).
Qed.

(** Without a NaN, "not below" is "at or above". *)
Lemma ltb_false_leb a b :
  is_nan a = false -> is_nan b = false -> ltb a b = false -> leb b a = true.
Proof.
  unfold is_nan, ltb, leb, SFltb, SFleb. intros Ha Hb.
  destruct (SFcompare (decode a) (decode b)) as [c|] eqn:E.
  - rewrite (SFcompare_antisym _ _ _ E). destruct c; simpl; congruence.
  - destruct (decode a), (decode b); simpl in E; try discriminate;
      try (destruct s; discriminate); try (destruct s0; discriminate).
Qed.

Lemma ltb_leb a b : ltb a b = true -> leb a b = true.
Proof.
  unfold ltb, leb, SFltb, SFleb.
  destruct (SFcompare (decode a) (decode b)) as [[]|]; congruence.
Qed.

(** ** Frequency filter *)

(** The value of a finite float, in units of 2^-149 (the smallest positive
    float); 0 for an infinity or a NaN. *)
Definition scaled (a : float32) : Z :=
  match decode a with
  | S754_finite s m e => (if s then -1 else 1) * Z.pos m * 2 ^ (e + 149)
  | _ => 0
  end.

(** k times 2.5 *)
Definition grid (k : Z) : float32 := div (of_Z (5 * k)) (of_Z 2).

Fixpoint all_below (n : nat) (p : Z -> bool) : bool :=
  match n with
  | O => true
  | S n' => p (Z.of_nat n') && all_below n' p
  end.

Lemma all_below_spec n p :
  all_below n p = true -> forall k, 0 <= k < Z.of_nat n -> p k = true.
Proof.
  induction n as [|n IH]; simpl; intros H k Hk.
  - lia.
  - apply andb_true_iff in H. destruct H as [H0 H1].
    destruct (Z.eq_dec k (Z.of_nat n)) as [->|Hne]; [exact H0|].
    apply IH; [exact H1 | lia].
Qed.

(** On the multiples of 2.5 up to 2500 Hz, adding or subtracting the
    maximum step is exact. *)
Lemma grid_step k :
  0 <= k < 1000 ->
  add (grid k) MAX_VAR_PER_CYCLE = grid (k + 1) /\
  sub (grid (k + 1)) MAX_VAR_PER_CYCLE = grid k /\
  scaled (grid (k + 1)) - scaled (grid k) = scaled MAX_VAR_PER_CYCLE.
Proof.
  intros Hk.
  assert (H : all_below (Z.to_nat 1000)
                (fun k => (add (grid k) MAX_VAR_PER_CYCLE =? grid (k + 1))
                          && (sub (grid (k + 1)) MAX_VAR_PER_CYCLE =? grid k)
                          && (scaled (grid (k + 1)) - scaled (grid k)
                              =? scaled MAX_VAR_PER_CYCLE)) = true)
    by (vm_compute; reflexivity).
  pose proof (all_below_spec _ _ H k) as Hp. cbv beta in Hp.
  rewrite !andb_true_iff, !Z.eqb_eq in Hp.
  destruct Hp as [[H1 H2] H3]; [lia|]. repeat split; assumption.
Qed.

Lemma gLastInputFreq_control_update now tcnt1 tcnt1' s :
  gLastInputFreq (control_update now tcnt1 tcnt1' s) =
  filter_frequency (gLastInputFreq s)
    (input_frequency (if stop_condition (gOverflowCounter s) (gInputPeriod s)
                      then 0 else gInputPeriod s)).
Proof.
  destruct s; unfold control_update; simpl.
  destruct (stop_condition _ _); simpl; case_ifs; reflexivity.
Qed.

(** C5, as the code has it.  With [deltaFreq] the single-precision
    difference of the raw frequency and [gLastInputFreq]: when
    [fabs(deltaFreq)] is not above 2.5 the raw frequency is stored
    unchanged; when it is, the value stored is the single-precision sum
    [gLastInputFreq + 2.5] (change upward) or difference
    [gLastInputFreq - 2.5] (change downward).  That step is exactly 2.5 on
    the multiples of 2.5 up to 2500 Hz, where a climb from standstill
    moves. *)
Theorem filter_step last inFreq :
  let deltaFreq := sub inFreq last in
  let stored := filter_frequency last inFreq in
  (gtb (fabs deltaFreq) MAX_VAR_PER_CYCLE = false -> stored = inFreq) /\
  (gtb (fabs deltaFreq) MAX_VAR_PER_CYCLE = true -> gtb deltaFreq zero = true ->
     stored = add last MAX_VAR_PER_CYCLE) /\
  (gtb (fabs deltaFreq) MAX_VAR_PER_CYCLE = true -> gtb deltaFreq zero = false ->
     stored = sub last MAX_VAR_PER_CYCLE) /\
  (forall k, 0 <= k < 1000 -> last = grid k ->
     gtb (fabs deltaFreq) MAX_VAR_PER_CYCLE = true -> gtb deltaFreq zero = true ->
     stored = grid (k + 1) /\ scaled stored - scaled last = scaled MAX_VAR_PER_CYCLE) /\
  (forall k, 0 <= k < 1000 -> last = grid (k + 1) ->
     gtb (fabs deltaFreq) MAX_VAR_PER_CYCLE = true -> gtb deltaFreq zero = false ->
     stored = grid k /\ scaled last - scaled stored = scaled MAX_VAR_PER_CYCLE) /\
  (forall now tcnt1 tcnt1' s,
     gLastInputFreq (control_update now tcnt1 tcnt1' s) =
     filter_frequency (gLastInputFreq s)
       (input_frequency (if stop_condition (gOverflowCounter s) (gInputPeriod s)
                         then 0 else gInputPeriod s))).
Proof.
  intros deltaFreq stored. unfold stored, filter_frequency. fold deltaFreq.
  split; [intros ->; reflexivity|].
  split; [intros -> ->; reflexivity|].
  split; [intros -> ->; reflexivity|].
  split; [|split].
  - intros k Hk -> -> ->. destruct (grid_step k Hk) as (H1 & _ & H3).
    rewrite H1. split; [reflexivity | exact H3].
  - intros k Hk -> -> ->. destruct (grid_step k Hk) as (_ & H2 & H3).
    rewrite H2. split; [reflexivity | exact H3].
  - exact gLastInputFreq_control_update.
Qed.

(** From standstill, a raw frequency of 1250 Hz: the filter stores 2.5. *)
Lemma filter_step_witness :
  filter_frequency zero (input_frequency 100) = MAX_VAR_PER_CYCLE /\
  scaled (filter_frequency zero (input_frequency 100)) - scaled zero
    = scaled MAX_VAR_PER_CYCLE.
Proof.
  destruct (filter_step zero (input_frequency 100)) as (_ & _ & _ & H & _).
  destruct (H 0) as (H1 & H2); try reflexivity; [lia|].
  split; [exact H1 | exact H2].
Defined.

(** A run from reset: two edges 65529 ticks apart (1.9 Hz), a control tick,
    then an edge only 100 ticks after the last one (a glitch that reads as
    1250 Hz) and the next control tick.  The result is [gLastInputFreq]
    after the first and after the second tick. *)
Definition glitch_run : option (float32 * float32) :=
  match run [HwEdge 0; IrqCapture; HwEdge 65529; IrqCapture] (boot (fun _ => 255)) with
  | Some s0 =>
      match loop 200 0 0 s0 with
      | Some s1 =>
          match run [HwWrap; IrqOverflow; HwEdge 93; IrqCapture] s1 with
          | Some s2 =>
              match loop 400 0 0 s2 with
              | Some s3 => Some (gLastInputFreq s1, gLastInputFreq s3)
              | None => None
              end
          | None => None
          end
      | None => None
      end
  | None => None
  end.

(** The filter lets [gLastInputFreq] move by more than 2.5.  In the run
    above it goes from 16001710 * 2^-23 (1.9075...) to 9243308 * 2^-21
    (4.4075...): the sum with 2.5 falls halfway between two floats and is
    rounded up, a step of 2.5 + 2^-22.  From 2^25, where floats are 4 apart,
    the step is 4. *)
Lemma filter_step_exceeds_maximum :
  glitch_run = Some (1072966318, 1082985132) /\
  decode 1072966318 = S754_finite false 16001710 (-23) /\
  decode 1082985132 = S754_finite false 9243308 (-21) /\
  scaled 1082985132 - scaled 1072966318 > scaled MAX_VAR_PER_CYCLE /\
  filter_frequency (of_Z (2 ^ 25)) (of_Z (2 ^ 26)) = of_Z (2 ^ 25 + 4) /\
  scaled (of_Z (2 ^ 25 + 4)) - scaled (of_Z (2 ^ 25)) = scaled (of_Z 4) /\
  scaled (of_Z 4) > scaled MAX_VAR_PER_CYCLE.
Proof.
  repeat split; vm_compute; reflexivity.
Qed.

(** ** Correction curve *)

Definition is_nonzero (a : float32) : bool :=
  match decode a with
  | S754_zero _ | S754_nan => false
  | _ => true
  end.

Lemma decode_encode_zero s : decode (encode (S754_zero s)) = S754_zero s.
Proof. destruct s; reflexivity. Qed.

Lemma decode_encode_infinity s : decode (encode (S754_infinity s)) = S754_infinity s.
Proof. destruct s; reflexivity. Qed.

Lemma sub_diag a : is_finite a = true -> sub a a = encode (S754_zero false).
Proof.
  unfold is_finite, sub. intros H. rewrite SFsub_diag; [reflexivity|].
  destruct (decode a); try discriminate; exact I.
Qed.

Lemma div_zero_l s d :
  is_nonzero d = true ->
  exists s', div (encode (S754_zero s)) d = encode (S754_zero s').
Proof.
  unfold is_nonzero, div. rewrite decode_encode_zero.
  destruct (decode d) as [sd|sd| |sd md ed]; try discriminate; intros _;
    eexists; reflexivity.
Qed.

Lemma mul_zero_l s d :
  is_finite d = true ->
  exists s', mul (encode (S754_zero s)) d = encode (S754_zero s').
Proof.
  unfold is_finite, mul. rewrite decode_encode_zero.
  destruct (decode d) as [sd|sd| |sd md ed]; try discriminate; intros _;
    eexists; reflexivity.
Qed.

Lemma add_zero_l s b :
  is_nan b = false -> eqb (add (encode (S754_zero s)) b) b = true.
Proof.
  unfold is_nan, add, eqb. rewrite decode_encode_zero.
  destruct (decode b) as [sb|sb| |sb mb eb] eqn:Hb; try discriminate; intros _.
  - assert (H : exists s', SFadd prec emax (S754_zero s) (S754_zero sb) = S754_zero s')
      by (destruct s, sb; eexists; reflexivity).
    destruct H as (s' & ->). now rewrite decode_encode_zero.
  - change (SFadd prec emax (S754_zero s) (S754_infinity sb)) with (S754_infinity sb).
    rewrite decode_encode_infinity. now destruct sb.
  - change (SFadd prec emax (S754_zero s) (S754_finite sb mb eb))
      with (S754_finite sb mb eb).
    rewrite <- Hb, decode_encode_decode, Hb. now apply SFeqb_refl.
Qed.

(** At the left end of a segment whose width [di] is a number other than
    zero and whose rise [doo] is finite, the interpolation returns the
    output of that end. *)
Lemma interpolate_left t index :
  let a := inputFreq (table_get t (index - 1)) in
  let b := outputFreq (table_get t (index - 1)) in
  let di := sub (inputFreq (table_get t index)) a in
  let doo := sub (outputFreq (table_get t index)) b in
  is_finite a = true -> is_nan b = false ->
  is_nonzero di = true -> is_finite doo = true ->
  eqb (interpolate t index a) b = true.
Proof.
  intros a b di doo Ha Hb Hdi Hdoo. unfold interpolate.
  fold a. fold b. fold di. fold doo.
  rewrite (sub_diag a Ha).
  destruct (div_zero_l false di Hdi) as (s1 & ->).
  destruct (mul_zero_l s1 doo Hdoo) as (s2 & ->).
  now apply add_zero_l.
Qed.

Definition tin (t : list CorrectionFreq) (j : Z) : float32 := inputFreq (table_get t j).
Definition tout (t : list CorrectionFreq) (j : Z) : float32 := outputFreq (table_get t j).

(** Input frequencies strictly increasing over the four points. *)
Definition increasing (t : list CorrectionFreq) : Prop :=
  ltb (tin t 0) (tin t 1) = true /\
  ltb (tin t 1) (tin t 2) = true /\
  ltb (tin t 2) (tin t 3) = true.

(** No entry is an infinity or a NaN. *)
Definition finite_entries (t : list CorrectionFreq) : Prop :=
  forall j, 0 <= j <= 3 -> is_finite (tin t j) = true /\ is_finite (tout t j) = true.

Lemma is_finite_not_nan a : is_finite a = true -> is_nan a = false.
Proof. unfold is_finite, is_nan. destruct (decode a); congruence. Qed.

Lemma select_index_range t x :
  select_index t x = 1 \/ select_index t x = 2 \/ select_index t x = 3.
Proof.
  unfold select_index.
  destruct (ltb x _); [now left|].
  destruct (ltb x _); [right; now left | right; now right].
Qed.

Lemma select_index_bracket t x :
  is_nan x = false ->
  (forall j, 0 <= j <= 3 -> is_nan (tin t j) = false) ->
  leb (tin t 0) x = true ->
  let i := select_index t x in
  leb (tin t (i - 1)) x = true /\ (ltb x (tin t i) = true \/ i = 3).
Proof.
  intros Hx Ht H0 i. unfold i, select_index. fold (tin t 1). fold (tin t 2).
  destruct (ltb x (tin t 1)) eqn:E1.
  - split; [exact H0 | now left].
  - destruct (ltb x (tin t 2)) eqn:E2.
    + split; [|now left].
      apply ltb_false_leb; trivial. apply Ht. lia.
    + split; [|now right].
      apply ltb_false_leb; trivial. apply Ht. lia.
Qed.

Lemma select_index_at_point t i :
  increasing t -> 0 <= i <= 2 -> select_index t (tin t i) = i + 1.
Proof.
  intros (H01 & H12 & H23) Hi. unfold select_index.
  fold (tin t 1). fold (tin t 2).
  assert (Hc : i = 0 \/ i = 1 \/ i = 2) by lia.
  destruct Hc as [-> | [-> | ->]].
  - now rewrite H01.
  - now rewrite ltb_irrefl, H12.
  - now rewrite (ltb_asym _ _ H12), ltb_irrefl.
Qed.

(** C6, as the code has it.  The range selected is always 1, 2 or 3; for an
    input at or above point 0 it is the one with
    [table[i-1].inputFreq <= inFreq < table[i].inputFreq], or 3 when the
    input is at or beyond point 2 (range 3 also serves beyond the last
    point).  The output is
    [(inFreq - in[i-1]) / (in[i] - in[i-1]) * (out[i] - out[i-1]) + out[i-1]],
    each operation in single precision.  For a table of finite entries with
    strictly increasing input frequencies, the curve at [table[i].inputFreq]
    equals [table[i].outputFreq] for i = 0, 1, 2, the segment to the right
    having a width (as computed) other than zero and a finite rise. *)
Theorem correction_curve_joins t :
  (forall x, select_index t x = 1 \/ select_index t x = 2 \/ select_index t x = 3) /\
  (forall x,
     is_nan x = false ->
     (forall j, 0 <= j <= 3 -> is_nan (tin t j) = false) ->
     leb (tin t 0) x = true ->
     let i := select_index t x in
     leb (tin t (i - 1)) x = true /\ (ltb x (tin t i) = true \/ i = 3)) /\
  (forall x,
     let i := select_index t x in
     correction_curve t x =
     add (mul (div (sub x (tin t (i - 1))) (sub (tin t i) (tin t (i - 1))))
              (sub (tout t i) (tout t (i - 1))))
         (tout t (i - 1))) /\
  (finite_entries t -> increasing t ->
   forall i, 0 <= i <= 2 ->
     is_nonzero (sub (tin t (i + 1)) (tin t i)) = true ->
     is_finite (sub (tout t (i + 1)) (tout t i)) = true ->
     select_index t (tin t i) = i + 1 /\
     eqb (correction_curve t (tin t i)) (tout t i) = true).
Proof.
  split; [exact (select_index_range t)|].
  split; [exact (select_index_bracket t)|].
  split; [reflexivity|].
  intros Hfin Hinc i Hi Hdi Hdoo.
  pose proof (select_index_at_point t i Hinc Hi) as Hsel.
  split; [exact Hsel|].
  unfold correction_curve. rewrite Hsel.
  destruct (Hfin i) as (Ha & Hb); [lia|].
  pose proof (interpolate_left t (i + 1)) as H. cbv zeta in H.
  replace (i + 1 - 1) with i in H by lia.
  apply H; trivial. now apply is_finite_not_nan.
Qed.

Lemma sample_table_increasing : increasing sample_table.
Proof. repeat split. Qed.

Lemma sample_table_finite : finite_entries sample_table.
Proof.
  intros j Hj.
  assert (Hc : j = 0 \/ j = 1 \/ j = 2 \/ j = 3) by lia.
  destruct Hc as [-> | [-> | [-> | ->]]]; split; reflexivity.
Qed.

(** On [sample_table], at point 1 (35 Hz in, 37 Hz out). *)
Lemma correction_curve_joins_witness :
  select_index sample_table (of_Z 35) = 2 /\
  eqb (correction_curve sample_table (of_Z 35)) (of_Z 37) = true.
Proof.
  destruct (correction_curve_joins sample_table) as (_ & _ & _ & H).
  apply (H sample_table_finite sample_table_increasing 1); try reflexivity. lia.
Defined.

(** A table set by three commands, points at 10, 20.2 and 100.1 Hz mapped
    to themselves. *)
Definition send (line : string) (s : option Mcu) : option Mcu :=
  match s with
  | Some s => process_command (set_gStringComplete true (set_gInputString line s))
  | None => None
  end.

Definition wide_table : list CorrectionFreq :=
  [ mkCorrectionFreq zero zero; point 10000 10000; point 20200 20200;
    point 100100 100100 ].

(** At the last point the curve does not return the table's output: on
    [wide_table] the curve at 100.1 Hz gives (100.1 - 20.2) + 20.2 in single
    precision, the float just below 100.1. *)
Lemma curve_misses_last_point :
  option_map gFreqTable
    (send "3 100100 100100" (send "2 20200 20200" (send "1 10000 10000"
       (Some (boot (fun _ => 255)))))) = Some wide_table /\
  ltb (tin wide_table 0) (tin wide_table 1) = true /\
  ltb (tin wide_table 1) (tin wide_table 2) = true /\
  ltb (tin wide_table 2) (tin wide_table 3) = true /\
  select_index wide_table (tin wide_table 3) = 3 /\
  eqb (correction_curve wide_table (tin wide_table 3)) (tout wide_table 3) = false /\
  ltb (correction_curve wide_table (tin wide_table 3)) (tout wide_table 3) = true.
Proof.
  repeat split; vm_compute; reflexivity.
Qed.

(** * Further properties *)

(** ** Rounding keeps a difference of distinct floats away from zero *)

Lemma digits2_pos_bounds p :
  2 ^ (Z.pos (digits2_pos p) - 1) <= Z.pos p < 2 ^ Z.pos (digits2_pos p).
Proof.
  induction p as [p IH|p IH|]; cbn [digits2_pos].
  - rewrite Pos2Z.inj_succ. replace (Z.succ (Z.pos (digits2_pos p)) - 1)
      with (Z.succ (Z.pos (digits2_pos p) - 1)) by lia.
    rewrite !Z.pow_succ_r by lia. lia.
  - rewrite Pos2Z.inj_succ. replace (Z.succ (Z.pos (digits2_pos p)) - 1)
      with (Z.succ (Z.pos (digits2_pos p) - 1)) by lia.
    rewrite !Z.pow_succ_r by lia. lia.
  - simpl. lia.
Qed.

Lemma shr_1_half r : 0 <= shr_m r -> shr_m (shr_1 r) = shr_m r / 2.
Proof.
  destruct r as [m rb sb]. cbn [shr_m]. intros Hm.
  destruct m as [|p|p]; [reflexivity| |lia].
  destruct p as [p|p|]; cbn [shr_1 shr_m].
  - rewrite Pos2Z.inj_xI. Z.div_mod_to_equations. lia.
  - rewrite Pos2Z.inj_xO. Z.div_mod_to_equations. lia.
  - reflexivity.
Qed.

Lemma iter_shr_1 q : forall r,
  0 <= shr_m r -> shr_m (iter_pos shr_1 q r) = shr_m r / 2 ^ Z.pos q.
Proof.
  induction q as [q IH|q IH|]; intros r Hr; cbn [iter_pos].
  - assert (H1 : 0 <= shr_m (shr_1 r)).
    { rewrite shr_1_half by exact Hr. apply Z.div_pos; lia. }
    assert (H2 : 0 <= shr_m (iter_pos shr_1 q (shr_1 r))).
    { rewrite IH by exact H1. apply Z.div_pos; [exact H1|]. apply Z.pow_pos_nonneg; lia. }
    rewrite IH by exact H2. rewrite IH by exact H1. rewrite shr_1_half by exact Hr.
    rewrite !Z.div_div by (try apply Z.pow_pos_nonneg; lia).
    f_equal.
    replace (Z.pos q~1) with (1 + Z.pos q + Z.pos q) by lia.
    rewrite !Z.pow_add_r by lia. change (2 ^ 1) with 2. lia.
  - assert (H2 : 0 <= shr_m (iter_pos shr_1 q r)).
    { rewrite IH by exact Hr. apply Z.div_pos; [exact Hr|]. apply Z.pow_pos_nonneg; lia. }
    rewrite IH by exact H2. rewrite IH by exact Hr.
    rewrite !Z.div_div by (try apply Z.pow_pos_nonneg; lia).
    f_equal.
    replace (Z.pos q~0) with (Z.pos q + Z.pos q) by lia.
    rewrite !Z.pow_add_r by lia. lia.
  - rewrite shr_1_half by exact Hr. reflexivity.
Qed.

Lemma fexp_eq e : fexp prec emax e = Z.max (e - 24) (-149).
Proof. reflexivity. Qed.

Lemma shr_m_of_loc m l : shr_m (shr_record_of_loc m l) = m.
Proof. destruct l as [|[]]; reflexivity. Qed.

(** One rounding shift leaves between 1 and 24 bits of mantissa. *)
Lemma shr_fexp_bounds p e l r e' :
  -149 <= e ->
  shr_fexp prec emax (Z.pos p) e l = (r, e') ->
  1 <= shr_m r < 2 ^ 24 /\ -149 <= e'.
Proof.
  intros He. unfold shr_fexp, shr. cbn [Zdigits2]. rewrite fexp_eq.
  pose proof (digits2_pos_bounds p) as Hd.
  set (d := Z.pos (digits2_pos p)) in *.
  destruct (Z.max (d + e - 24) (-149) - e) as [|q|q] eqn:Hn.
  - intros [= <- <-]. rewrite shr_m_of_loc. split; [|exact He].
    assert (d <= 24) by lia.
    assert (2 ^ d <= 2 ^ 24) by (apply Z.pow_le_mono_r; lia). lia.
  - intros [= <- <-]. rewrite iter_shr_1 by (rewrite shr_m_of_loc; lia).
    rewrite shr_m_of_loc. assert (Hq : Z.pos q = d - 24) by lia.
    split; [|lia]. rewrite Hq.
    assert (Hp1 : 2 ^ (d - 1) = 2 ^ (d - 24) * 2 ^ 23).
    { rewrite <- Z.pow_add_r by lia. f_equal. lia. }
    assert (Hp2 : 2 ^ d = 2 ^ (d - 24) * 2 ^ 24).
    { rewrite <- Z.pow_add_r by lia. f_equal. lia. }
    assert (Hpos : 0 < 2 ^ (d - 24)) by (apply Z.pow_pos_nonneg; lia).
    split.
    + assert (2 ^ 23 <= Z.pos p / 2 ^ (d - 24)).
      { apply Z.div_le_lower_bound; lia. }
      change (2 ^ 23) with 8388608 in *. lia.
    + apply Z.div_lt_upper_bound; lia.
  - intros [= <- <-]. rewrite shr_m_of_loc. split; [|exact He].
    assert (d <= 24) by lia.
    assert (2 ^ d <= 2 ^ 24) by (apply Z.pow_le_mono_r; lia). lia.
Qed.

Lemma round_nearest_even_bounds m l :
  m <= round_nearest_even m l <= m + 1.
Proof.
  unfold round_nearest_even. destruct l as [|[]]; try lia.
  destruct (Z.even m); lia.
Qed.

(** What rounding returns from a positive mantissa is an infinity or a
    finite float that fits the format. *)
Definition fits (x : spec_float) : Prop :=
  match x with
  | S754_infinity _ => True
  | S754_finite _ m e => Z.pos m < 2 ^ 24 /\ -149 <= e <= 104
  | _ => False
  end.

Lemma binary_round_aux_fits s p e l :
  -149 <= e -> fits (binary_round_aux prec emax s (Z.pos p) e l).
Proof.
  intros He. unfold binary_round_aux.
  destruct (shr_fexp prec emax (Z.pos p) e l) as [r1 e1] eqn:H1.
  destruct (shr_fexp_bounds p e l r1 e1 He H1) as (Hm1 & He1).
  pose proof (round_nearest_even_bounds (shr_m r1) (loc_of_shr_record r1)) as Hr.
  destruct (round_nearest_even (shr_m r1) (loc_of_shr_record r1)) as [|p2|p2] eqn:H2;
    try lia.
  destruct (shr_fexp prec emax (Z.pos p2) e1 loc_Exact) as [r3 e3] eqn:H3.
  destruct (shr_fexp_bounds p2 e1 loc_Exact r3 e3 He1 H3) as (Hm3 & He3).
  destruct (shr_m r3) as [|p3|p3]; try lia.
  change (emax - prec) with 104.
  destruct (Z.leb_spec e3 104); simpl; [lia | exact I].
Qed.

Lemma shl_align_exponent m e e' :
  -149 <= e -> -149 <= e' -> -149 <= snd (shl_align m e e').
Proof.
  intros He He'. unfold shl_align. destruct (e' - e); assumption.
Qed.

Lemma binary_round_fits s p e :
  -149 <= e -> fits (binary_round prec emax s p e).
Proof.
  intros He. unfold binary_round.
  pose proof (shl_align_exponent p e (fexp prec emax (Z.pos (digits2_pos p) + e)) He) as H.
  destruct (shl_align p e (fexp prec emax (Z.pos (digits2_pos p) + e))) as [mz ez].
  apply binary_round_aux_fits. apply H. rewrite fexp_eq. lia.
Qed.

Lemma binary_normalize_fits m e :
  m <> 0 -> -149 <= e -> fits (binary_normalize prec emax m e false).
Proof.
  intros Hm He. destruct m as [|p|p]; [contradiction| |];
    now apply binary_round_fits.
Qed.

Lemma iter_xO_value m d : Z.pos (Pos.iter xO m d) = Z.pos m * 2 ^ Z.pos d.
Proof.
  induction d as [|d IH] using Pos.peano_ind.
  - cbn [Pos.iter]. rewrite Pos2Z.inj_xO. change (2 ^ 1) with 2. lia.
  - rewrite Pos.iter_succ, Pos2Z.inj_succ, Z.pow_succ_r by lia.
    rewrite Pos2Z.inj_xO, IH. lia.
Qed.

Lemma shl_align_value m e ez :
  ez <= e -> Z.pos (fst (shl_align m e ez)) = Z.pos m * 2 ^ (e - ez).
Proof.
  intros H. unfold shl_align.
  destruct (ez - e) as [|d|d] eqn:Hd; cbn [fst].
  - replace (e - ez) with 0 by lia. lia.
  - lia.
  - rewrite iter_xO_value. f_equal. f_equal. lia.
Qed.

(** The finite floats [decode] returns. *)
Definition canonical (m : positive) (e : Z) : Prop :=
  Z.pos m < 2 ^ 24 /\ -149 <= e <= 104 /\ (e = -149 \/ 2 ^ 23 <= Z.pos m).

Lemma decode_canonical b s m e :
  decode b = S754_finite s m e -> canonical m e.
Proof.
  destruct (field_ranges b) as (HE & Hf). unfold decode, canonical.
  change (2 ^ 23) with 8388608 in *. change (2 ^ 24) with 16777216.
  destruct (Z.eqb_spec (biased_exp b) 0) as [E0|E0].
  - destruct (fraction b) as [|p|p] eqn:Ef; try discriminate.
    intros [= <- <- <-]. lia.
  - destruct (Z.eqb_spec (biased_exp b) 255) as [E1|E1].
    + destruct (fraction b =? 0); discriminate.
    + intros [= <- <- <-]. rewrite Z2Pos.id by lia. lia.
Qed.

Lemma fits_nonzero x : fits x -> is_nonzero (encode x) = true.
Proof.
  unfold is_nonzero. destruct x as [s|s| |s m e]; simpl fits; intros H;
    try contradiction.
  - now rewrite decode_encode_infinity.
  - destruct H as (Hm & He). unfold encode.
    change (2 ^ 24) with 16777216 in Hm.
    destruct (Z.ltb_spec (Z.pos m) (2 ^ 23)) as [Hlt|Hge].
    + destruct (word_fields s 0 (Z.pos m)) as (H1 & H2 & H3); [lia | lia |].
      replace (sign_word s + 0 * 2 ^ 23 + Z.pos m)
        with (sign_word s + Z.pos m) in * by lia.
      unfold decode. rewrite H1, H2, H3. reflexivity.
    + change (2 ^ 23) with 8388608 in Hge.
      destruct (word_fields s (e + 150) (Z.pos m - 2 ^ 23)) as (H1 & H2 & H3);
        [lia | change (2 ^ 23) with 8388608; lia |].
      unfold decode. rewrite H1, H2, H3.
      destruct (Z.eqb_spec (e + 150) 0); [lia|].
      destruct (Z.eqb_spec (e + 150) 255); [lia|]. reflexivity.
Qed.

Lemma aligned_difference_nonzero sx mx ex sy my ey :
  canonical mx ex -> canonical my ey ->
  SFltb (S754_finite sx mx ex) (S754_finite sy my ey) = true ->
  cond_Zopp sy (Z.pos (fst (shl_align my ey (Z.min ey ex))))
  - cond_Zopp sx (Z.pos (fst (shl_align mx ex (Z.min ey ex)))) <> 0.
Proof.
  intros (Hmx & Hex & Hnx) (Hmy & Hey & Hny) Hlt.
  rewrite !shl_align_value by lia.
  change (2 ^ 24) with 16777216 in *. change (2 ^ 23) with 8388608 in *.
  assert (Hpow : forall k, 0 < k -> 2 <= 2 ^ k).
  { intros k Hk. change 2 with (2 ^ 1) at 1. apply Z.pow_le_mono_r; lia. }
  unfold SFltb, SFcompare in Hlt.
  destruct sx, sy; unfold cond_Zopp; try discriminate.
  - (* both negative: x < y means |x| > |y| *)
    destruct (Z.compare_spec ex ey) as [Heq|Hl|Hg]; try discriminate.
    + subst ey. rewrite Z.min_id, Z.sub_diag. change (2 ^ 0) with 1.
      rewrite Pos.compare_cont_spec in Hlt. simpl in Hlt.
      destruct (Pos.compare_spec mx my) as [|Hc|Hc]; try discriminate. lia.
    + rewrite Z.min_l by lia. rewrite Z.sub_diag. change (2 ^ 0) with 1.
      pose proof (Hpow (ex - ey)) as Hp. nia.
  - (* x negative, y positive *)
    assert (0 < 2 ^ (ey - Z.min ey ex)) by (apply Z.pow_pos_nonneg; lia).
    assert (0 < 2 ^ (ex - Z.min ey ex)) by (apply Z.pow_pos_nonneg; lia).
    nia.
  - destruct (Z.compare_spec ex ey) as [Heq|Hl|Hg]; try discriminate.
    + subst ey. rewrite Z.min_id, Z.sub_diag. change (2 ^ 0) with 1.
      rewrite Pos.compare_cont_spec in Hlt. simpl in Hlt.
      destruct (Pos.compare_spec mx my) as [|Hc|Hc]; try discriminate. lia.
    + rewrite Z.min_r by lia. rewrite Z.sub_diag. change (2 ^ 0) with 1.
      pose proof (Hpow (ey - ex)) as Hp. nia.
Qed.

(** The difference of two finite floats, the larger first, is never zero
    (single precision has gradual underflow) and never a NaN. *)
Lemma sub_increasing_nonzero a b :
  ltb a b = true -> is_finite a = true -> is_finite b = true ->
  is_nonzero (sub b a) = true.
Proof.
  unfold ltb, is_finite, sub. intros Hlt Ha Hb.
  destruct (decode a) as [sx|sx| |sx mx ex] eqn:Da; try discriminate;
    destruct (decode b) as [sy|sy| |sy my ey] eqn:Db; try discriminate.
  - change (SFsub prec emax (S754_finite sy my ey) (S754_zero sx))
      with (S754_finite sy my ey).
    apply fits_nonzero. destruct (decode_canonical _ _ _ _ Db) as (H1 & H2 & _).
    split; assumption.
  - change (SFsub prec emax (S754_zero sy) (S754_finite sx mx ex))
      with (S754_finite (negb sx) mx ex).
    apply fits_nonzero. destruct (decode_canonical _ _ _ _ Da) as (H1 & H2 & _).
    split; assumption.
  - pose proof (decode_canonical _ _ _ _ Da) as Ca.
    pose proof (decode_canonical _ _ _ _ Db) as Cb.
    pose proof (aligned_difference_nonzero _ _ _ _ _ _ Ca Cb Hlt) as HM.
    unfold SFsub. apply fits_nonzero. apply binary_normalize_fits; [exact HM|].
    destruct Ca as (_ & Ca & _), Cb as (_ & Cb & _). lia.
Qed.

(** X1. For a table of finite entries with strictly increasing input
    frequencies, the width [di] the interpolation divides by is never zero
    and never a NaN, on any of the three segments; and the curve at points
    0, 1 and 2 equals the output of the point as soon as the rise [doo] of
    the segment to the right is finite. *)
Theorem segment_width_nonzero t :
  finite_entries t -> increasing t ->
  (forall i, 1 <= i <= 3 -> is_nonzero (sub (tin t i) (tin t (i - 1))) = true) /\
  (forall i, 0 <= i <= 2 ->
     is_finite (sub (tout t (i + 1)) (tout t i)) = true ->
     eqb (correction_curve t (tin t i)) (tout t i) = true).
Proof.
  intros Hfin Hinc.
  assert (Hw : forall i, 1 <= i <= 3 ->
                 is_nonzero (sub (tin t i) (tin t (i - 1))) = true).
  { intros i Hi. destruct Hinc as (H01 & H12 & H23).
    assert (Hc : i = 1 \/ i = 2 \/ i = 3) by lia.
    destruct (Hfin i) as (Hi1 & _); [lia|].
    destruct (Hfin (i - 1)) as (Hi0 & _); [lia|].
    apply sub_increasing_nonzero; trivial.
    destruct Hc as [-> | [-> | ->]]; assumption. }
  split; [exact Hw|].
  intros i Hi Hdoo.
  unfold correction_curve. rewrite (select_index_at_point t i Hinc Hi).
  destruct (Hfin i) as (Ha & Hb); [lia|].
  pose proof (interpolate_left t (i + 1)) as H. cbv zeta in H.
  replace (i + 1 - 1) with i in H by lia.
  apply H; trivial.
  - now apply is_finite_not_nan.
  - specialize (Hw (i + 1)). replace (i + 1 - 1) with i in Hw by lia.
    apply Hw. lia.
Qed.

Lemma segment_width_nonzero_witness :
  is_nonzero (sub (tin sample_table 3) (tin sample_table 2)) = true /\
  eqb (correction_curve sample_table (tin sample_table 2)) (tout sample_table 2) = true.
Proof.
  destruct (segment_width_nonzero sample_table sample_table_finite
              sample_table_increasing) as (H1 & H2).
  split.
  - apply (H1 3). lia.
  - apply (H2 2); [lia | reflexivity].
Defined.

(** X2. A segment of zero width (two consecutive points with the same finite
    input frequency) makes the interpolation at that frequency divide 0 by
    0: the output frequency is a NaN, whatever the outputs of the table. *)
Theorem degenerate_segment_nan t index :
  is_finite (tin t (index - 1)) = true ->
  tin t index = tin t (index - 1) ->
  is_nan (interpolate t index (tin t (index - 1))) = true.
Proof.
  intros Hfin Heq. unfold interpolate. fold (tin t index). fold (tin t (index - 1)).
  fold (tout t index). fold (tout t (index - 1)).
  rewrite Heq, (sub_diag _ Hfin).
  assert (Hd : div (encode (S754_zero false)) (encode (S754_zero false)) = nan_word)
    by reflexivity.
  rewrite Hd. unfold is_nan, add, mul.
  change (decode nan_word) with S754_nan.
  change (SFmul prec emax S754_nan (decode (sub (tout t index) (tout t (index - 1)))))
    with S754_nan.
  change (encode S754_nan) with nan_word.
  change (decode nan_word) with S754_nan.
  reflexivity.
Qed.

(** Points 2 and 3 both at 72 Hz. *)
Definition flat_table : list CorrectionFreq :=
  [ mkCorrectionFreq zero zero;
    mkCorrectionFreq (of_Z 35) (of_Z 37);
    mkCorrectionFreq (of_Z 72) (of_Z 75);
    mkCorrectionFreq (of_Z 72) (of_Z 110) ].

Lemma degenerate_segment_nan_witness :
  select_index flat_table (of_Z 72) = 3 /\
  is_nan (interpolate flat_table 3 (tin flat_table 2)) = true.
Proof.
  split; [reflexivity|].
  apply (degenerate_segment_nan flat_table 3); reflexivity.
Defined.

(** ** More on the capture engine *)

Lemma run_app evs1 : forall evs2 s,
  run (evs1 ++ evs2) s =
  match run evs1 s with
  | Some s1 => run evs2 s1
  | None => None
  end.
Proof.
  induction evs1 as [|ev evs1 IH]; intros evs2 s; simpl.
  - reflexivity.
  - destruct (enabled ev s); [apply IH | reflexivity].
Qed.

(** [n] wraps of the timer, each followed by its overflow interrupt. *)
Fixpoint serviced_wraps (n : nat) : list event :=
  match n with
  | O => []
  | S n' => HwWrap :: IrqOverflow :: serviced_wraps n'
  end.

Lemma u16_add_l a b : Word.u16 (Word.u16 a + b) = Word.u16 (a + b).
Proof. unfold Word.u16. now rewrite Zplus_mod_idemp_l. Qed.

Lemma run_serviced_wraps n : forall s,
  tov_pending s = false ->
  0 <= gOverflowCounter s < 2 ^ 16 ->
  exists s', run (serviced_wraps n) s = Some s' /\
    tov_pending s' = false /\
    ICR1 s' = ICR1 s /\
    gCaptureLive s' = gCaptureLive s /\
    gLastCounter s' = gLastCounter s /\
    gOverflowCounter s' = Word.u16 (gOverflowCounter s + Z.of_nat n).
Proof.
  induction n as [|n IH]; intros s Htov Hc.
  - exists s. repeat split; trivial.
    rewrite Z.add_0_r. symmetry. now apply Word.u16_small.
  - destruct (HwWrap_fields s) as (Hi1 & Hl1 & Hc1 & Ho1).
    destruct (IrqOverflow_fields (fire HwWrap s)) as (Hi2 & Hl2 & Hc2 & Ho2).
    destruct (IH (fire IrqOverflow (fire HwWrap s))) as (s' & Hrun & H1 & H2 & H3 & H4 & H5).
    + apply tov_pending_IrqOverflow.
    + rewrite Ho2. apply Word.u16_range.
    + exists s'. split.
      * change (run (serviced_wraps (S n)) s)
          with (if tov_pending (fire HwWrap s)
                then run (serviced_wraps n) (fire IrqOverflow (fire HwWrap s))
                else None).
        now rewrite tov_pending_HwWrap.
      * repeat split; try congruence.
        rewrite H5, Ho2, Ho1, u16_add_l. f_equal. lia.
Qed.

(** X3. With a live capture at counter value [t0] and nothing counted or
    pending, [n] timer wraps, each serviced by the overflow handler, then a
    capture at [t1]: the period stored is [t1 + n * 2^16 - t0], for every
    [n] up to 32767 (and for [n = 0] when [t0 <= t1]).  From 32768 wraps on
    the product [int32_t(gOverflowCounter) * 0x10000] no longer fits a
    signed 32-bit integer. *)
Theorem capture_period_wraps s t0 t1 n :
  gCaptureLive s = true ->
  gLastCounter s = t0 ->
  gOverflowCounter s = 0 ->
  tov_pending s = false ->
  0 <= t0 < 2 ^ 16 ->
  0 <= t1 < 2 ^ 16 ->
  Z.of_nat n <= 32767 ->
  (n = 0%nat -> t0 <= t1) ->
  exists s', run (serviced_wraps n ++ [HwEdge t1; IrqCapture]) s = Some s' /\
    gInputPeriod s' = t1 + Z.of_nat n * 2 ^ 16 - t0 /\
    gOverflowCounter s' = 0.
Proof.
  intros Hlive Hlast Hovf Htov Ht0 Ht1 Hn H0.
  change (2 ^ 16) with 65536 in *.
  destruct (run_serviced_wraps n s Htov) as (s1 & Hrun & H1 & H2 & H3 & H4 & H5).
  { rewrite Hovf. change (2 ^ 16) with 65536. lia. }
  destruct (HwEdge_fields t1 s1) as (Hi & Hl & Hc & Ho).
  exists (isr_capture (fire (HwEdge t1) s1)). split; [|split].
  - rewrite run_app, Hrun. reflexivity.
  - rewrite (isr_capture_period_at _ t1 t0 (Z.of_nat n) false);
      [ | congruence | exact Hi | congruence
        | rewrite Ho, H5, Hovf; apply Word.u16_small; change (2 ^ 16) with 65536; lia
        | now rewrite tov_pending_HwEdge | lia ].
    simpl.
    replace (t1 - t0 + 65536 * (Z.of_nat n + 0)) with (t1 + Z.of_nat n * 65536 - t0)
      by lia.
    apply Word.u32_small. change (2 ^ 32) with 4294967296.
    destruct n as [|n]; [specialize (H0 eq_refl)|]; lia.
  - rewrite gOverflowCounter_isr_capture, tov_pending_HwEdge, H1. reflexivity.
Qed.

Lemma capture_period_wraps_witness :
  exists s', run (serviced_wraps 3 ++ [HwEdge 300; IrqCapture]) live_state = Some s' /\
    gInputPeriod s' = 136908 /\ gOverflowCounter s' = 0.
Proof.
  apply (capture_period_wraps live_state 60000 300 3);
    try reflexivity; lia.
Defined.

Lemma isr_capture_not_live s :
  gCaptureLive s = false ->
  gInputPeriod (isr_capture s) = gInputPeriod s /\
  gLastOutput (isr_capture s) = negb (gLastOutput s) /\
  pin13 (isr_capture s) = negb (gLastOutput s) /\
  gOutputPeriod (isr_capture s) = gOutputPeriod s /\
  gStopped (isr_capture s) = gStopped s.
Proof.
  intros Hlive. destruct s; unfold isr_capture; simpl in *.
  rewrite Hlive. simpl. destruct (_ && _); repeat split.
Qed.

(** X4. After a stop (capture not live, no overflow pending), whatever was
    left in [gOverflowCounter] and [gLastCounter]: the first edge stores no
    period (it marks the capture live, clears the overflow counter and
    swaps the output pin), and the edge after it stores the exact distance
    [t1 - t0] of the two captures. *)
Theorem capture_restart s t0 t1 :
  gCaptureLive s = false ->
  tov_pending s = false ->
  0 <= t0 -> t0 <= t1 -> t1 < 2 ^ 16 ->
  let s1 := fire IrqCapture (fire (HwEdge t0) s) in
  let s2 := fire IrqCapture (fire (HwEdge t1) s1) in
  gInputPeriod s1 = gInputPeriod s /\
  gCaptureLive s1 = true /\
  gOverflowCounter s1 = 0 /\
  pin13 s1 = negb (gLastOutput s) /\
  gInputPeriod s2 = t1 - t0.
Proof.
  intros Hlive Htov H0 H01 H1 s1 s2. change (2 ^ 16) with 65536 in *.
  destruct (HwEdge_fields t0 s) as (Hi & Hl & Hc & Ho).
  assert (Hu : Word.u16 t0 = t0)
    by (apply Word.u16_small; change (2 ^ 16) with 65536; lia).
  destruct (isr_capture_not_live (fire (HwEdge t0) s)) as (Hp & _ & Hpin & _);
    [congruence|].
  assert (Hg : gLastOutput (fire (HwEdge t0) s) = gLastOutput s) by now destruct s.
  assert (Hgp : gInputPeriod (fire (HwEdge t0) s) = gInputPeriod s) by now destruct s.
  assert (Hov : gOverflowCounter s1 = 0).
  { unfold s1. change (fire IrqCapture ?x) with (isr_capture x).
    rewrite gOverflowCounter_isr_capture, tov_pending_HwEdge, Htov. reflexivity. }
  assert (Hpend : tov_pending s1 = false).
  { unfold s1. change (fire IrqCapture ?x) with (isr_capture x).
    now rewrite tov_pending_isr_capture, tov_pending_HwEdge. }
  assert (Hlast : gLastCounter s1 = t0).
  { unfold s1. change (fire IrqCapture ?x) with (isr_capture x).
    now rewrite gLastCounter_isr_capture, Hi, Hu, Hu. }
  assert (Hlive1 : gCaptureLive s1 = true) by apply gCaptureLive_isr_capture.
  split; [|split; [|split; [|split]]].
  - unfold s1. change (fire IrqCapture ?x) with (isr_capture x). congruence.
  - exact Hlive1.
  - exact Hov.
  - unfold s1. change (fire IrqCapture ?x) with (isr_capture x). congruence.
  - destruct (HwEdge_fields t1 s1) as (Hi1 & Hl1 & Hc1 & Ho1).
    unfold s2. change (fire IrqCapture ?x) with (isr_capture x).
    rewrite (isr_capture_period_at _ t1 t0 0 false);
      [ | congruence | exact Hi1 | congruence | congruence
        | now rewrite tov_pending_HwEdge | lia ].
    simpl. replace (t1 - t0 + 65536 * (0 + 0)) with (t1 - t0) by lia.
    apply Word.u32_small. change (2 ^ 32) with 4294967296. lia.
Qed.

(** The state the stop block leaves: overflow counter at 2, capture not
    live. *)
Definition stopped_state : Mcu :=
  control_update 200 17 18 stalled_state.

Lemma capture_restart_witness :
  gOverflowCounter stopped_state = 2 /\
  gInputPeriod (fire IrqCapture (fire (HwEdge 700)
                 (fire IrqCapture (fire (HwEdge 100) stopped_state)))) = 600.
Proof.
  split; [reflexivity|].
  apply (capture_restart stopped_state 100 700); try reflexivity; lia.
Defined.

Lemma TCCR1B_isr_capture s :
  TCCR1B (isr_capture s) = Z.lxor (TCCR1B s) (2 ^ ICES1).
Proof.
  destruct s; unfold isr_capture; simpl.
  destruct gCaptureLive0; simpl; destruct (_ && _); reflexivity.
Qed.

(** X5. Each capture inverts the edge-select bit ICES1 of [TCCR1B] and no
    other bit, so the captures alternate between the two edges and two
    captures leave the register as it was; [setup()] starts with the bit
    cleared, the falling edge. *)
Theorem capture_edge_alternates s :
  Z.testbit (TCCR1B (isr_capture s)) ICES1 = negb (Z.testbit (TCCR1B s) ICES1) /\
  (forall n, 0 <= n -> n <> ICES1 ->
     Z.testbit (TCCR1B (isr_capture s)) n = Z.testbit (TCCR1B s) n) /\
  TCCR1B (isr_capture (isr_capture s)) = TCCR1B s /\
  (forall e, Z.testbit (TCCR1B (boot e)) ICES1 = false).
Proof.
  split; [|split; [|split]].
  - rewrite TCCR1B_isr_capture, Z.lxor_spec, Z.pow2_bits_true by (unfold ICES1; lia).
    now destruct (Z.testbit (TCCR1B s) ICES1).
  - intros n Hn Hne.
    rewrite TCCR1B_isr_capture, Z.lxor_spec, Z.pow2_bits_false by congruence.
    now destruct (Z.testbit (TCCR1B s) n).
  - rewrite !TCCR1B_isr_capture, Z.lxor_assoc, Z.lxor_nilpotent.
    apply Z.lxor_0_r.
  - intros e. unfold boot, setup. cbv zeta.
    repeat match goal with
    | |- context [TCCR1B (println ?x ?s)] =>
        replace (TCCR1B (println x s)) with (TCCR1B s) by now destruct s
    | |- context [TCCR1B (print ?x ?s)] =>
        replace (TCCR1B (print x s)) with (TCCR1B s) by now destruct s
    end.
    unfold loadConf. cbv zeta.
    destruct (_ || _);
      repeat match goal with
      | |- context [TCCR1B (println ?x ?s)] =>
          replace (TCCR1B (println x s)) with (TCCR1B s) by now destruct s
      end; reflexivity.
Qed.

(** ** More on the output scheduler *)

Lemma isr_compare_running s :
  gStopped s = false ->
  OCR1A (isr_compare s) = Word.u16 (OCR1A s + gOutputPeriod s) /\
  gLastOutput (isr_compare s) = negb (gLastOutput s) /\
  pin13 (isr_compare s) = negb (gLastOutput s) /\
  gOutputPeriod (isr_compare s) = gOutputPeriod s /\
  gStopped (isr_compare s) = false.
Proof.
  intros H. unfold isr_compare. rewrite H. destruct s; simpl in *.
  rewrite u16_u32. repeat split. exact H.
Qed.

(** X6. While running with a constant half period, [n] compare matches in a
    row put the next match at [OCR1A + n * gOutputPeriod] (in the 16 bits of
    the register): the matches stay on the grid of the first one, without
    drift; the output has toggled [n] times. *)
Theorem compare_matches_grid n : forall s,
  gStopped s = false ->
  0 <= OCR1A s < 2 ^ 16 ->
  exists s', run (repeat IrqCompare n) s = Some s' /\
    OCR1A s' = Word.u16 (OCR1A s + Z.of_nat n * gOutputPeriod s) /\
    gLastOutput s' = (if Nat.even n then gLastOutput s else negb (gLastOutput s)) /\
    pin13 s' = (if Nat.eqb n 0 then pin13 s else gLastOutput s') /\
    gOutputPeriod s' = gOutputPeriod s /\
    gStopped s' = false.
Proof.
  induction n as [|n IH]; intros s Hrun Hocr.
  - exists s. repeat split; trivial.
    rewrite Z.mul_0_l, Z.add_0_r. symmetry. now apply Word.u16_small.
  - destruct (isr_compare_running s Hrun) as (H1 & H2 & H3 & H4 & H5).
    destruct (IH (isr_compare s) H5) as (s' & Hr & G1 & G2 & G3 & G4 & G5).
    { rewrite H1. apply Word.u16_range. }
    exists s'. split; [exact Hr|].
    split; [|split; [|split; [|split]]].
    + rewrite G1, H1, H4, u16_add_l. f_equal. lia.
    + rewrite G2, H2. rewrite Nat.even_succ, <- Nat.negb_even.
      destruct (Nat.even n); [reflexivity | apply negb_involutive].
    + cbn [Nat.eqb]. destruct n as [|n]; cbn [Nat.eqb] in G3; [|exact G3].
      injection Hr as <-. congruence.
    + congruence.
    + exact G5.
Qed.

Lemma compare_matches_grid_witness :
  exists s', run (repeat IrqCompare 5) running_state = Some s' /\
    OCR1A s' = 4464 /\ gLastOutput s' = true.
Proof.
  destruct (compare_matches_grid 5 running_state eq_refl) as (s' & H & H1 & H2 & _).
  - vm_compute. split; [discriminate | reflexivity].
  - exists s'. split; [exact H|]. split; [exact H1 | exact H2].
Defined.

(** ** More on the control update *)

(** The output period the update computes from a snapshot that is not a
    stop. *)
Definition computed_output_period (s : Mcu) : Z :=
  if gInputPeriod s =? 0 then 0
  else period_of_freq
         (correction_curve (gFreqTable s)
            (filter_frequency (gLastInputFreq s) (input_frequency (gInputPeriod s)))).

(** Where C defines the conversion of a [float] to [uint32_t]: the value,
    truncated, is in the range of the type.  (Kept to zero and the positive
    finite values below 2^32; a NaN, an infinity or a negative value is
    not converted by any rule of the language.) *)
Definition to_u32_defined (a : float32) : bool :=
  match decode a with
  | S754_zero _ => true
  | S754_finite false m e =>
      (if 0 <=? e then Z.shiftl (Zpos m) e else Z.shiftr (Zpos m) (- e)) <? 2 ^ 32
  | _ => false
  end.

(** The conversion of line 569 is defined in the update of [s]: it is not
    made (period 0), or it is made on a value in range. *)
Definition output_period_defined (s : Mcu) : bool :=
  (gInputPeriod s =? 0) ||
  to_u32_defined
    (div (div (of_Z 1)
              (correction_curve (gFreqTable s)
                 (filter_frequency (gLastInputFreq s)
                    (input_frequency (gInputPeriod s)))))
         TICK_VALUE).

Lemma control_update_fields now tcnt1 tcnt1' s :
  stop_condition (gOverflowCounter s) (gInputPeriod s) = false ->
  let s' := control_update now tcnt1 tcnt1' s in
  let outputPeriod := computed_output_period s in
  gOutputPeriod s' = Z.shiftr outputPeriod 1 /\
  gStopped s' = gStopped s && (outputPeriod =? 0) /\
  OCR1A s' = (if gStopped s && negb (outputPeriod =? 0)
              then Word.u16 (Word.u16 tcnt1' + Z.shiftr outputPeriod 1)
              else OCR1A s) /\
  pin13 s' = pin13 s /\ gLastOutput s' = gLastOutput s.
Proof.
  intros Hstop. destruct s; unfold control_update, computed_output_period;
    simpl in *.
  rewrite Hstop. simpl.
  destruct (gInputPeriod0 =? 0); cbn [negb].
  - change (0 =? 0) with true. cbn [negb]. rewrite !andb_false_r, andb_true_r.
    repeat split.
  - destruct gStopped0; cbn [andb].
    + destruct (period_of_freq _ =? 0); cbn [negb]; rewrite ?u16_u32;
        repeat split.
    + repeat split.
Qed.

(** X7. A control update that is not a stop, and in which the conversion
    of the output period to [uint32_t] is defined (the period is not
    computed, or it is zero or a positive finite value below 2^32), never
    writes the output pin, and while the output is running it never writes
    [OCR1A] either: only the half period [gOutputPeriod] changes, to half
    the computed output period, and the compare handler picks it up at its
    next match.  When the output is stopped and the computed period is not
    0, the update restarts it: [OCR1A] becomes the counter read plus the
    half period and [gStopped] is cleared.  Nothing is said of an update
    that converts a negative, infinite or NaN period. *)
Theorem control_update_handoff now tcnt1 tcnt1' s :
  stop_condition (gOverflowCounter s) (gInputPeriod s) = false ->
  output_period_defined s = true ->
  let s' := control_update now tcnt1 tcnt1' s in
  let outputPeriod := computed_output_period s in
  pin13 s' = pin13 s /\ gLastOutput s' = gLastOutput s /\
  gOutputPeriod s' = Z.shiftr outputPeriod 1 /\
  (gStopped s = false -> OCR1A s' = OCR1A s /\ gStopped s' = false) /\
  (gStopped s = true -> outputPeriod <> 0 ->
     OCR1A s' = Word.u16 (Word.u16 tcnt1' + Z.shiftr outputPeriod 1) /\
     gStopped s' = false) /\
  (gStopped s = true -> outputPeriod = 0 ->
     OCR1A s' = OCR1A s /\ gStopped s' = true).
Proof.
  intros Hstop _ s' outputPeriod.
  destruct (control_update_fields now tcnt1 tcnt1' s Hstop) as (H1 & H2 & H3 & H4 & H5).
  fold s' in H1, H2, H3, H4, H5. fold outputPeriod in H1, H2, H3.
  split; [exact H4|]. split; [exact H5|]. split; [exact H1|].
  split; [|split].
  - intros Hr. rewrite Hr in H2, H3. simpl in H2, H3. split; assumption.
  - intros Hs Hne. rewrite Hs in H2, H3.
    destruct (Z.eqb_spec outputPeriod 0); [contradiction|]. split; assumption.
  - intros Hs He. rewrite Hs in H2, H3.
    destruct (Z.eqb_spec outputPeriod 0); [|contradiction]. split; assumption.
Qed.

(** A measured period of 5000 ticks (100 Hz), with the output running and
    with the output stopped. *)
Definition measuring_running : Mcu :=
  set_gInputPeriod 5000 (set_gCaptureLive true running_state).
Definition measuring_stopped : Mcu :=
  set_gInputPeriod 5000 (set_gCaptureLive true (reset_state (fun _ => 255))).

Lemma control_update_handoff_witness :
  (OCR1A (control_update 200 0 4321 measuring_running) = 65000 /\
   gStopped (control_update 200 0 4321 measuring_running) = false) /\
  (OCR1A (control_update 200 0 4321 measuring_stopped)
     = Word.u16 (Word.u16 4321
                 + Z.shiftr (computed_output_period measuring_stopped) 1) /\
   gStopped (control_update 200 0 4321 measuring_stopped) = false).
Proof.
  split.
  - destruct (control_update_handoff 200 0 4321 measuring_running eq_refl)
      as (_ & _ & _ & H & _); [vm_compute; reflexivity|].
    apply H. reflexivity.
  - destruct (control_update_handoff 200 0 4321 measuring_stopped eq_refl)
      as (_ & _ & _ & _ & H & _); [vm_compute; reflexivity|].
    apply H; [reflexivity|]. vm_compute. discriminate.
Defined.

(** X8. No input, no output period: when the snapshot is a stop, or holds a
    period of 0, the update ends with [gOutputPeriod = 0] and leaves [OCR1A]
    and the output pin alone.  A stop sets [gStopped]; a period of 0 that is
    not a stop (two captures at the same counter value) does not: the
    stopped flag keeps its value. *)
Theorem control_update_no_input now tcnt1 tcnt1' s :
  let s' := control_update now tcnt1 tcnt1' s in
  (stop_condition (gOverflowCounter s) (gInputPeriod s) = true ->
     gOutputPeriod s' = 0 /\ OCR1A s' = OCR1A s /\ gStopped s' = true) /\
  (stop_condition (gOverflowCounter s) (gInputPeriod s) = false ->
     gInputPeriod s = 0 ->
     gOutputPeriod s' = 0 /\ OCR1A s' = OCR1A s /\ gStopped s' = gStopped s /\
     pin13 s' = pin13 s).
Proof.
  intros s'. split.
  - intros H. destruct (control_update_stop now tcnt1 tcnt1' s H)
      as (_ & H2 & H3 & _ & _ & H6 & _).
    repeat split; assumption.
  - intros H H0.
    destruct (control_update_fields now tcnt1 tcnt1' s H) as (H1 & H2 & H3 & H4 & _).
    fold s' in H1, H2, H3, H4.
    unfold computed_output_period in H1, H2, H3. rewrite H0 in H1, H2, H3.
    change (0 =? 0) with true in *. cbn [negb] in *.
    rewrite andb_true_r in H2. rewrite andb_false_r in H3.
    repeat split; assumption.
Qed.

(** Running, with a measured period of 0. *)
Definition zero_period_running : Mcu :=
  set_gInputPeriod 0 (set_gCaptureLive true running_state).

Lemma control_update_no_input_witness :
  gOutputPeriod (control_update 200 0 0 stalled_state) = 0 /\
  gStopped (control_update 200 0 0 stalled_state) = true /\
  gOutputPeriod (control_update 200 0 0 zero_period_running) = 0 /\
  gStopped (control_update 200 0 0 zero_period_running) = false.
Proof.
  destruct (control_update_no_input 200 0 0 stalled_state) as (H & _).
  destruct (H eq_refl) as (H1 & _ & H3).
  destruct (control_update_no_input 200 0 0 zero_period_running) as (_ & G).
  destruct (G eq_refl eq_refl) as (G1 & _ & G3 & _).
  split; [exact H1|]. split; [exact H3|]. split; [exact G1 | exact G3].
Defined.

Lemma gLastUpdate_control_update now tcnt1 tcnt1' s :
  gLastUpdate (control_update now tcnt1 tcnt1' s) = Word.u16 now.
Proof.
  destruct s; unfold control_update; simpl.
  destruct (stop_condition _ _); simpl; case_ifs; reflexivity.
Qed.

(** X9. [gLastUpdate] is an [unsigned int] of 16 bits: it holds
    [millis()] modulo 65536.  From 65636 ms after reset on, the test
    [now - gLastUpdate > 100] succeeds on every pass, so [loop()] in
    [NORMAL] runs the control update on every pass and no longer every
    tenth of a second; before [millis()] reaches 65536 the update is held
    back until more than 100 ms have passed since the last one. *)
Theorem control_update_rate now tcnt1 tcnt1' s :
  gState s = NORMAL ->
  gStringComplete s = false ->
  0 <= gLastUpdate s < 2 ^ 16 ->
  0 <= now < 2 ^ 32 ->
  let s1 := set_gLoopPerSec (Word.i32 (gLoopPerSec s + 1)) s in
  (65636 <= now ->
     loop now tcnt1 tcnt1' s = Some (control_update now tcnt1 tcnt1' s1)) /\
  (now < 2 ^ 16 -> gLastUpdate s <= now -> now - gLastUpdate s <= 100 ->
     loop now tcnt1 tcnt1' s = Some s1) /\
  0 <= gLastUpdate (control_update now tcnt1 tcnt1' s1) < 2 ^ 16.
Proof.
  intros Hst Hcmd Hlast Hnow s1.
  change (2 ^ 16) with 65536 in *. change (2 ^ 32) with 4294967296 in *.
  split; [|split].
  - intros H. apply loop_control_tick; trivial.
    rewrite Word.u32_small; change (2 ^ 32) with 4294967296; lia.
  - intros H1 H2 H3. unfold loop. rewrite Hst. fold s1.
    replace (gLastUpdate s1) with (gLastUpdate s) by now destruct s.
    rewrite Word.u32_small by (change (2 ^ 32) with 4294967296; lia).
    destruct (Z.ltb_spec 100 (now - gLastUpdate s)); [lia|].
    replace (gStringComplete s1) with (gStringComplete s) by now destruct s.
    now rewrite Hcmd.
  - rewrite gLastUpdate_control_update. apply Word.u16_range.
Qed.

Lemma control_update_rate_witness :
  loop 70000 0 0 (set_gLastUpdate 4464 (reset_state (fun _ => 255)))
  = Some (control_update 70000 0 0
            (set_gLoopPerSec 1 (set_gLastUpdate 4464 (reset_state (fun _ => 255))))) /\
  gLastUpdate (control_update 70000 0 0
            (set_gLoopPerSec 1 (set_gLastUpdate 4464 (reset_state (fun _ => 255)))))
  = 4464.
Proof.
  destruct (control_update_rate 70000 0 0
              (set_gLastUpdate 4464 (reset_state (fun _ => 255)))
              eq_refl eq_refl) as (H & _ & _); [simpl; lia | lia |].
  split; [apply H; lia|]. vm_compute. reflexivity.
Defined.

(** ** More on the command protocol *)

(** X10. The index is read into an [int] of 16 bits and only tested against
    4 from above.  A line of three numerals is accepted whenever the index
    numeral, reduced to 16 bits, is 0, 1, 2 or 3: index 0 overwrites the
    origin of the curve, and 65537 is taken for 1. *)
Theorem command_index_truncated s d1 ds1 d2 ds2 d3 ds3 k1 k2 :
  let index := Word.i16 (value (d1 :: ds1)) in
  gInputString s = command_line (d1 :: ds1) (d2 :: ds2) (d3 :: ds3) k1 k2 ->
  digits (d1 :: ds1) -> digits (d2 :: ds2) -> digits (d3 :: ds3) ->
  value (d1 :: ds1) < 2 ^ 31 ->
  value (d2 :: ds2) < 2 ^ 31 -> value (d3 :: ds3) < 2 ^ 31 ->
  0 <= index <= 3 ->
  List.length (gFreqTable s) = 4%nat ->
  exists s', process_command s = Some s' /\
    table_get (gFreqTable s') index = point (value (d2 :: ds2)) (value (d3 :: ds3)) /\
    (forall j, 0 <= j -> j <> index ->
       table_get (gFreqTable s') j = table_get (gFreqTable s) j).
Proof.
  intros index Hline H1 H2 H3 V1 V2 V3 Hi Hlen.
  assert (Hsave : String.eqb (gInputString s) "SAVE" = false)
    by (rewrite Hline; now apply command_line_not_SAVE).
  assert (Hf : command_fields (gInputString s) =
               (index, value (d2 :: ds2), value (d3 :: ds3), true)).
  { rewrite Hline, command_fields_numerals by trivial. fold index.
    replace (index <? 4) with true by (symmetry; apply Z.ltb_lt; lia).
    reflexivity. }
  pose proof (process_command_fields s _ _ _ _ Hsave Hf) as Hpc.
  cbv iota in Hpc.
  destruct (table_set (gFreqTable s) index
              (point (value (d2 :: ds2)) (value (d3 :: ds3)))) as [t|] eqn:Et.
  - destruct Hpc as (s' & Hs' & Ht & _). exists s'. split; [exact Hs'|].
    rewrite Ht. split.
    + rewrite (table_get_set _ _ _ _ index Et) by lia. now rewrite Z.eqb_refl.
    + intros j Hj Hne. rewrite (table_get_set _ _ _ _ j Et) by lia.
      destruct (Z.eqb_spec j index); [contradiction | reflexivity].
  - exfalso. unfold table_set in Et. rewrite Hlen in Et.
    destruct (Z.leb_spec 0 index); [|lia].
    destruct (Z.ltb_spec index (Z.of_nat 4)); [discriminate|].
    change (Z.of_nat 4) with 4 in *. lia.
Qed.

Lemma command_index_truncated_witness :
  (exists s', process_command (command_state "65537 1000 2000") = Some s' /\
     table_get (gFreqTable s') 1 = point 1000 2000) /\
  (exists s', process_command (command_state "0 5000 6000") = Some s' /\
     table_get (gFreqTable s') 0 = point 5000 6000).
Proof.
  split.
  - destruct (command_index_truncated (command_state "65537 1000 2000")
                6%nat [5; 5; 3; 7]%nat 1%nat [0; 0; 0]%nat 2%nat [0; 0; 0]%nat
                0%nat 0%nat) as (s' & H1 & H2 & _);
      [ reflexivity | repeat constructor | repeat constructor
      | repeat constructor | reflexivity | reflexivity | reflexivity
      | vm_compute; split; discriminate | reflexivity | ].
    exists s'. split; [exact H1 | exact H2].
  - destruct (command_index_truncated (command_state "0 5000 6000")
                0%nat [] 5%nat [0; 0; 0]%nat 6%nat [0; 0; 0]%nat
                0%nat 0%nat) as (s' & H1 & H2 & _);
      [ reflexivity | repeat constructor | repeat constructor
      | repeat constructor | reflexivity | reflexivity | reflexivity
      | vm_compute; split; discriminate | reflexivity | ].
    exists s'. split; [exact H1 | exact H2].
Defined.

(** X11. An index numeral that is negative once reduced to 16 bits (32768
    to 65535, and every number that differs from one of these by a multiple
    of 65536) passes the test [index < 4]: the line is accepted and the
    store goes below [gFreqTable], outside the array. *)
Theorem command_index_negative s d1 ds1 d2 ds2 d3 ds3 k1 k2 :
  gInputString s = command_line (d1 :: ds1) (d2 :: ds2) (d3 :: ds3) k1 k2 ->
  digits (d1 :: ds1) -> digits (d2 :: ds2) -> digits (d3 :: ds3) ->
  value (d1 :: ds1) < 2 ^ 31 ->
  value (d2 :: ds2) < 2 ^ 31 -> value (d3 :: ds3) < 2 ^ 31 ->
  Word.i16 (value (d1 :: ds1)) < 0 ->
  snd (command_fields (gInputString s)) = true /\
  process_command s = None.
Proof.
  intros Hline H1 H2 H3 V1 V2 V3 Hi.
  assert (Hsave : String.eqb (gInputString s) "SAVE" = false)
    by (rewrite Hline; now apply command_line_not_SAVE).
  assert (Hf : command_fields (gInputString s) =
               (Word.i16 (value (d1 :: ds1)), value (d2 :: ds2),
                value (d3 :: ds3), true)).
  { rewrite Hline, command_fields_numerals by trivial.
    replace (Word.i16 (value (d1 :: ds1)) <? 4) with true
      by (symmetry; apply Z.ltb_lt; lia).
    reflexivity. }
  split; [now rewrite Hf|].
  pose proof (process_command_fields s _ _ _ _ Hsave Hf) as Hpc.
  cbv iota in Hpc.
  replace (table_set (gFreqTable s) (Word.i16 (value (d1 :: ds1)))
             (point (value (d2 :: ds2)) (value (d3 :: ds3)))) with
    (@None (list CorrectionFreq)) in Hpc; [exact Hpc|].
  unfold table_set. destruct (Z.leb_spec 0 (Word.i16 (value (d1 :: ds1)))); [lia|].
  reflexivity.
Qed.

Lemma command_index_negative_witness :
  process_command (command_state "40000 1 1") = None.
Proof.
  apply (command_index_negative (command_state "40000 1 1")
           4%nat [0; 0; 0; 0]%nat 1%nat [] 1%nat [] 0%nat 0%nat);
    [ reflexivity | repeat constructor | repeat constructor
    | repeat constructor | reflexivity | reflexivity | reflexivity
    | reflexivity ].
Defined.

(** ** The serial receiver *)

Definition is_newline (c : ascii) : bool := Ascii.eqb c "010".

Lemma append_assoc_char (a : string) c (b : string) :
  ((a ++ String c EmptyString) ++ b)%string = (a ++ String c b)%string.
Proof. induction a as [|x a IH]; simpl; [reflexivity | now rewrite IH]. Qed.

(** X12. [serialEvent] never empties the buffer and drops only the
    newlines: after it has read the bytes [rx], [gInputString] is what it
    was, followed by the bytes of [rx] other than newlines, and
    [gStringComplete] is raised when [rx] holds a newline.  So the bytes that
    follow a newline in the same batch, a second command for instance, are
    appended to the line that is about to be processed. *)
Theorem serialEvent_line rx : forall s,
  gInputString (serialEvent rx s) =
    (gInputString s ++
     string_of_list_ascii (filter (fun c => negb (is_newline c)) rx))%string /\
  gStringComplete (serialEvent rx s) =
    gStringComplete s || existsb is_newline rx.
Proof.
  induction rx as [|c rest IH]; intros s.
  - simpl. now rewrite append_empty, orb_false_r.
  - cbn [serialEvent filter existsb]. cbv zeta.
    change (is_newline c) with (Ascii.eqb c "010").
    destruct (Ascii.eqb c "010"); cbn [negb orb];
      match goal with
      | |- context [serialEvent rest ?x] =>
          destruct (IH x) as (H1 & H2); rewrite H1, H2; clear H1 H2
      end.
    + split.
      * f_equal. now destruct s.
      * replace (gStringComplete _) with true by now destruct s.
        now destruct (gStringComplete s).
    + split.
      * replace (gInputString (set_gInputString _ s))
          with (gInputString s ++ String c EmptyString)%string by now destruct s.
        apply append_assoc_char.
      * f_equal. now destruct s.
Qed.

Lemma serialEvent_frame rx : forall s,
  pin13 (serialEvent rx s) = pin13 s /\
  gLastOutput (serialEvent rx s) = gLastOutput s /\
  EEPROM (serialEvent rx s) = EEPROM s /\
  gFreqTable (serialEvent rx s) = gFreqTable s /\
  gState (serialEvent rx s) = gState s.
Proof.
  induction rx as [|c rest IH]; intros s.
  - repeat split.
  - cbn [serialEvent]. cbv zeta.
    destruct (Ascii.eqb c "010");
      match goal with
      | |- context [serialEvent rest ?x] =>
          destruct (IH x) as (H1 & H2 & H3 & H4 & H5)
      end;
      rewrite H1, H2, H3, H4, H5; destruct s; repeat split.
Qed.

(** ** The firmware as a transition system

    Between two passes of [loop()] the Arduino core calls [serialEvent()]
    when bytes are waiting, and the timer events occur at any time. *)

Inductive action :=
| Irq (ev : event)
| Rx (rx : list ascii)
| Pass (now tcnt1 tcnt1' : Z).

Definition act (a : action) (s : Mcu) : option Mcu :=
  match a with
  | Irq ev => if enabled ev s then Some (fire ev s) else None
  | Rx rx => Some (serialEvent rx s)
  | Pass now tcnt1 tcnt1' => loop now tcnt1 tcnt1' s
  end.

Fixpoint exec (l : list action) (s : Mcu) : option Mcu :=
  match l with
  | [] => Some s
  | a :: rest =>
      match act a s with
      | Some s' => exec rest s'
      | None => None
      end
  end.

Lemma length_list_set {A} (l : list A) : forall n v,
  List.length (list_set n v l) = List.length l.
Proof.
  induction l as [|x l IH]; intros n v; destruct n; simpl;
    try reflexivity.
  now rewrite IH.
Qed.

Lemma length_table_set t index v t' :
  table_set t index v = Some t' -> List.length t' = List.length t.
Proof.
  unfold table_set. destruct (_ && _); [|discriminate].
  intros [= <-]. apply length_list_set.
Qed.

Lemma process_command_frame s s' :
  process_command s = Some s' ->
  pin13 s' = pin13 s /\ gLastOutput s' = gLastOutput s /\
  List.length (gFreqTable s') = List.length (gFreqTable s) /\
  gStringComplete s' = false /\ gInputString s' = EmptyString /\
  EEPROM s' = (if String.eqb (gInputString s) "SAVE"
               then EEPROM (saveConf s) else EEPROM s).
Proof.
  destruct s; unfold process_command; simpl.
  destruct (String.eqb _ _); simpl.
  - intros [= <-]. repeat split.
  - destruct (myParseInt gInputString0) as [v1 it1]; simpl.
    destruct (myParseInt it1) as [v2 it2]; simpl.
    destruct (myParseInt it2) as [v3 it3]; simpl.
    destruct (negb (at_last it1)), (negb (at_last it2)), (at_last it3),
             (Word.i16 v1 <? 4); simpl;
      try (intros [= <-]; repeat split);
      destruct (table_set _ _ _) as [t|] eqn:Et; simpl;
      intros [= <-]; simpl; repeat split;
      apply (length_table_set _ _ _ _ Et).
Qed.

Lemma control_update_frame now tcnt1 tcnt1' s :
  pin13 (control_update now tcnt1 tcnt1' s) = pin13 s /\
  gLastOutput (control_update now tcnt1 tcnt1' s) = gLastOutput s /\
  EEPROM (control_update now tcnt1 tcnt1' s) = EEPROM s.
Proof.
  destruct s; unfold control_update; simpl.
  case_ifs; repeat split.
Qed.

(** What a pass of [loop()] in [NORMAL] hands to the command handler. *)
Definition before_command (now tcnt1 tcnt1' : Z) (s : Mcu) : Mcu :=
  let s := set_gLoopPerSec (Word.i32 (gLoopPerSec s + 1)) s in
  if 100 <? Word.u32 (now - gLastUpdate s) then control_update now tcnt1 tcnt1' s
  else s.

Lemma loop_normal now tcnt1 tcnt1' s :
  gState s = NORMAL ->
  loop now tcnt1 tcnt1' s =
  if gStringComplete s then process_command (before_command now tcnt1 tcnt1' s)
  else Some (before_command now tcnt1 tcnt1' s).
Proof.
  intros Hst. unfold loop, before_command. rewrite Hst. cbv zeta.
  destruct (100 <? _).
  - destruct (control_update_preserves now tcnt1 tcnt1'
                (set_gLoopPerSec (Word.i32 (gLoopPerSec s + 1)) s)) as (H & _).
    rewrite H. now destruct s.
  - now destruct s.
Qed.

Lemma before_command_frame now tcnt1 tcnt1' s :
  pin13 (before_command now tcnt1 tcnt1' s) = pin13 s /\
  gLastOutput (before_command now tcnt1 tcnt1' s) = gLastOutput s /\
  EEPROM (before_command now tcnt1 tcnt1' s) = EEPROM s /\
  gFreqTable (before_command now tcnt1 tcnt1' s) = gFreqTable s /\
  gInputString (before_command now tcnt1 tcnt1' s) = gInputString s /\
  gStringComplete (before_command now tcnt1 tcnt1' s) = gStringComplete s.
Proof.
  unfold before_command. cbv zeta. destruct (100 <? _).
  - destruct (control_update_frame now tcnt1 tcnt1'
                (set_gLoopPerSec (Word.i32 (gLoopPerSec s + 1)) s)) as (H1 & H2 & H3).
    destruct (control_update_preserves now tcnt1 tcnt1'
                (set_gLoopPerSec (Word.i32 (gLoopPerSec s + 1)) s)) as (H4 & _ & H5 & H6).
    rewrite H1, H2, H3, H4, H5, H6. now destruct s.
  - now destruct s.
Qed.

Lemma fire_frame ev s :
  EEPROM (fire ev s) = EEPROM s /\ gFreqTable (fire ev s) = gFreqTable s.
Proof.
  destruct s; destruct ev; simpl; try (split; reflexivity).
  - unfold isr_capture; simpl. case_ifs; split; reflexivity.
  - unfold isr_compare; simpl. case_ifs; split; reflexivity.
Qed.

Lemma length_gFreqTable_boot e : List.length (gFreqTable (boot e)) = 4%nat.
Proof.
  unfold boot, setup, loadConf. cbv zeta. destruct (_ || _); reflexivity.
Qed.

Lemma pin13_boot e : pin13 (boot e) = gLastOutput (boot e).
Proof.
  unfold boot, setup, loadConf. cbv zeta. destruct (_ || _); reflexivity.
Qed.

(** ** Steps without a result

    [process_command] has no result when an accepted command stores
    outside [gFreqTable]: C leaves everything after such a store
    undefined.  This is the one way a pass of [loop()] has no result. *)
Definition stray_store (s : Mcu) : bool :=
  negb (String.eqb (gInputString s) "SAVE") &&
  (let '(index, v2, v3, ok) := command_fields (gInputString s) in
   ok && match table_set (gFreqTable s) index (point v2 v3) with
         | Some _ => false
         | None => true
         end).

Lemma process_command_SAVE s :
  String.eqb (gInputString s) "SAVE" = true ->
  exists s', process_command s = Some s'.
Proof.
  intros H. unfold process_command. cbv zeta.
  replace (gInputString (println (Text "Line received") s)) with (gInputString s)
    by now destruct s.
  rewrite H. eexists. reflexivity.
Qed.

Lemma process_command_none s :
  process_command s = None <-> stray_store s = true.
Proof.
  unfold stray_store. destruct (String.eqb (gInputString s) "SAVE") eqn:Hsave.
  - destruct (process_command_SAVE s Hsave) as (s' & ->).
    cbn [negb andb]. split; discriminate.
  - cbn [negb andb].
    destruct (command_fields (gInputString s)) as [[[index v2] v3] ok] eqn:Hf.
    pose proof (process_command_fields s _ _ _ _ Hsave Hf) as H.
    destruct ok; cbv iota in H; cbn [andb].
    + destruct (table_set (gFreqTable s) index (point v2 v3)) as [t|].
      * destruct H as (s' & -> & _). split; discriminate.
      * rewrite H. split; reflexivity.
    + destruct H as (s' & -> & _). split; discriminate.
Qed.

Lemma stray_store_ext s1 s2 :
  gInputString s1 = gInputString s2 -> gFreqTable s1 = gFreqTable s2 ->
  stray_store s1 = stray_store s2.
Proof. intros H1 H2. unfold stray_store. now rewrite H1, H2. Qed.

(** With the four entries of the table, the store is outside the array
    only for an index below 0: the test [index < 4] was passed. *)
Lemma stray_store_index s :
  List.length (gFreqTable s) = 4%nat -> stray_store s = true ->
  fst (fst (fst (command_fields (gInputString s)))) < 0.
Proof.
  intros Hlen H. unfold stray_store, command_fields in *.
  destruct (myParseInt (gInputString s)) as [v1 it1].
  destruct (myParseInt it1) as [v2 it2].
  destruct (myParseInt it2) as [v3 it3].
  cbv beta iota zeta in H. cbn [fst].
  apply andb_prop in H as (_ & H). apply andb_prop in H as (Hok & Hset).
  apply andb_prop in Hok as (_ & Hlt). apply Z.ltb_lt in Hlt.
  unfold table_set in Hset. rewrite Hlen in Hset.
  destruct (Z.leb_spec 0 (Word.i16 v1)); [|lia].
  destruct (Z.ltb_spec (Word.i16 v1) (Z.of_nat 4)); [discriminate|].
  change (Z.of_nat 4) with 4 in *. lia.
Qed.

Lemma loop_normal_none now tcnt1 tcnt1' s :
  gState s = NORMAL ->
  (loop now tcnt1 tcnt1' s = None <->
   gStringComplete s = true /\ stray_store s = true).
Proof.
  intros Hst. rewrite loop_normal by exact Hst.
  destruct (before_command_frame now tcnt1 tcnt1' s) as (_ & _ & _ & H4 & H5 & _).
  destruct (gStringComplete s).
  - rewrite process_command_none, (stray_store_ext _ s H5 H4).
    split; [intros H; now split | now intros (_ & H)].
  - split; [discriminate | intros (H & _); discriminate].
Qed.

(** The steps that have no result: an interrupt whose flag is not raised,
    which the hardware does not take, and the pass of [loop()] that stores
    outside the table. *)
Definition no_step (a : action) (s : Mcu) : bool :=
  match a with
  | Irq ev => negb (enabled ev s)
  | Rx _ => false
  | Pass _ _ _ =>
      match gState s with
      | NORMAL => gStringComplete s && stray_store s
      | _ => false
      end
  end.

Lemma act_none a s : act a s = None <-> no_step a s = true.
Proof.
  destruct a as [ev|rx|now tcnt1 tcnt1']; cbn [act no_step].
  - destruct (enabled ev s); cbn [negb]; split; try discriminate; reflexivity.
  - split; discriminate.
  - destruct (gState s) eqn:Hst.
    + destruct (loop_raise now tcnt1 tcnt1' s Hst) as (s' & -> & _).
      split; discriminate.
    + destruct (loop_lower now tcnt1 tcnt1' s Hst) as (s' & -> & _).
      split; discriminate.
    + rewrite loop_normal_none by exact Hst. now rewrite andb_true_iff.
Qed.

(** ** Self-test ramp and the terminal state *)

Lemma gState_serialEvent rx s : gState (serialEvent rx s) = gState s.
Proof. apply serialEvent_frame. Qed.


(** The machine put in the rising phase by hand, at [millis() = 0]. *)
Definition ramp_state : Mcu :=
  set_gState OPEN_CER_RAISE (reset_state (fun _ => 255)).


(** What every run keeps: the output pin shows [gLastOutput], the
    self-test ramp is not entered, the table has its four entries. *)
Definition steady (s : Mcu) : Prop :=
  pin13 s = gLastOutput s /\ gState s = NORMAL /\
  List.length (gFreqTable s) = 4%nat.

Lemma act_steady a s s' : steady s -> act a s = Some s' -> steady s'.
Proof.
  intros (Hpin & Hst & Hlen). destruct a as [ev|rx|now tcnt1 tcnt1']; simpl.
  - destruct (enabled ev s); [|discriminate]. intros [= <-].
    destruct (fire_frame ev s) as (_ & Ht).
    repeat split.
    + now apply pin13_follows_gLastOutput.
    + now rewrite gState_fire.
    + now rewrite Ht.
  - intros [= <-].
    destruct (serialEvent_frame rx s) as (H1 & H2 & _ & H4 & H5).
    repeat split; congruence.
  - intros Hloop. pose proof (loop_normal_terminal _ _ _ _ _ Hst Hloop) as Hst'.
    rewrite loop_normal in Hloop by exact Hst.
    destruct (before_command_frame now tcnt1 tcnt1' s) as (H1 & H2 & _ & H4 & _).
    destruct (gStringComplete s).
    + destruct (process_command_frame _ _ Hloop) as (P1 & P2 & P3 & _).
      repeat split; congruence.
    + injection Hloop as <-. repeat split; congruence.
Qed.

Lemma exec_steady l : forall s0,
  steady s0 ->
  (exists s, exec l s0 = Some s /\ steady s) \/
  (exec l s0 = None /\
   exists l1 a l2 s, l = l1 ++ a :: l2 /\ exec l1 s0 = Some s /\ steady s /\
     no_step a s = true).
Proof.
  induction l as [|a l IH]; intros s0 H0.
  - left. exists s0. now split.
  - cbn [exec]. destruct (act a s0) as [s1|] eqn:Ea.
    + destruct (IH s1 (act_steady _ _ _ H0 Ea))
        as [(s & He & Hs) | (He & l1 & b & l2 & s & Hl & Hex & Hs & Hb)].
      * left. exists s. now split.
      * right. split; [exact He|]. exists (a :: l1), b, l2, s.
        rewrite Hl. cbn [app exec]. rewrite Ea.
        split; [reflexivity|]. split; [exact Hex|]. split; [exact Hs | exact Hb].
    + right. split; [reflexivity|]. exists [], a, l, s0.
      split; [reflexivity|]. split; [reflexivity|]. split; [exact H0|].
      now apply act_none.
Qed.


Definition sample_run : list action :=
  [ Irq (HwEdge 100); Irq IrqCapture;
    Rx (list_ascii_of_string "2 70000 71000" ++ ["010"%char]);
    Pass 150 200 201;
    Irq HwWrap; Irq IrqOverflow; Irq (HwEdge 40); Irq IrqCapture;
    Pass 260 300 301; Irq IrqCompare ].

Definition stray_run : list action :=
  [ Rx (list_ascii_of_string "40000 1 1" ++ ["010"%char]); Pass 150 200 201;
    Irq IrqCompare ].


(** The steps that write the EEPROM: a pass of [loop()] in [NORMAL] that
    finds the complete line [SAVE]. *)
Definition saves (a : action) (s : Mcu) : bool :=
  match a, gState s with
  | Pass _ _ _, NORMAL => gStringComplete s && String.eqb (gInputString s) "SAVE"
  | _, _ => false
  end.

Lemma EEPROM_saveConf_ext s1 s2 :
  EEPROM s1 = EEPROM s2 -> gFreqTable s1 = gFreqTable s2 ->
  EEPROM (saveConf s1) = EEPROM (saveConf s2).
Proof. intros H1 H2. now rewrite !EEPROM_saveConf, H1, H2. Qed.



Lemma gFreqTable_print x s : gFreqTable (print x s) = gFreqTable s.
Proof. now destruct s. Qed.

Lemma gFreqTable_loadConf_ext s1 s2 :
  EEPROM s1 = EEPROM s2 -> gFreqTable s1 = gFreqTable s2 ->
  gFreqTable (loadConf s1) = gFreqTable (loadConf s2).
Proof.
  intros H1 H2. unfold loadConf. cbv zeta. rewrite H1.
  destruct (_ || _); rewrite !gFreqTable_println; [exact H2|].
  now destruct s1, s2.
Qed.

Lemma gFreqTable_boot e :
  gFreqTable (boot e) = gFreqTable (loadConf (reset_state e)).
Proof.
  unfold boot, setup. cbv zeta.
  rewrite !gFreqTable_println, !gFreqTable_print.
  apply gFreqTable_loadConf_ext; reflexivity.
Qed.

Lemma loadConf_after_saveConf s s2 :
  wf_table (gFreqTable s) ->
  EEPROM s2 = EEPROM (saveConf s) ->
  gFreqTable (loadConf s2) = gFreqTable s.
Proof.
  intros [Hlen Hwf] H2.
  assert (He : EEPROM s2 = write_bytes 3 (table_bytes (gFreqTable s))
                 (EEPROM_write 2 char_X
                    (EEPROM_write 1 char_N (EEPROM_write 0 char_S (EEPROM s))))).
  { now rewrite H2, EEPROM_saveConf, firstn_table_bytes. }
  assert (Hbytes : List.length (table_bytes (gFreqTable s)) = 32%nat).
  { rewrite length_table_bytes, Hlen. reflexivity. }
  assert (Hmagic : EEPROM s2 0 = char_S /\ EEPROM s2 1 = char_N /\
                   EEPROM s2 2 = char_X).
  { rewrite He. rewrite !write_bytes_below by lia. now vm_compute. }
  destruct Hmagic as (H0 & H1 & H2').
  assert (Hload : loadConf s2 =
            println (Text "Configuration loaded")
              (set_gFreqTable
                 (bytes_table 4 (read_bytes 3 sizeof_gFreqTable (EEPROM s2))) s2)).
  { unfold loadConf. cbv zeta. unfold EEPROM_read at 1 2 3.
    change (0 + 1) with 1. change (0 + 2) with 2. change (0 + 3) with 3.
    rewrite H0, H1, H2'. reflexivity. }
  rewrite Hload, gFreqTable_println.
  replace (gFreqTable (set_gFreqTable
             (bytes_table 4 (read_bytes 3 sizeof_gFreqTable (EEPROM s2))) s2))
    with (bytes_table 4 (read_bytes 3 sizeof_gFreqTable (EEPROM s2)))
    by now destruct s2.
  rewrite He. unfold sizeof_gFreqTable. rewrite <- Hbytes at 1.
  rewrite read_bytes_write_bytes, map_u8_table_bytes, <- Hlen.
  now apply bytes_table_table_bytes.
Qed.

(** X15. A pass of [loop()] that finds the line [SAVE] keeps the table in
    memory, and a reset at any later time with the EEPROM as this pass left
    it starts [loop()] with that same table, bit for bit, in place of the
    built-in one. *)
Theorem save_command_survives_reset now tcnt1 tcnt1' s :
  gState s = NORMAL -> gStringComplete s = true ->
  gInputString s = "SAVE"%string ->
  wf_table (gFreqTable s) ->
  exists s', loop now tcnt1 tcnt1' s = Some s' /\
    gFreqTable s' = gFreqTable s /\
    gFreqTable (boot (EEPROM s')) = gFreqTable s.
Proof.
  intros Hst Hc Hline Hwf.
  rewrite loop_normal, Hc by exact Hst.
  destruct (before_command_frame now tcnt1 tcnt1' s)
    as (_ & _ & H3 & H4 & H5 & _).
  set (s1 := before_command now tcnt1 tcnt1' s) in *.
  assert (Hpc : process_command s1 =
            Some (set_gStringComplete false (set_gInputString EmptyString
                    (saveConf (println (Text "Saving conf")
                                 (println (Text "Line received") s1)))))).
  { unfold process_command. cbv zeta.
    replace (gInputString (println (Text "Line received") s1))
      with "SAVE"%string by (rewrite <- Hline, <- H5; now destruct s1).
    reflexivity. }
  rewrite Hpc. eexists. split; [reflexivity|].
  destruct (process_command_frame _ _ Hpc) as (_ & _ & _ & _ & _ & P).
  rewrite H5, Hline in P. cbn [String.eqb Ascii.eqb Bool.eqb andb] in P.
  split.
  - rewrite <- H4. now destruct s1.
  - rewrite gFreqTable_boot. apply loadConf_after_saveConf; [exact Hwf|].
    change (EEPROM (reset_state ?e)) with e.
    rewrite P. now apply EEPROM_saveConf_ext.
Qed.

Lemma save_command_survives_reset_witness :
  exists s', loop 0 0 0 (set_gFreqTable sample_table (command_state "SAVE")) = Some s' /\
    gFreqTable (boot (EEPROM s')) = sample_table.
Proof.
  destruct (save_command_survives_reset 0 0 0
              (set_gFreqTable sample_table (command_state "SAVE"))
              eq_refl eq_refl eq_refl sample_table_wf) as (s' & H1 & _ & H3).
  exists s'. split; [exact H1 | exact H3].
Defined.

(** X16. A pass of [loop()] in [NORMAL] that returns leaves no line
    pending: a complete line, accepted or rejected, is consumed and the
    buffer emptied, and an incomplete line stays in the buffer untouched. *)
Theorem loop_consumes_line now tcnt1 tcnt1' s s' :
  gState s = NORMAL ->
  loop now tcnt1 tcnt1' s = Some s' ->
  gStringComplete s' = false /\
  gInputString s' = if gStringComplete s then EmptyString else gInputString s.
Proof.
  intros Hst. rewrite loop_normal by exact Hst.
  destruct (before_command_frame now tcnt1 tcnt1' s)
    as (_ & _ & _ & _ & H5 & H6).
  destruct (gStringComplete s) eqn:Hc.
  - intros Hpc. destruct (process_command_frame _ _ Hpc) as (_ & _ & _ & P4 & P5 & _).
    now split.
  - intros [= <-]. split; [congruence | exact H5].
Qed.

Lemma loop_consumes_line_witness :
  exists s', loop 0 0 0 (command_state "5 1 1") = Some s' /\
    gStringComplete s' = false /\ gInputString s' = EmptyString.
Proof.
  destruct (loop 0 0 0 (command_state "5 1 1")) as [s'|] eqn:E;
    [|vm_compute in E; discriminate].
  exists s'. split; [reflexivity|].
  exact (loop_consumes_line 0 0 0 (command_state "5 1 1") s' eq_refl E).
Defined.

(** * The speed sensor simulator

    [speed_sensor_simulater.ino]: a square wave whose period is set with
    four buttons.  The buttons are wired with pull-ups: [digitalRead]
    returns [false] while a button is pressed. *)

Module Simulator.

Definition MAX_PERIOD : Z := 720000.
Definition MIN_PERIOD : Z := 3000.

Record Sim := mkSim {
  period : Z;       (* int32_t *)
  delta : Z;        (* int32_t *)
  lastTick : Z;     (* unsigned long *)
  lastRead : Z;     (* unsigned long *)
  state : bool;
  OUT_PIN : bool
}.

(** The globals as their initialisers leave them; [setup()] only sets the
    pin modes. *)
Definition reset : Sim :=
  {| period := 10000; delta := 1; lastTick := 0; lastRead := 0;
     state := false; OUT_PIN := false |}.

(** What one pass of [loop()] reads: [micros()] and the four pins. *)
Record Reads := mkReads {
  micros : Z;
  BTN_PLUS_PIN : bool;
  BTN_LESS_PIN : bool;
  BTN_STOP_PIN : bool;
  BTN_LOOP_PIN : bool
}.

Definition set_period (v : Z) (s : Sim) : Sim :=
  mkSim v (delta s) (lastTick s) (lastRead s) (state s) (OUT_PIN s).
Definition set_delta (v : Z) (s : Sim) : Sim :=
  mkSim (period s) v (lastTick s) (lastRead s) (state s) (OUT_PIN s).
Definition set_lastTick (v : Z) (s : Sim) : Sim :=
  mkSim (period s) (delta s) v (lastRead s) (state s) (OUT_PIN s).
Definition set_lastRead (v : Z) (s : Sim) : Sim :=
  mkSim (period s) (delta s) (lastTick s) v (state s) (OUT_PIN s).
Definition set_state (v : bool) (s : Sim) : Sim :=
  mkSim (period s) (delta s) (lastTick s) (lastRead s) v (OUT_PIN s).
Definition set_OUT_PIN (v : bool) (s : Sim) : Sim :=
  mkSim (period s) (delta s) (lastTick s) (lastRead s) (state s) v.

(** Lines 41 to 56: the two step buttons, read every quarter of a second. *)
Definition read_buttons (r : Reads) (s : Sim) : Sim :=
  let now := Word.u32 (micros r) in
  if 250000 <? Word.u32 (now - lastRead s) then
    let s :=
      if negb (BTN_PLUS_PIN r) then
        let s := set_period (Word.i32 (period s + Z.quot (period s) 50)) s in
        if MAX_PERIOD <? period s then set_period MAX_PERIOD s else s
      else s in
    let s :=
      if negb (BTN_LESS_PIN r) then
        let s := set_period (Word.i32 (period s - Z.quot (period s) 50)) s in
        if period s <? MIN_PERIOD then set_period MIN_PERIOD s else s
      else s in
    set_lastRead now s
  else s.

(** Lines 58 to 72: the sweep button. *)
Definition sweep (r : Reads) (s : Sim) : Sim :=
  if negb (BTN_LOOP_PIN r) then
    let s := set_period (Word.i32 (period s + delta s)) s in
    if MAX_PERIOD <? period s then
      let s := set_delta (-1) s in
      set_period MAX_PERIOD s
    else if period s <? MIN_PERIOD then
      let s := set_delta 1 s in
      set_period MIN_PERIOD s
    else s
  else s.

(** Lines 74 to 85: the output. *)
Definition output (r : Reads) (s : Sim) : Sim :=
  let now := Word.u32 (micros r) in
  if negb (BTN_STOP_PIN r) then s
  else if Word.u32 (lastTick s + Z.quot (period s) 2) <? now then
    let s := set_OUT_PIN (state s) s in
    let s := set_state (negb (state s)) s in
    set_lastTick now s
  else s.

(** [void loop()], one pass. *)
Definition loop (r : Reads) (s : Sim) : Sim :=
  output r (sweep r (read_buttons r s)).

(** The passes of [loop()] after reset, with what each of them reads. *)
Definition passes (rs : list Reads) (s : Sim) : Sim :=
  fold_left (fun s r => loop r s) rs s.

Definition in_range (s : Sim) : Prop :=
  MIN_PERIOD <= period s <= MAX_PERIOD /\ (delta s = 1 \/ delta s = -1).

(** Whether a pass writes the output pin: the test of line 79, made after
    the buttons were handled. *)
Definition writes (r : Reads) (s : Sim) : bool :=
  let s := sweep r (read_buttons r s) in
  BTN_STOP_PIN r &&
  (Word.u32 (lastTick s + Z.quot (period s) 2) <? Word.u32 (micros r)).

Fixpoint count_writes (rs : list Reads) (s : Sim) : nat :=
  match rs with
  | [] => O
  | r :: rest => ((if writes r s then 1 else 0) + count_writes rest (loop r s))%nat
  end.

(** No button is pressed. *)
Definition idle (r : Reads) : Prop :=
  BTN_PLUS_PIN r = true /\ BTN_LESS_PIN r = true /\
  BTN_STOP_PIN r = true /\ BTN_LOOP_PIN r = true.

(** Only the sweep button is pressed. *)
Definition sweeping (r : Reads) : Prop :=
  BTN_PLUS_PIN r = true /\ BTN_LESS_PIN r = true /\ BTN_LOOP_PIN r = false.

(** The values of [micros()] in successive passes, from [t] on and before
    the counter wraps. *)
Fixpoint clock_from (t : Z) (rs : list Reads) : Prop :=
  match rs with
  | [] => True
  | r :: rest => t <= micros r < 2 ^ 32 /\ clock_from (micros r) rest
  end.

End Simulator.

Lemma quot_50_bounds p : 0 <= p -> 0 <= Z.quot p 50 /\ 50 * Z.quot p 50 <= p.
Proof.
  intros Hp. rewrite Z.quot_div_nonneg by lia.
  split; [apply Z.div_pos; lia | apply Z.mul_div_le; lia].
Qed.

Ltac quot_bounds :=
  repeat match goal with
  | |- context [Z.quot ?x 50] =>
      lazymatch goal with
      | _ : 0 <= Z.quot x 50 /\ _ |- _ => fail
      | _ => pose proof (quot_50_bounds x ltac:(lia))
      end
  end.

Ltac sim_fields :=
  cbn [Simulator.set_period Simulator.set_delta Simulator.set_lastTick
       Simulator.set_lastRead Simulator.set_state Simulator.set_OUT_PIN
       Simulator.period Simulator.delta Simulator.lastTick Simulator.lastRead
       Simulator.state Simulator.OUT_PIN].

Ltac sim_step :=
  sim_fields; quot_bounds;
  match goal with
  | |- context [Word.i32 ?x] =>
      rewrite (Word.i32_small x) by (change (2 ^ 31) with 2147483648; lia)
  | |- context [if ?a <? ?b then _ else _] =>
      lazymatch a with
      | context [Word.i32 _] => fail
      | _ =>
          lazymatch b with
          | context [Word.i32 _] => fail
          | _ => destruct (Z.ltb_spec a b)
          end
      end
  end.

Lemma sim_read_buttons_in_range r s :
  Simulator.in_range s -> Simulator.in_range (Simulator.read_buttons r s).
Proof.
  unfold Simulator.in_range, Simulator.read_buttons, Simulator.MIN_PERIOD,
    Simulator.MAX_PERIOD.
  destruct s as [p d lt lr st pin]. sim_fields.
  intros (Hp & Hd). cbv zeta.
  destruct (250000 <? _); [|now split].
  destruct (negb (Simulator.BTN_PLUS_PIN r));
    destruct (negb (Simulator.BTN_LESS_PIN r));
    repeat sim_step; sim_fields; (split; [lia | exact Hd]).
Qed.

Lemma sim_sweep_in_range r s :
  Simulator.in_range s -> Simulator.in_range (Simulator.sweep r s).
Proof.
  unfold Simulator.in_range, Simulator.sweep, Simulator.MIN_PERIOD,
    Simulator.MAX_PERIOD.
  destruct s as [p d lt lr st pin]. cbn [Simulator.period Simulator.delta].
  intros (Hp & Hd). cbv zeta.
  destruct (negb (Simulator.BTN_LOOP_PIN r)); [|now split].
  cbn [Simulator.set_period Simulator.period Simulator.delta].
  rewrite (Word.i32_small (p + d))
    by (change (2 ^ 31) with 2147483648; lia).
  destruct (Z.ltb_spec 720000 (p + d)); cbn; [lia|].
  destruct (Z.ltb_spec (p + d) 3000); cbn; lia.
Qed.

Lemma sim_output_fields r s :
  Simulator.period (Simulator.output r s) = Simulator.period s /\
  Simulator.delta (Simulator.output r s) = Simulator.delta s.
Proof.
  unfold Simulator.output. cbv zeta.
  destruct (negb _); [now split|]. destruct (_ <? _); now split.
Qed.

Lemma sim_loop_in_range r s :
  Simulator.in_range s -> Simulator.in_range (Simulator.loop r s).
Proof.
  intros H. unfold Simulator.loop.
  apply (sim_read_buttons_in_range r) in H. apply (sim_sweep_in_range r) in H.
  unfold Simulator.in_range in *.
  destruct (sim_output_fields r (Simulator.sweep r (Simulator.read_buttons r s)))
    as (-> & ->).
  exact H.
Qed.

Lemma sim_passes_cons r rs s :
  Simulator.passes (r :: rs) s = Simulator.passes rs (Simulator.loop r s).
Proof. reflexivity. Qed.

Lemma sim_passes_in_range rs : forall s,
  Simulator.in_range s -> Simulator.in_range (Simulator.passes rs s).
Proof.
  induction rs as [|r rs IH]; intros s H; simpl; [exact H|].
  apply IH. now apply sim_loop_in_range.
Qed.

(** X17. Whatever the buttons do and whatever [micros()] returns, the
    period of the simulator stays between [MIN_PERIOD] and [MAX_PERIOD] and
    [delta] is 1 or -1; no addition on [period] leaves the 32-bit range. *)
Theorem simulator_period_in_range rs :
  Simulator.in_range (Simulator.passes rs Simulator.reset).
Proof.
  apply sim_passes_in_range. unfold Simulator.in_range. simpl.
  unfold Simulator.MIN_PERIOD, Simulator.MAX_PERIOD. lia.
Qed.

Lemma sim_buttons_frame r s :
  Simulator.state (Simulator.sweep r (Simulator.read_buttons r s)) = Simulator.state s /\
  Simulator.OUT_PIN (Simulator.sweep r (Simulator.read_buttons r s)) = Simulator.OUT_PIN s /\
  Simulator.lastTick (Simulator.sweep r (Simulator.read_buttons r s)) = Simulator.lastTick s.
Proof.
  unfold Simulator.sweep, Simulator.read_buttons. cbv zeta.
  repeat match goal with
  | |- context [if ?c then _ else _] => destruct c
  end; repeat split.
Qed.

Lemma sim_loop_output r s :
  Simulator.state (Simulator.loop r s) = xorb (Simulator.state s) (Simulator.writes r s) /\
  Simulator.OUT_PIN (Simulator.loop r s) =
    (if Simulator.writes r s then Simulator.state s else Simulator.OUT_PIN s).
Proof.
  destruct (sim_buttons_frame r s) as (H1 & H2 & _).
  unfold Simulator.loop, Simulator.writes, Simulator.output. cbv zeta.
  set (s1 := Simulator.sweep r (Simulator.read_buttons r s)) in *.
  destruct (Simulator.BTN_STOP_PIN r); cbn [negb andb].
  - destruct (_ <? _); sim_fields; rewrite ?H1, ?H2.
    + now rewrite xorb_true_r.
    + now rewrite xorb_false_r.
  - rewrite H1, H2. now rewrite xorb_false_r.
Qed.

Lemma sim_count_writes rs : forall s k,
  Simulator.state s = Nat.odd k ->
  Simulator.OUT_PIN s = Nat.even k && negb (Nat.eqb k 0) ->
  let n := (k + Simulator.count_writes rs s)%nat in
  Simulator.state (Simulator.passes rs s) = Nat.odd n /\
  Simulator.OUT_PIN (Simulator.passes rs s) = Nat.even n && negb (Nat.eqb n 0).
Proof.
  induction rs as [|r rs IH]; intros s k Hs Hp; cbn [Simulator.count_writes Simulator.passes fold_left].
  - cbv zeta. rewrite Nat.add_0_r. now split.
  - destruct (sim_loop_output r s) as (H1 & H2).
    destruct (Simulator.writes r s).
    + replace (k + (1 + Simulator.count_writes rs (Simulator.loop r s)))%nat
        with (S k + Simulator.count_writes rs (Simulator.loop r s))%nat by lia.
      apply IH.
      * rewrite H1, Hs, xorb_true_r. now rewrite Nat.odd_succ, <- Nat.negb_odd.
      * rewrite H2, Hs. rewrite Nat.even_succ. cbn [Nat.eqb negb].
        now rewrite andb_true_r.
    + cbn [Nat.add]. apply IH.
      * now rewrite H1, xorb_false_r.
      * now rewrite H2.
Qed.

(** X18. The pin is written with [state] before [state] is inverted.
    After any passes from reset, [state] tells whether the number of writes
    so far is odd, and the pin is high exactly after the second, fourth, ...
    write: the first write after reset leaves the pin low, every later one
    inverts it. *)
Theorem simulator_pin_after_writes rs :
  Simulator.state (Simulator.passes rs Simulator.reset) =
    Nat.odd (Simulator.count_writes rs Simulator.reset) /\
  Simulator.OUT_PIN (Simulator.passes rs Simulator.reset) =
    Nat.even (Simulator.count_writes rs Simulator.reset) &&
    negb (Nat.eqb (Simulator.count_writes rs Simulator.reset) 0).
Proof.
  exact (sim_count_writes rs Simulator.reset 0 eq_refl eq_refl).
Qed.

Lemma sim_idle_buttons r s :
  Simulator.BTN_PLUS_PIN r = true -> Simulator.BTN_LESS_PIN r = true ->
  Simulator.period (Simulator.read_buttons r s) = Simulator.period s /\
  Simulator.delta (Simulator.read_buttons r s) = Simulator.delta s /\
  Simulator.lastTick (Simulator.read_buttons r s) = Simulator.lastTick s.
Proof.
  intros Hp Hl. unfold Simulator.read_buttons. cbv zeta. rewrite Hp, Hl.
  cbn [negb]. destruct (_ <? _); repeat split.
Qed.

(** X19. The test [now > lastTick + period / 2] adds in [unsigned long].
    Once [lastTick + period / 2] reaches 2^32, in the last half period
    before [micros()] wraps, the sum wraps to a small number and the test
    holds in every pass: with no button pressed the output is written in
    each pass of [loop()] until the counter wraps, however little time
    passes between them. *)
Theorem simulator_wrap_glitch rs : forall s,
  Simulator.in_range s ->
  Simulator.lastTick s < 2 ^ 32 ->
  2 ^ 32 <= Simulator.lastTick s + Z.quot (Simulator.period s) 2 ->
  Forall Simulator.idle rs ->
  Simulator.clock_from (Simulator.lastTick s) rs ->
  Simulator.count_writes rs s = List.length rs /\
  Simulator.period (Simulator.passes rs s) = Simulator.period s.
Proof.
  induction rs as [|r rs IH]; intros s Hr Hlt Hsum Hidle Hclock;
    rewrite ?sim_passes_cons; cbn [Simulator.count_writes List.length].
  - now split.
  - inversion Hidle as [|? ? (Hp & Hl & Hs & Ho) Hrest]; subst.
    destruct Hclock as (Hnow & Hclock).
    destruct (sim_idle_buttons r s Hp Hl) as (B1 & B2 & B3).
    assert (Hsw : Simulator.sweep r (Simulator.read_buttons r s) =
                  Simulator.read_buttons r s).
    { unfold Simulator.sweep. now rewrite Ho. }
    destruct Hr as (Hper & Hd).
    unfold Simulator.MIN_PERIOD, Simulator.MAX_PERIOD in Hper.
    assert (Hq : 0 <= Z.quot (Simulator.period s) 2 <= 360000).
    { rewrite Z.quot_div_nonneg by lia. split.
      - apply Z.div_pos; lia.
      - apply Z.div_le_upper_bound; lia. }
    change (2 ^ 32) with 4294967296 in *.
    assert (Hnow' : Word.u32 (Simulator.micros r) = Simulator.micros r)
      by (apply Word.u32_small; change (2 ^ 32) with 4294967296; lia).
    assert (Hw : Simulator.writes r s = true).
    { unfold Simulator.writes. cbv zeta. rewrite Hsw, Hs, B1, B3, Hnow'.
      cbn [andb]. apply Z.ltb_lt.
      unfold Word.u32. change (2 ^ 32) with 4294967296.
      Z.div_mod_to_equations. lia. }
    assert (Hloop : Simulator.lastTick (Simulator.loop r s) = Simulator.micros r /\
                    Simulator.period (Simulator.loop r s) = Simulator.period s /\
                    Simulator.delta (Simulator.loop r s) = Simulator.delta s).
    { unfold Simulator.writes in Hw. cbv zeta in Hw. rewrite Hs in Hw.
      cbn [andb] in Hw.
      unfold Simulator.loop, Simulator.output. cbv zeta.
      rewrite Hs. cbn [negb]. rewrite Hw. sim_fields.
      rewrite Hsw, B1, B2, Hnow'. repeat split. }
    destruct Hloop as (L1 & L2 & L3).
    rewrite Hw.
    destruct (IH (Simulator.loop r s)) as (I1 & I2).
    + unfold Simulator.in_range, Simulator.MIN_PERIOD, Simulator.MAX_PERIOD.
      now rewrite L2, L3.
    + rewrite L1. change (2 ^ 32) with 4294967296. lia.
    + rewrite L1, L2. change (2 ^ 32) with 4294967296. lia.
    + exact Hrest.
    + now rewrite L1.
    + rewrite I1, I2, L2. now split.
Qed.

Definition late_state : Simulator.Sim :=
  Simulator.mkSim 10000 1 4294966000 4294966000 true false.

Definition late_reads : list Simulator.Reads :=
  [ Simulator.mkReads 4294966001 true true true true;
    Simulator.mkReads 4294966002 true true true true;
    Simulator.mkReads 4294966003 true true true true ].

Lemma simulator_wrap_glitch_witness :
  Simulator.count_writes late_reads late_state = 3%nat /\
  Simulator.period (Simulator.passes late_reads late_state) = 10000.
Proof.
  apply (simulator_wrap_glitch late_reads late_state).
  - vm_compute. split; [split; discriminate | now left].
  - reflexivity.
  - vm_compute. discriminate.
  - repeat constructor.
  - vm_compute. repeat split; discriminate.
Defined.

(** X20. While the sweep button is held and the step buttons are not
    pressed, every pass of [loop()] moves the period by [delta]
    microseconds, as long as this stays within the bounds: the sweep
    advances by one microsecond per pass, whatever time a pass takes. *)
Theorem simulator_sweep rs : forall s,
  Simulator.in_range s ->
  Forall Simulator.sweeping rs ->
  Simulator.MIN_PERIOD <=
    Simulator.period s + Simulator.delta s * Z.of_nat (List.length rs)
    <= Simulator.MAX_PERIOD ->
  Simulator.period (Simulator.passes rs s) =
    Simulator.period s + Simulator.delta s * Z.of_nat (List.length rs) /\
  Simulator.delta (Simulator.passes rs s) = Simulator.delta s.
Proof.
  induction rs as [|r rs IH]; intros s Hr Hsw Hb;
    rewrite ?sim_passes_cons; cbn [List.length] in *.
  - split; [cbn; lia | reflexivity].
  - inversion Hsw as [|? ? (Hp & Hl & Ho) Hrest]; subst.
    destruct (sim_idle_buttons r s Hp Hl) as (B1 & B2 & _).
    pose proof Hr as (Hper & Hd).
    unfold Simulator.MIN_PERIOD, Simulator.MAX_PERIOD in *.
    rewrite Nat2Z.inj_succ in *.
    assert (Hpd : 3000 <= Simulator.period s + Simulator.delta s <= 720000)
      by (destruct Hd as [E|E]; rewrite E in *; lia).
    assert (Hstep : Simulator.period (Simulator.loop r s) =
                      Simulator.period s + Simulator.delta s /\
                    Simulator.delta (Simulator.loop r s) = Simulator.delta s).
    { unfold Simulator.loop.
      destruct (sim_output_fields r (Simulator.sweep r (Simulator.read_buttons r s)))
        as (-> & ->).
      unfold Simulator.sweep. cbv zeta. rewrite Ho. cbn [negb]. sim_fields.
      rewrite B1, B2, Word.i32_small
        by (change (2 ^ 31) with 2147483648; lia).
      unfold Simulator.MAX_PERIOD, Simulator.MIN_PERIOD.
      destruct (Z.ltb_spec 720000 (Simulator.period s + Simulator.delta s)); [lia|].
      destruct (Z.ltb_spec (Simulator.period s + Simulator.delta s) 3000); [lia|].
      sim_fields. now split. }
    destruct Hstep as (S1 & S2).
    destruct (IH (Simulator.loop r s)) as (I1 & I2).
    + apply sim_loop_in_range. exact Hr.
    + exact Hrest.
    + rewrite S1, S2. unfold Simulator.MIN_PERIOD, Simulator.MAX_PERIOD. lia.
    + rewrite I1, I2, S1, S2. split; [lia | reflexivity].
Qed.

Lemma simulator_sweep_witness :
  Simulator.period
    (Simulator.passes
       [ Simulator.mkReads 10 true true true false;
         Simulator.mkReads 20 true true false false ] Simulator.reset) = 10002.
Proof.
  apply (simulator_sweep
           [ Simulator.mkReads 10 true true true false;
             Simulator.mkReads 20 true true false false ] Simulator.reset).
  - vm_compute. split; [split; discriminate | now left].
  - repeat constructor.
  - vm_compute. split; discriminate.
Defined.

(** ** The field reader *)

(** X21. [myParseInt] skips the spaces before a field, reads its digits,
    then swallows the one character that ended them, whatever it is, and
    the spaces after it.  A field with no digit reads as 0 and is not an
    error; at the end of the line nothing is swallowed. *)
Theorem myParseInt_reads_field k ds c rest :
  digits ds -> value ds < 2 ^ 31 ->
  is_digit c = false -> (ds = [] -> c <> " "%char) ->
  myParseInt (spaces k ++ numeral ds ++ String c rest)%string
    = (value ds, skip_spaces rest) /\
  myParseInt (spaces k ++ numeral ds)%string = (value ds, EmptyString).
Proof.
  intros Hds Hv Hc Hsp. unfold myParseInt. rewrite !skip_spaces_spaces. split.
  - assert (Hsk : skip_spaces (numeral ds ++ String c rest)%string
                  = (numeral ds ++ String c rest)%string).
    { destruct ds as [|d ds'].
      - cbn [numeral append]. apply skip_spaces_other. now apply Hsp.
      - inversion Hds; subst. now apply skip_spaces_numeral. }
    rewrite Hsk.
    rewrite (parse_digits_numeral ds 0 (String c rest) Hds ltac:(lia) Hv Hc).
    reflexivity.
  - assert (Hsk : skip_spaces (numeral ds) = numeral ds).
    { destruct ds as [|d ds']; [reflexivity|].
      inversion Hds; subst.
      pose proof (skip_spaces_numeral d ds' EmptyString ltac:(assumption)) as H.
      now rewrite !append_empty in H. }
    rewrite Hsk.
    pose proof (parse_digits_numeral ds 0 EmptyString Hds ltac:(lia) Hv I) as H.
    rewrite append_empty in H. rewrite H. reflexivity.
Qed.

Lemma myParseInt_reads_field_witness :
  myParseInt " 12, 7" = (12, "7"%string) /\
  myParseInt "x 5" = (0, "5"%string).
Proof.
  split.
  - refine (proj1 (myParseInt_reads_field 1 [1; 2]%nat ","%char " 7" _ _ _ _)).
    + repeat constructor.
    + reflexivity.
    + reflexivity.
    + discriminate.
  - refine (proj1 (myParseInt_reads_field 0 [] "x"%char " 5" _ _ _ _)).
    + constructor.
    + reflexivity.
    + reflexivity.
    + discriminate.
Defined.
